(** * Open3D tensor indexing engine and point-cloud kernels

    A shallow embedding of
    - [cpp/open3d/core/Indexer.h]: [OffsetCalculator], [TensorRef], [Indexer];
    - [cpp/open3d/t/geometry/kernel/PointCloudImpl.h]: [UnprojectCPU],
      [EstimatePointWiseCovariance], [ComputeEigenvector0],
      [ComputeEigenvector1], [EstimatePointWiseNormalsWithFastEigen3x3].

    Conventions.
    - [int64_t], [int] and [uint32_t] values are integers in [Z]; the
      wrap-around of each width is written out ([wrap_i64], [wrap_i32],
      [wrap_u32]).
    - C arrays, [std::vector] and raw buffers are lists; an access outside
      the list is undefined behaviour.
    - [utility::LogError] throws: it is the [Raise] outcome, carrying the
      format string and its arguments.
    - [scalar_t] is instantiated at [double]: IEEE 754 binary64, which is
      what the kernel's primitive [float] implements.  [sqrt] is the
      correctly rounded square root; [acos] and [cos] come from libm and
      are parameters of the model.  The calls
      [ComputeEigenvector0(&A, eval, &evec)] are read as passing the arrays
      [A] and [evec] themselves.
    - Declarations that the two headers use but do not contain
      ([shape_util::WrapDim], [NDArrayIndexer], [TransformIndexer],
      [Tensor::Slice], the kernel launcher) are parameters or are modelled
      where they are introduced. *)

From Stdlib Require Import ZArith Floats.
From stdpp Require Import base tactics option list numbers strings.

Local Open Scope Z_scope.

(** ** Outcomes of a call *)

(** The condition thrown by [utility::LogError(fmt, args...)]. *)
Record error := LogError { fmt : string; args : list Z }.

Inductive result (A : Type) : Type :=
| Ok (a : A)          (* normal return *)
| Raise (e : error)   (* a thrown condition *)
| Undefined.          (* undefined behaviour: out-of-bounds access, division by zero *)
Arguments Ok {A} a.
Arguments Raise {A} e.
Arguments Undefined {A}.

Definition bind {A B} (r : result A) (k : A → result B) : result B :=
  match r with
  | Ok a => k a
  | Raise e => Raise e
  | Undefined => Undefined
  end.

Notation "'let*' x := r 'in' k" := (bind r (fun x => k))
  (at level 10, x pattern, r at level 100, k at level 200).

Definition is_raise {A} (r : result A) : bool :=
  match r with Raise _ => true | _ => false end.

(** ** Machine integers *)

Definition wrap_u32 (z : Z) : Z := z mod 2 ^ 32.
Definition wrap_signed (bits : Z) (z : Z) : Z :=
  (z + 2 ^ (bits - 1)) mod 2 ^ bits - 2 ^ (bits - 1).
Definition wrap_i32 : Z → Z := wrap_signed 32.
Definition wrap_i64 : Z → Z := wrap_signed 64.
Definition INT_MAX : Z := 2 ^ 31 - 1.
Definition INT64_MIN : Z := - 2 ^ 63.

(** [a / b] and [a % b] on [int64_t]: truncation towards zero; a zero
    divisor, and [INT64_MIN / -1], are undefined. *)
Definition div_i64 (a b : Z) : result Z :=
  if decide (b = 0) then Undefined
  else if decide (a = INT64_MIN ∧ b = -1) then Undefined
  else Ok (Z.quot a b).
Definition rem_i64 (a b : Z) : result Z :=
  if decide (b = 0) then Undefined
  else if decide (a = INT64_MIN ∧ b = -1) then Undefined
  else Ok (Z.rem a b).

(** [a / b] and [a % b] on [uint32_t]. *)
Definition div_u32 (a b : Z) : result Z :=
  if decide (b = 0) then Undefined else Ok (a / b).
Definition mod_u32 (a b : Z) : result Z :=
  if decide (b = 0) then Undefined else Ok (a mod b).

(** ** Arrays *)

(** [arr[i]], read. *)
Definition index {A} (arr : list A) (i : Z) : result A :=
  if decide (i < 0) then Undefined
  else match arr !! Z.to_nat i with
       | Some v => Ok v
       | None => Undefined
       end.

(** [arr[i] = v]. *)
Definition store {A} (arr : list A) (i : Z) (v : A) : result (list A) :=
  if decide (0 ≤ i < Z.of_nat (length arr)) then Ok (<[Z.to_nat i := v]> arr)
  else Undefined.

(** [for (int64_t i = lo; i < lo + count; ++i) body(i)] over a state. *)
Fixpoint for_loop {S} (lo : Z) (count : nat) (body : Z → S → result S) (s : S)
  : result S :=
  match count with
  | O => Ok s
  | S k => let* s' := body lo s in for_loop (lo + 1) k body s'
  end.

Definition for_range {S} (n : Z) (body : Z → S → result S) (s : S) : result S :=
  for_loop 0 (Z.to_nat n) body s.

(** A range-based [for (x : xs)] over a state. *)
Fixpoint for_each {A S} (xs : list A) (body : A → S → result S) (s : S)
  : result S :=
  match xs with
  | [] => Ok s
  | x :: xs' => let* s' := body x s in for_each xs' body s'
  end.

(** ** Indexer.h *)

Definition MAX_DIMS : Z := 10.
Definition MAX_INPUTS : Z := 10.
Definition MAX_OUTPUTS : Z := 7.

(** [char*] values are addresses; [nullptr] is address 0. *)
Definition nullptr : Z := 0.
Definition ptr_add (p off : Z) : Z := (p + off) mod 2 ^ 64.

Module OffsetCalculator.

(** [OffsetCalculator<NARGS, uint32_t>]: [sizes_] has [MAX_DIMS] entries,
    [strides_] is [MAX_DIMS] rows of [NARGS] entries. *)
Record t := mk {
  dims_ : Z;
  sizes_ : list Z;
  strides_ : list (list Z);
}.

(** The constructor.  [sizes] is an [int64_t] array, [strides] holds one
    [int64_t] array per operand; storing into [index_t] truncates. *)
Definition fill_dim (NARGS : nat) (dims : Z) (sizes : list Z)
    (strides : list (list Z)) (i : Z) : result (Z * list Z) :=
  let* size := (if decide (i < dims) then index sizes i else Ok 1) in
  let* row :=
    for_loop 0 NARGS
      (fun arg row =>
         let* s := (if decide (i < dims)
                    then let* sa := index strides arg in index sa i
                    else Ok 0) in
         Ok (row ++ [wrap_u32 s]))
      [] in
  Ok (wrap_u32 size, row).

Definition make (NARGS : nat) (dims : Z) (sizes : list Z)
    (strides : list (list Z)) : result t :=
  if decide (dims > MAX_DIMS)
  then Raise (LogError "tensor has too many (>{}) dims_" [MAX_DIMS])
  else
    let* filled :=
      for_range MAX_DIMS
        (fun i acc =>
           let* sr := fill_dim NARGS dims sizes strides i in
           Ok (acc ++ [sr]))
        [] in
    Ok (mk dims (fst <$> filled) (snd <$> filled)).

(** One round of the inner loop: [offsets[arg] += mod * strides_[dim][arg]]
    for [arg] in [0, NARGS). *)
Definition accumulate (NARGS : nat) (mod_ : Z) (row : list Z)
    (offsets : list Z) : result (list Z) :=
  for_loop 0 NARGS
    (fun arg offs =>
       let* o := index offs arg in
       let* s := index row arg in
       store offs arg (wrap_u32 (o + wrap_u32 (mod_ * s))))
    offsets.

(** The body of the loop over [dim]; the state is [linear_idx], the
    offsets and whether [break] was taken. *)
Definition get_step (NARGS : nat) (oc : t) (dim : Z)
    (st : Z * list Z * bool) : result (Z * list Z * bool) :=
  let '(linear_idx, offsets, broken) := st in
  if broken then Ok st
  else if decide (dim = dims_ oc) then Ok (linear_idx, offsets, true)
  else
    let* size := index (sizes_ oc) dim in
    let* mod_ := mod_u32 linear_idx size in
    let* linear_idx' := div_u32 linear_idx size in
    let* row := index (strides_ oc) dim in
    let* offsets' := accumulate NARGS mod_ row offsets in
    Ok (linear_idx', offsets', false).

Definition get (NARGS : nat) (oc : t) (linear_idx : Z) : result (list Z) :=
  let* st := for_range MAX_DIMS (get_step NARGS oc)
               (linear_idx, replicate NARGS 0, false) in
  Ok (st.1.2).

End OffsetCalculator.

(** A [Tensor] as the code below observes it: [GetDataPtr()],
    [DtypeUtil::ByteSize(GetDtype())], [GetShape(i)] and [GetStride(i)];
    [NumDims()] is the number of entries of the shape.  Tensor.h is not
    part of the sources at hand. *)
Module Tensor.

Record t := mk {
  data_ptr : Z;
  byte_size : Z;
  shape : list Z;
  strides : list Z;
}.

Definition NumDims (tn : t) : Z := Z.of_nat (length (shape tn)).

End Tensor.

Module TensorRef.

(** [shape_] and [byte_strides_] are arrays of [MAX_DIMS] entries; only
    the first [ndims_] are meaningful. *)
Record t := mk {
  data_ptr_ : Z;
  ndims_ : Z;
  dtype_byte_size_ : Z;
  shape_ : list Z;
  byte_strides_ : list Z;
}.

(** What the constructor [TensorRef(const Tensor&)] guarantees. *)
Definition wf (r : t) : Prop :=
  0 ≤ ndims_ r ≤ MAX_DIMS
  ∧ Z.of_nat (length (shape_ r)) = MAX_DIMS
  ∧ Z.of_nat (length (byte_strides_ r)) = MAX_DIMS.

(** What the declaration alone guarantees: both arrays have [MAX_DIMS]
    entries. *)
Definition sized (r : t) : Prop :=
  Z.of_nat (length (shape_ r)) = MAX_DIMS
  ∧ Z.of_nat (length (byte_strides_ r)) = MAX_DIMS.

Section Permute.

(** [shape_util::WrapDim(dim, max_dim)] is declared in ShapeUtil.h, which
    is not part of the sources at hand: it is a parameter here. *)
Variable WrapDim : Z → Z → result Z.

(** [seen_dims[dim] = true] for every [dim] of [dims]:
    [std::vector<bool>::operator[]] does not check its index. *)
Definition mark_seen (dims : list Z) (seen_dims : list bool)
  : result (list bool) :=
  for_each dims (fun dim seen => store seen dim true) seen_dims.

(** The first loop over [i]: gathers the new shape and strides. *)
Definition gather (r : t) (dims : list Z)
  : result (list Z * list Z) :=
  for_range (ndims_ r)
    (fun i '(new_shape, new_byte_strides) =>
       let* d := index dims i in
       let* old_dim := WrapDim d (ndims_ r) in
       let* sh := index (shape_ r) old_dim in
       let* st := index (byte_strides_ r) old_dim in
       let* new_shape' := store new_shape i sh in
       let* new_byte_strides' := store new_byte_strides i st in
       Ok (new_shape', new_byte_strides'))
    (replicate (Z.to_nat (ndims_ r)) 0, replicate (Z.to_nat (ndims_ r)) 0).

(** The second loop over [i]: writes them back. *)
Definition write_back (r : t) (new_shape new_byte_strides : list Z)
  : result (list Z * list Z) :=
  for_range (ndims_ r)
    (fun i '(shape, byte_strides) =>
       let* sh := index new_shape i in
       let* shape' := store shape i sh in
       let* st := index new_byte_strides i in
       let* byte_strides' := store byte_strides i st in
       Ok (shape', byte_strides'))
    (shape_ r, byte_strides_ r).

Definition Permute (r : t) (dims : list Z) : result t :=
  if decide (Z.of_nat (length dims) ≠ ndims_ r)
  then Raise (LogError "Number of dimensions mismatch {} != {}."
                [Z.of_nat (length dims); ndims_ r])
  else
    let* seen_dims :=
      mark_seen dims (replicate (Z.to_nat (ndims_ r)) false) in
    if negb (forallb (fun seen => seen) seen_dims)
    then Raise (LogError "Permute dims must be a permuntation from 0 to {}."
                  [Z.of_nat (length dims) - 1])
    else
      let* (new_shape, new_byte_strides) := gather r dims in
      let* (shape, byte_strides) :=
        write_back r new_shape new_byte_strides in
      Ok (mk (data_ptr_ r) (ndims_ r) (dtype_byte_size_ r)
            shape byte_strides).

End Permute.

(** [TensorRef(const Tensor& t)].  The constructor does not initialise
    [shape_] and [byte_strides_]; [uninit_shape] and [uninit_strides] are
    what the two arrays hold before the loop writes the first [ndims_]
    entries. *)
Definition of_Tensor (uninit_shape uninit_strides : list Z) (tn : Tensor.t)
  : result t :=
  if decide (Tensor.NumDims tn > MAX_DIMS)
  then Raise (LogError "Tenor has too many dimensions {} > {}."
                [Tensor.NumDims tn; MAX_DIMS])
  else
    let ndims := Tensor.NumDims tn in
    let dtype_byte_size := Tensor.byte_size tn in
    let* (shape, byte_strides) :=
      for_range ndims
        (fun i '(shape, byte_strides) =>
           let* sh := index (Tensor.shape tn) i in
           let* shape' := store shape i sh in
           let* st := index (Tensor.strides tn) i in
           let* byte_strides' :=
             store byte_strides i (wrap_i64 (st * dtype_byte_size)) in
           Ok (shape', byte_strides'))
        (uninit_shape, uninit_strides) in
    Ok (mk (Tensor.data_ptr tn) ndims dtype_byte_size shape byte_strides).

(** [TensorRef()]. *)
Definition default (uninit_shape uninit_strides : list Z) : t :=
  mk nullptr 0 0 uninit_shape uninit_strides.

(** One round of the loop of [operator==]; [rc && ...] does not evaluate
    its right operand once [rc] is false. *)
Definition equal_step (r other : t) (i : Z) (rc : bool) : result bool :=
  let* rc :=
    (if rc
     then let* a := index (shape_ r) i in
          let* b := index (shape_ other) i in
          Ok (bool_decide (a = b))
     else Ok false) in
  if rc
  then let* a := index (byte_strides_ r) i in
       let* b := index (byte_strides_ other) i in
       Ok (bool_decide (a = b))
  else Ok false.

(** [operator==]. *)
Definition equal (r other : t) : result bool :=
  let rc := true in
  let rc := rc && bool_decide (data_ptr_ r = data_ptr_ other) in
  let rc := rc && bool_decide (ndims_ r = ndims_ other) in
  let rc := rc && bool_decide (dtype_byte_size_ r = dtype_byte_size_ other) in
  for_range (ndims_ r) (equal_step r other) rc.

(** [operator!=]. *)
Definition not_equal (r other : t) : result bool :=
  let* b := equal r other in Ok (negb b).

End TensorRef.

Module TensorIterator.

Record t := mk {
  input_ : TensorRef.t;
  ndims_ : Z;
}.

(** [TensorIterator(const Tensor& tensor)]. *)
Definition make (uninit_shape uninit_strides : list Z) (tensor : Tensor.t)
  : result t :=
  let* input := TensorRef.of_Tensor uninit_shape uninit_strides tensor in
  Ok (mk input (Tensor.NumDims tensor)).

Definition NumWorkloads (it : t) : result Z :=
  for_range (ndims_ it)
    (fun i num_workloads =>
       let* sh := index (TensorRef.shape_ (input_ it)) i in
       Ok (wrap_i64 (num_workloads * sh)))
    1.

(** One round of the loop of [GetPtr]; the state is
    [(offset, workload_idx)]. *)
Definition ptr_step (it : t) (i : Z) (st : Z * Z) : result (Z * Z) :=
  let '(offset, workload_idx) := st in
  let* bs := index (TensorRef.byte_strides_ (input_ it)) i in
  let* q := div_i64 workload_idx bs in
  let* workload_idx' := rem_i64 workload_idx bs in
  Ok (wrap_i64 (offset + wrap_i64 (q * bs)), workload_idx').

Definition GetPtr (it : t) (workload_idx : Z) : result Z :=
  if decide (workload_idx < 0) then Ok nullptr
  else
    let* num_workloads := NumWorkloads it in
    if decide (workload_idx >= num_workloads) then Ok nullptr
    else
      let workload_idx :=
        wrap_i64 (workload_idx * TensorRef.dtype_byte_size_ (input_ it)) in
      let* st := for_range (ndims_ it) (ptr_step it) (0, workload_idx) in
      Ok (ptr_add (TensorRef.data_ptr_ (input_ it)) st.1).

End TensorIterator.

Module Indexer.

Record t := mk {
  num_inputs_ : Z;
  num_outputs_ : Z;
  inputs_ : list TensorRef.t;     (* MAX_INPUTS entries *)
  outputs_ : list TensorRef.t;    (* MAX_OUTPUTS entries *)
  master_shape_ : list Z;         (* MAX_DIMS entries *)
  master_strides_ : list Z;       (* MAX_DIMS entries *)
  ndims_ : Z;
  final_output_ : bool;
  accumulate_ : bool;
}.

(** The sizes of the member arrays, and [ndims_] within them. *)
Definition wf (ix : t) : Prop :=
  0 ≤ ndims_ ix ≤ MAX_DIMS
  ∧ Z.of_nat (length (inputs_ ix)) = MAX_INPUTS
  ∧ Z.of_nat (length (outputs_ ix)) = MAX_OUTPUTS
  ∧ Z.of_nat (length (master_shape_ ix)) = MAX_DIMS
  ∧ Z.of_nat (length (master_strides_ ix)) = MAX_DIMS
  ∧ Forall TensorRef.sized (inputs_ ix)
  ∧ Forall TensorRef.sized (outputs_ ix).

Definition NumInputs (ix : t) : Z := num_inputs_ ix.
Definition NumOutputs (ix : t) : Z := num_outputs_ ix.

Definition GetInput (ix : t) (i : Z) : result TensorRef.t :=
  if decide (i >= num_inputs_ ix ∨ i < 0)
  then Raise (LogError "0 <= i < {} required, however, i = {}."
                [num_inputs_ ix; i])
  else index (inputs_ ix) i.

Definition GetOutput (ix : t) (i : Z) : result TensorRef.t :=
  if decide (i >= num_outputs_ ix ∨ i < 0)
  then Raise (LogError "0 <= i < {} required, however, i = {}."
                [num_outputs_ ix; i])
  else index (outputs_ ix) i.

Definition IsReductionDim (ix : t) (dim : Z) : result bool :=
  let* out0 := index (outputs_ ix) 0 in
  let* bs := index (TensorRef.byte_strides_ out0) dim in
  if decide (bs = 0)
  then let* ms := index (master_shape_ ix) dim in
       Ok (bool_decide (ms > 1))
  else Ok false.

(** One round of the loop of [GetWorkloadDataPtr]; the state is
    [(offset, workload_idx)]. *)
Definition workload_step (ix : t) (tr : TensorRef.t) (i : Z)
    (st : Z * Z) : result (Z * Z) :=
  let '(offset, workload_idx) := st in
  let* ms := index (master_strides_ ix) i in
  let* bs := index (TensorRef.byte_strides_ tr) i in
  let* q := div_i64 workload_idx ms in
  let* workload_idx' := rem_i64 workload_idx ms in
  Ok (wrap_i64 (offset + wrap_i64 (q * bs)), workload_idx').

Definition GetWorkloadDataPtr (ix : t) (tr : TensorRef.t) (workload_idx : Z)
  : result Z :=
  if decide (workload_idx < 0) then Ok nullptr
  else
    let* st := for_range (ndims_ ix) (workload_step ix tr) (0, workload_idx) in
    Ok (ptr_add (TensorRef.data_ptr_ tr) st.1).

Definition GetInputPtr (ix : t) (input_idx workload_idx : Z) : result Z :=
  if decide (input_idx < 0 ∨ input_idx >= num_inputs_ ix) then Ok nullptr
  else
    let* tr := index (inputs_ ix) input_idx in
    GetWorkloadDataPtr ix tr workload_idx.

(** [GetOutputPtr(workload_idx)]. *)
Definition GetOutputPtr (ix : t) (workload_idx : Z) : result Z :=
  let* tr := index (outputs_ ix) 0 in
  GetWorkloadDataPtr ix tr workload_idx.

(** [GetOutputPtr(output_idx, workload_idx)]. *)
Definition GetOutputPtr_at (ix : t) (output_idx workload_idx : Z)
  : result Z :=
  let* tr := index (outputs_ ix) output_idx in
  GetWorkloadDataPtr ix tr workload_idx.

(** The coordinates [workload_idx / master_strides_[i]] that the loop of
    [GetWorkloadDataPtr] decodes, axis by axis. *)
Definition coords_step (ix : t) (i : Z) (st : list Z * Z)
  : result (list Z * Z) :=
  let '(cs, workload_idx) := st in
  let* ms := index (master_strides_ ix) i in
  let* q := div_i64 workload_idx ms in
  let* workload_idx' := rem_i64 workload_idx ms in
  Ok (cs ++ [q], workload_idx').

Definition workload_coords (ix : t) (workload_idx : Z) : result (list Z) :=
  let* st := for_range (ndims_ ix) (coords_step ix) ([], workload_idx) in
  Ok st.1.

(** [GetOutput()], the accessor without an index. *)
Definition GetOutput_single (ix : t) : result TensorRef.t :=
  if decide (num_outputs_ ix > 1)
  then Raise (LogError "num_outputs_ == {} > 0, use GetOutput(i)"
                [num_outputs_ ix])
  else GetOutput ix 0.

(** [GetWorkload2DIdx(workload_idx, x, y)]; returns [(x, y)].  The
    [assert(ndims_ >= 2)] either aborts or, compiled out, lets
    [master_strides_[ndims_ - 2]] be read before the array: undefined either
    way. *)
Definition GetWorkload2DIdx (ix : t) (workload_idx : Z) : result (Z * Z) :=
  if decide (ndims_ ix >= 2)
  then
    let* ms := index (master_strides_ ix) (ndims_ ix - 2) in
    let* y := div_i64 workload_idx ms in
    let* x := rem_i64 workload_idx ms in
    Ok (x, y)
  else Undefined.

End Indexer.

(** A [SparseTensorList] as [SparseIndexer] observes it
    (SparseTensorList.h is not part of the sources at hand):
    [byte_size] is [DtypeUtil::ByteSize(dtype_)]. *)
Module SparseTensorList.

Record t := mk {
  byte_size : Z;
  ndims_ : Z;
  element_shape_ : list Z;
  interleaved_ : bool;
  ptrs_ : list Z;
  size_ : Z;
}.

End SparseTensorList.

Module SparseIndexer.

Record t := mk {
  sparse_tl_ : SparseTensorList.t;
  ndims_ : Z;
  tl_elem_size_ : Z;
  tl_byte_size_ : Z;
  tl_strides_ : list Z;            (* MAX_DIMS entries *)
  input_byte_size_ : Z;
  inputs_ : list TensorRef.t;      (* MAX_DIMS entries *)
}.

(** One round of the loop of lines 654-660, which runs [i] from
    [ndims_ - 1] down to 0; the state is [(tl_strides_, stride)]. *)
Definition strides_step (sparse_tl : SparseTensorList.t) (i : Z)
    (st : list Z * Z) : result (list Z * Z) :=
  let '(tl_strides, stride) := st in
  let* tl_strides' := store tl_strides i stride in
  let* e := index (SparseTensorList.element_shape_ sparse_tl) i in
  Ok (tl_strides',
      if decide (e > 1) then wrap_i64 (stride * e) else stride).

(** Lines 653-661: the final [(tl_strides_, tl_elem_size_)]. *)
Definition compute_strides (uninit : list Z)
    (sparse_tl : SparseTensorList.t) : result (list Z * Z) :=
  for_each (reverse (seqZ 0 (SparseTensorList.ndims_ sparse_tl)))
    (strides_step sparse_tl) (uninit, 1).

(** The constructor.  [uninit] is what an uninitialised array of
    [MAX_DIMS] integers holds; the [LogInfo] call only reads
    [tl_strides_[0..2]]. *)
Definition make (uninit : list Z) (sparse_tl : SparseTensorList.t)
    (input_tensors : list Tensor.t) : result t :=
  let tl_byte_size := SparseTensorList.byte_size sparse_tl in
  let ndims := SparseTensorList.ndims_ sparse_tl in
  let* (tl_strides, tl_elem_size) := compute_strides uninit sparse_tl in
  let* t0 := index input_tensors 0 in
  let input_byte_size := Tensor.byte_size t0 in
  let* inputs :=
    for_range (Z.of_nat (length input_tensors))
      (fun i inputs =>
         let* tn := index input_tensors i in
         let* r := TensorRef.of_Tensor uninit uninit tn in
         store inputs i r)
      (replicate (Z.to_nat MAX_DIMS) (TensorRef.default uninit uninit)) in
  Ok (mk sparse_tl ndims tl_elem_size tl_byte_size tl_strides input_byte_size
        inputs).

(** Returns [(key_idx, value_offset_idx)]. *)
Definition GetSparseWorkloadIdx (si : t) (workload_idx : Z)
  : result (Z * Z) :=
  let* key_idx := div_i64 workload_idx (tl_elem_size_ si) in
  let* value_offset_idx := rem_i64 workload_idx (tl_elem_size_ si) in
  Ok (key_idx, value_offset_idx).

(** Returns [(x, y, z)]. *)
Definition GetWorkloadValue3DIdx (si : t) (value_offset_idx : Z)
  : result (Z * Z * Z) :=
  let* s3 := index (tl_strides_ si) (ndims_ si - 3) in
  let* z := div_i64 value_offset_idx s3 in
  let* r := rem_i64 value_offset_idx s3 in
  let* s2 := index (tl_strides_ si) (ndims_ si - 2) in
  let* y := div_i64 r s2 in
  let* x := rem_i64 value_offset_idx s2 in
  Ok (x, y, z).

Definition GetWorkloadKeyPtr (si : t) (key_idx : Z) : result Z :=
  if SparseTensorList.interleaved_ (sparse_tl_ si)
  then index (SparseTensorList.ptrs_ (sparse_tl_ si))
         (wrap_i64 (wrap_i64 (key_idx * 2) + 0))
  else index (SparseTensorList.ptrs_ (sparse_tl_ si)) key_idx.

Definition GetWorkloadValuePtr (si : t) (key_idx value_offset_idx : Z)
  : result Z :=
  let* base :=
    (if SparseTensorList.interleaved_ (sparse_tl_ si)
     then index (SparseTensorList.ptrs_ (sparse_tl_ si))
            (wrap_i64 (wrap_i64 (key_idx * 2) + 1))
     else index (SparseTensorList.ptrs_ (sparse_tl_ si))
            (wrap_i64 (SparseTensorList.size_ (sparse_tl_ si) + key_idx))) in
  Ok (ptr_add base (wrap_i64 (value_offset_idx * tl_byte_size_ si))).

(** The operands of [||] are evaluated left to right, up to the first
    that holds. *)
Definition GetInputPtrFrom2D (si : t) (tensor_idx u v : Z) : result Z :=
  let* tr := index (inputs_ si) tensor_idx in
  let ndims := TensorRef.ndims_ tr in
  if decide (u < 0) then Ok nullptr
  else if decide (v < 0) then Ok nullptr
  else
    let* rows := index (TensorRef.shape_ tr) (ndims - 2) in
    if decide (v >= rows) then Ok nullptr
    else
      let* cols := index (TensorRef.shape_ tr) (ndims - 1) in
      if decide (u >= cols) then Ok nullptr
      else
        let* bs2 := index (TensorRef.byte_strides_ tr) (ndims - 2) in
        let* bs1 := index (TensorRef.byte_strides_ tr) (ndims - 1) in
        let offset := wrap_i64 (wrap_i64 (v * bs2) + wrap_i64 (u * bs1)) in
        Ok (ptr_add (TensorRef.data_ptr_ tr) offset).

Definition NumWorkloads (si : t) : Z :=
  wrap_i64 (SparseTensorList.size_ (sparse_tl_ si) * tl_elem_size_ si).

End SparseIndexer.

(** ** PointCloudImpl.h *)

Module pointcloud.

Local Open Scope float_scope.

Definition vec3 : Type := float * float * float.

(** [static_cast<double>(n)] for an [int64_t] [n]: round to nearest even. *)
Definition of_int64 (n : Z) : float :=
  SF2Prim (binary_normalize prec emax n 0 false).

(** [#define O3D_MAX(a, b) a > b ? a : b], used on two variables. *)
Definition O3D_MAX (a b : float) : float := if b <? a then a else b.

(** One round of the loop of [EstimatePointWiseCovariance]. *)
Definition cumulants_step (points_ptr : list float) (indices_ptr : list Z)
    (i : Z) (cumulants : list float) : result (list float) :=
  let* idx := index indices_ptr i in
  let* p0 := index points_ptr idx in
  let* p1 := index points_ptr (idx + 1)%Z in
  let* p2 := index points_ptr (idx + 2)%Z in
  match cumulants with
  | [c0; c1; c2; c3; c4; c5; c6; c7; c8] =>
      Ok [c0 + p0; c1 + p1; c2 + p2;
          c3 + p0 * p0; c4 + p0 * p1; c5 + p0 * p2;
          c6 + p1 * p1; c7 + p1 * p2; c8 + p2 * p2]
  | _ => Undefined
  end.

(** Returns the nine values written to [covariance_ptr]. *)
Definition EstimatePointWiseCovariance (points_ptr : list float)
    (indices_ptr : list Z) (indices_size : Z) : result (list float) :=
  let* cumulants :=
    for_range indices_size (cumulants_step points_ptr indices_ptr)
      (replicate 9 0) in
  let num_indices := of_int64 indices_size in
  match (fun c => c / num_indices) <$> cumulants with
  | [c0; c1; c2; c3; c4; c5; c6; c7; c8] =>
      let cov0 := c3 - c0 * c0 in
      let cov1 := c6 - c1 * c1 in
      let cov2 := c8 - c2 * c2 in
      let cov3 := c4 - c0 * c1 in
      let cov4 := cov1 in
      let cov5 := c5 - c0 * c2 in
      let cov6 := cov2 in
      let cov7 := c7 - c1 * c2 in
      let cov8 := cov5 in
      Ok [cov0; cov1; cov2; cov3; cov4; cov5; cov6; cov7; cov8]
  | _ => Undefined
  end.

Definition cross (u v : vec3) : vec3 :=
  let '(u0, u1, u2) := u in
  let '(v0, v1, v2) := v in
  (u1 * v2 - u2 * v1, u2 * v0 - u0 * v2, u0 * v1 - u1 * v0).

Definition norm2 (u : vec3) : float :=
  let '(u0, u1, u2) := u in u0 * u0 + u1 * u1 + u2 * u2.

Definition ComputeEigenvector0 (A : list float) (eval0 : float)
  : result vec3 :=
  match A with
  | a0 :: a1 :: a2 :: _ :: a4 :: a5 :: _ :: _ :: a8 :: _ =>
      let row0 := (a0 - eval0, a1, a2) in
      let row1 := (a1, a4 - eval0, a5) in
      let row2 := (a2, a5, a8 - eval0) in
      let r0xr1 := cross row0 row1 in
      let r0xr2 := cross row0 row2 in
      let r1xr2 := cross row1 row2 in
      let d0 := norm2 r0xr1 in
      let d1 := norm2 r0xr2 in
      let d2 := norm2 r1xr2 in
      let '(dmax, imax) := if d0 <? d1 then (d1, 1%Z) else (d0, 0%Z) in
      let imax := if dmax <? d2 then 2%Z else imax in
      let pick (r : vec3) (d : float) : vec3 :=
        let sqrt_d := sqrt d in
        let '(r0, r1, r2) := r in (r0 / sqrt_d, r1 / sqrt_d, r2 / sqrt_d) in
      if decide (imax = 0%Z) then Ok (pick r0xr1 d0)
      else if decide (imax = 1%Z) then Ok (pick r0xr2 d1)
      else Ok (pick r1xr2 d2)
  | _ => Undefined
  end.

Definition ComputeEigenvector1 (A : list float) (evec0 : vec3)
    (eval1 : float) : result vec3 :=
  match A with
  | a0 :: a1 :: a2 :: _ :: a4 :: a5 :: _ :: _ :: a8 :: _ =>
      let '(e0, e1, e2) := evec0 in
      let U : vec3 :=
        if abs e1 <? abs e0
        then let inv_length := 1 / sqrt (e0 * e0 + e2 * e2) in
             (- e2 * inv_length, 0, e0 * inv_length)
        else let inv_length := 1 / sqrt (e1 * e1 + e2 * e2) in
             (0, e2 * inv_length, - e1 * inv_length) in
      let '(U0, U1, U2) := U in
      let V := cross evec0 U in
      let '(V0, V1, V2) := V in
      let AU0 := a0 * U0 + a1 * U1 + a2 * U2 in
      let AU1 := a1 * U0 + a4 * U1 + a5 * U2 in
      let AU2 := a2 * U0 + a5 * U1 + a8 * U2 in
      let AV0 := a0 * V0 + a1 * V1 + a2 * V2 in
      let AV1 := a1 * V0 + a4 * V1 + a5 * V2 in
      let AV2 := a2 * V0 + a5 * V1 + a8 * V2 in
      let m00 := U0 * AU0 + U1 * AU1 + U2 * AU2 - eval1 in
      let m01 := U0 * AV0 + U1 * AV1 + U2 * AV2 in
      let m11 := V0 * AV0 + V1 * AV1 + V2 * AV2 - eval1 in
      let absM00 := abs m00 in
      let absM01 := abs m01 in
      let absM11 := abs m11 in
      if absM11 <=? absM00 then
        let max_abs_comp := O3D_MAX absM00 absM01 in
        if 0 <? max_abs_comp then
          let '(m00, m01) :=
            if absM01 <=? absM00
            then let m01 := m01 / m00 in
                 let m00 := 1 / sqrt (1 + m01 * m01) in
                 let m01 := m01 * m00 in
                 (m00, m01)
            else let m00 := m00 / m01 in
                 let m01 := 1 / sqrt (1 + m00 * m00) in
                 let m00 := m00 * m01 in
                 (m00, m01) in
          Ok (m01 * U0 - m00 * V0, m01 * U1 - m00 * V1, m01 * U2 - m00 * V2)
        else Ok U
      else
        let max_abs_comp := O3D_MAX absM11 absM01 in
        if 0 <? max_abs_comp then
          let '(m11, m01) :=
            if absM01 <=? absM11
            then let m01 := m01 / m11 in
                 let m11 := 1 / sqrt (1 + m01 * m01) in
                 let m01 := m01 * m11 in
                 (m11, m01)
            else let m11 := m11 / m01 in
                 let m01 := 1 / sqrt (1 + m11 * m11) in
                 let m11 := m11 * m01 in
                 (m11, m01) in
          Ok (m11 * U0 - m01 * V0, m11 * U1 - m01 * V1, m11 * U2 - m01 * V2)
        else Ok U
  | _ => Undefined
  end.

(** The loop of lines 344-349: the variable is called [max_coeff], and
    the comparison [max_coeff > covariance_ptr[i]] keeps the smaller
    value. *)
Definition max_coeff_of (c0 : float) (rest : list float) : float :=
  fold_left (fun max_coeff c => if c <? max_coeff then c else max_coeff)
    rest c0.

(** *** The macros [O3D_MIN] and [O3D_MAX]

    The preprocessor works on tokens and the parser then groups them; both
    steps are written out for the one expression where it matters. *)

Inductive token :=
| TId (x : string) | TNum (v : float)
| TMinus | TLt | TGt | TQuestion | TColon | TLParen | TRParen.

(** [#define O3D_MIN(a, b) a < b ? a : b] and
    [#define O3D_MAX(a, b) a > b ? a : b]: the tokens of the arguments
    replace [a] and [b] as they are. *)
Definition O3D_MIN_tokens (a b : list token) : list token :=
  a ++ [TLt] ++ b ++ [TQuestion] ++ a ++ [TColon] ++ b.
Definition O3D_MAX_tokens (a b : list token) : list token :=
  a ++ [TGt] ++ b ++ [TQuestion] ++ a ++ [TColon] ++ b.

(** The tokens of [O3D_MIN(O3D_MAX(half_det, -1.0), 1.0)] after expansion. *)
Definition half_det_clamp_tokens : list token :=
  O3D_MIN_tokens (O3D_MAX_tokens [TId "half_det"] [TMinus; TNum 1]) [TNum 1].

Inductive cexpr :=
| EVar (x : string) | ENum (v : float) | ENeg (e : cexpr)
| ELt (a b : cexpr) | EGt (a b : cexpr)
| ECond (c t e : cexpr).

(** The C grammar of these tokens:
    conditional := relational [ '?' conditional ':' conditional ];
    relational := unary [ ('<' | '>') unary ];
    unary := '-' primary | primary;
    primary := identifier | number | '(' conditional ')'. *)
Fixpoint parse_conditional (fuel : nat) (ts : list token)
  : option (cexpr * list token) :=
  match fuel with
  | O => None
  | S fuel =>
      let primary ts :=
        match ts with
        | TId x :: ts => Some (EVar x, ts)
        | TNum v :: ts => Some (ENum v, ts)
        | TLParen :: ts =>
            match parse_conditional fuel ts with
            | Some (e, TRParen :: ts) => Some (e, ts)
            | _ => None
            end
        | _ => None
        end in
      let unary ts :=
        match ts with
        | TMinus :: ts =>
            match primary ts with
            | Some (e, ts) => Some (ENeg e, ts)
            | None => None
            end
        | _ => primary ts
        end in
      let relational ts :=
        match unary ts with
        | Some (a, TLt :: ts) =>
            match unary ts with
            | Some (b, ts) => Some (ELt a b, ts)
            | None => None
            end
        | Some (a, TGt :: ts) =>
            match unary ts with
            | Some (b, ts) => Some (EGt a b, ts)
            | None => None
            end
        | r => r
        end in
      match relational ts with
      | Some (c, TQuestion :: ts) =>
          match parse_conditional fuel ts with
          | Some (t, TColon :: ts) =>
              match parse_conditional fuel ts with
              | Some (e, ts) => Some (ECond c t e, ts)
              | None => None
              end
          | _ => None
          end
      | r => r
      end
  end.

Definition parse (ts : list token) : option cexpr :=
  match parse_conditional (length ts) ts with
  | Some (e, []) => Some e
  | _ => None
  end.

(** Evaluation on [double]; a comparison yields 1 or 0 and [c ? t : e]
    takes [t] when [c] compares unequal to 0. *)
Fixpoint eval (env : string → float) (e : cexpr) : float :=
  match e with
  | EVar x => env x
  | ENum v => v
  | ENeg e => - eval env e
  | ELt a b => if eval env a <? eval env b then 1 else 0
  | EGt a b => if eval env b <? eval env a then 1 else 0
  | ECond c t e => if eval env c =? 0 then eval env e else eval env t
  end.

(** [half_det = O3D_MIN(O3D_MAX(half_det, -1.0), 1.0)].  With
    [#define O3D_MIN(a, b) a < b ? a : b] and
    [#define O3D_MAX(a, b) a > b ? a : b] the arguments are substituted
    without parentheses, which gives the token sequence
    [half_det > -1.0 ? half_det : -1.0 < 1.0 ? half_det > -1.0 ? half_det : -1.0 : 1.0];
    [?:] binds weaker than [<] and [>] and groups to the right:
    [half_det > -1.0 ? half_det
                     : ((-1.0 < 1.0) ? (half_det > -1.0 ? half_det : -1.0)
                                     : 1.0)]. *)
Definition clamp_half_det (half_det : float) : float :=
  if -1 <? half_det then half_det
  else if -1 <? 1
       then (if -1 <? half_det then half_det else -1)
       else 1.

(** The clamping the macro names announce: [min(max(h, -1), 1)]. *)
Definition clamp_intended (half_det : float) : float :=
  let m := if -1 <? half_det then half_det else -1 in
  if m <? 1 then m else 1.

(** Lines 372-387: [q], [p] and the argument handed to [acos]. *)
Definition trig_prelude (A : list float) (norm : float)
  : result (float * float * float) :=
  match A with
  | a0 :: a1 :: a2 :: _ :: a4 :: a5 :: _ :: _ :: a8 :: _ =>
      let q := (a0 + a4 + a8) / 3 in
      let b00 := a0 - q in
      let b11 := a4 - q in
      let b22 := a8 - q in
      let p := sqrt ((b00 * b00 + b11 * b11 + b22 * b22 + norm * 2) / 6) in
      let c00 := b11 * b22 - a5 * a5 in
      let c01 := a1 * b22 - a5 * a2 in
      let c02 := a1 * a5 - b11 * a2 in
      let det := (b00 * c00 - a1 * c01 + a2 * c02) / (p * p * p) in
      let half_det := det * 0.5 in
      let half_det := clamp_half_det half_det in
      Ok (q, p, half_det)
  | _ => Undefined
  end.

Definition two_thrids_pi : float := 0x1.0c152382d7366p+1.

Section libm.

Variables acos cos : float → float.

(** The branch [norm > 0], lines 367-446. *)
Definition trig_branch (A : list float) (norm : float) : result vec3 :=
  let* (q, p, half_det) := trig_prelude A norm in
  let angle := acos half_det / 3 in
  let beta2 := cos angle * 2 in
  let beta0 := cos (angle + two_thrids_pi) * 2 in
  let beta1 := - (beta0 + beta2) in
  let eval0 := q + p * beta0 in
  let eval1 := q + p * beta1 in
  let eval2 := q + p * beta2 in
  if 0 <=? half_det then
    let* evec2 := ComputeEigenvector0 A eval2 in
    if (eval2 <? eval0) && (eval2 <? eval1) then Ok evec2
    else
      let* evec1 := ComputeEigenvector1 A evec2 eval1 in
      if (eval1 <? eval0) && (eval1 <? eval2) then Ok evec1
      else Ok (cross evec1 evec2)
  else
    let* evec0 := ComputeEigenvector0 A eval0 in
    if (eval0 <? eval1) && (eval0 <? eval2) then Ok evec0
    else
      let* evec1 := ComputeEigenvector1 A evec0 eval1 in
      if (eval1 <? eval0) && (eval1 <? eval2) then Ok evec1
      else Ok (cross evec0 evec1).

(** The branch [!(norm > 0)], lines 448-465. *)
Definition diagonal_branch (c0 c4 c8 : float) : vec3 :=
  if (c0 <? c4) && (c0 <? c8) then (1, 0, 0)
  else if (c0 <? c4) && (c0 <? c8) then (0, 1, 0)
  else (0, 0, 1).

(** Returns the three values written to [normals_ptr]. *)
Definition EstimatePointWiseNormalsWithFastEigen3x3
    (covariance_ptr : list float) : result vec3 :=
  match covariance_ptr with
  | c0 :: c1 :: c2 :: c3 :: c4 :: c5 :: c6 :: c7 :: c8 :: _ =>
      let max_coeff := max_coeff_of c0 [c1; c2; c3; c4; c5; c6; c7; c8] in
      if max_coeff =? 0 then Ok (0, 0, 0)
      else
        let A := (fun c => c / max_coeff)
                   <$> [c0; c1; c2; c3; c4; c5; c6; c7; c8] in
        match A with
        | _ :: a1 :: a2 :: _ :: _ :: a5 :: _ =>
            let norm := a1 * a1 + a2 * a2 + a5 * a5 in
            if 0 <? norm then trig_branch A norm
            else Ok (diagonal_branch c0 c4 c8)
        | _ => Undefined
        end
  | _ => Undefined
  end.

(** The value handed to [acos], when the call reaches it. *)
Definition acos_argument (covariance_ptr : list float)
  : result (option float) :=
  match covariance_ptr with
  | c0 :: c1 :: c2 :: c3 :: c4 :: c5 :: c6 :: c7 :: c8 :: _ =>
      let max_coeff := max_coeff_of c0 [c1; c2; c3; c4; c5; c6; c7; c8] in
      if max_coeff =? 0 then Ok None
      else
        let A := (fun c => c / max_coeff)
                   <$> [c0; c1; c2; c3; c4; c5; c6; c7; c8] in
        match A with
        | _ :: a1 :: a2 :: _ :: _ :: a5 :: _ =>
            let norm := a1 * a1 + a2 * a2 + a5 * a5 in
            if 0 <? norm
            then let* (_, _, half_det) := trig_prelude A norm in
                 Ok (Some half_det)
            else Ok None
        | _ => Undefined
        end
  | _ => Undefined
  end.

End libm.

(** *** UnprojectCPU *)

Local Open Scope Z_scope.

(** A two-dimensional image as [NDArrayIndexer(t, 2)] sees it:
    [GetShape(0)] rows, [GetShape(1)] columns, row-major elements.
    GeometryIndexer.h is not part of the sources at hand;
    [GetDataPtr(x, y)] is taken to address element [y * GetShape(1) + x],
    unchecked. *)
Record image (A : Type) := mk_image {
  rows : Z;
  cols : Z;
  data : list A;
}.
Arguments mk_image {A}.
Arguments rows {A}.
Arguments cols {A}.
Arguments data {A}.

Definition GetDataPtr {A} (im : image A) (x y : Z) : result A :=
  index (data im) (wrap_i64 (wrap_i64 (y * cols im) + x)).

(** A [rows x cols] tensor whose element count fits [int64_t]. *)
Definition image_wf {A} (im : image A) : Prop :=
  0 ≤ rows im ∧ 0 ≤ cols im ∧ rows im * cols im < 2 ^ 63
  ∧ Z.of_nat (length (data im)) = rows im * cols im.

(** Modelled from the spec: [Tensor::Slice] is not part of the sources at
    hand; "output buffers are sliced to the final valid count", so
    [t.Slice(0, 0, stop)] keeps the first [stop] rows. *)
Definition Slice {A} (t : list A) (stop : Z) : list A :=
  take (Z.to_nat stop) t.

Section Unproject.

(** [scalar_t] is the depth image's element type, [F] is [float]. *)
Variables scalar_t F : Type.
(** [*ptr / depth_scale], as a [float]. *)
Variable scaled : scalar_t → F → F.
Variable Fzero : F.
(** [a < b] on [float]. *)
Variable Flt : F → F → bool.
(** [ti.Unproject] followed by [ti.RigidTransform], of
    [TransformIndexer] (GeometryIndexer.h): the vertex written for pixel
    [(x, y)] at depth [d]. *)
Variable ti_vertex : Z → Z → F → F * F * F.

(** The output tensors hold one optional row per slot: [None] is a row
    of the freshly allocated tensor that was never written. *)
Definition rows_t : Type := list (option (F * F * F)).

(** The state the work items share: the counter, [points], [colors]. *)
Definition kstate : Type := Z * rows_t * rows_t.

Section kernel.

Variable depth : image scalar_t.
Variable image_colors : option (image (F * F * F)).
Variables depth_scale depth_max : F.
Variables stride cols_strided : Z.

(** The lambda handed to [LaunchGeneralKernel], run atomically. *)
Definition kernel (workload_idx : Z) (st : kstate) : result kstate :=
  let '(count, points, colors) := st in
  let* qy := div_i64 workload_idx cols_strided in
  let* rx := rem_i64 workload_idx cols_strided in
  let y := wrap_i64 (qy * stride) in
  let x := wrap_i64 (rx * stride) in
  let* px := GetDataPtr depth x y in
  let d := scaled px depth_scale in
  if Flt Fzero d && Flt d depth_max then
    (* int idx = OPEN3D_ATOMIC_ADD(count_ptr, 1); *)
    let idx := count in
    let count := wrap_i32 (count + 1) in
    let* points := store points idx (Some (ti_vertex x y d)) in
    match image_colors with
    | Some imcol =>
        let* image_pixel := GetDataPtr imcol x y in
        let* colors := store colors idx (Some image_pixel) in
        Ok (count, points, colors)
    | None => Ok (count, points, colors)
    end
  else Ok st.

End kernel.

(** [launcher.LaunchGeneralKernel(n, f)] runs [f] once on each of the
    [n] work items; [sched] is the order in which they take effect. *)
Definition LaunchGeneralKernel (sched : list Z)
    (f : Z → kstate → result kstate) (st : kstate) : result kstate :=
  for_each sched f st.

(** Returns the final [points] and [colors]. *)
Definition UnprojectCPU (sched : list Z) (depth : image scalar_t)
    (image_colors : option (image (F * F * F)))
    (depth_scale depth_max : F) (stride : Z)
  : result (rows_t * option rows_t) :=
  let* rows_strided := div_i64 (rows depth) stride in
  let* cols_strided := div_i64 (cols depth) stride in
  let n := wrap_i64 (rows_strided * cols_strided) in
  let points : rows_t := replicate (Z.to_nat n) None in
  let have_colors := bool_decide (is_Some image_colors) in
  let colors : rows_t :=
    if have_colors then replicate (Z.to_nat n) None else [] in
  let* (total_pts_count, points, colors) :=
    LaunchGeneralKernel sched
      (kernel depth image_colors depth_scale depth_max stride cols_strided)
      (0, points, colors) in
  let points := Slice points total_pts_count in
  Ok (points,
      if have_colors then Some (Slice colors total_pts_count) else None).

(** The work items of a call: [0 .. n-1]. *)
Definition workloads (depth : image scalar_t) (stride : Z) : list Z :=
  seqZ 0 ((rows depth `quot` stride) * (cols depth `quot` stride)).

(** The pixels on the strided grid, row by row. *)
Definition strided_pixels (depth : image scalar_t) (stride : Z)
  : list (Z * Z) :=
  y ← seqZ 0 (rows depth `quot` stride);
  x ← seqZ 0 (cols depth `quot` stride);
  [(x * stride, y * stride)].

(** Pixel [(x, y)] has a depth which, divided by [depth_scale], lies
    strictly between 0 and [depth_max]. *)
Definition in_range (depth : image scalar_t) (depth_scale depth_max : F)
    (xy : Z * Z) : bool :=
  match data depth !! Z.to_nat (xy.2 * cols depth + xy.1) with
  | Some px =>
      let d := scaled px depth_scale in Flt Fzero d && Flt d depth_max
  | None => false
  end.

(** The vertex written for pixel [(x, y)]. *)
Definition vertex_of (depth : image scalar_t) (depth_scale : F)
    (xy : Z * Z) : option (F * F * F) :=
  px ← data depth !! Z.to_nat (xy.2 * cols depth + xy.1);
  Some (ti_vertex xy.1 xy.2 (scaled px depth_scale)).

(** The pixel work item [w] looks at. *)
Definition pixel_of (depth : image scalar_t) (stride : Z) (w : Z) : Z * Z :=
  ((w `rem` (cols depth `quot` stride)) * stride,
   (w `quot` (cols depth `quot` stride)) * stride).

End Unproject.

Arguments kernel {scalar_t F}.
Arguments LaunchGeneralKernel {F}.
Arguments UnprojectCPU {scalar_t F}.
Arguments workloads {scalar_t}.
Arguments strided_pixels {scalar_t}.
Arguments in_range {scalar_t F}.
Arguments vertex_of {scalar_t F}.
Arguments pixel_of {scalar_t}.

End pointcloud.

(** ** Example inputs *)

(** An instance of the [WrapDim] parameter: the identity on
    [0 <= dim < max_dim], counting from the end for a negative [dim],
    raising outside [-max_dim <= dim < max_dim]. *)
Definition WrapDim_wrapping (dim max_dim : Z) : result Z :=
  if decide (dim < - max_dim ∨ dim > max_dim - 1)
  then Raise (LogError
                "Index out-of-range: dim == {}, but it must satisfy {} <= dim <= {}"
                [dim; - max_dim; max_dim - 1])
  else Ok (if decide (dim < 0) then dim + max_dim else dim).

(** A 2x3 tensor of 4-byte elements and a 2x3x4 one, both contiguous. *)
Definition ref_2x3 : TensorRef.t :=
  TensorRef.mk 4096 2 4 [2; 3; 0; 0; 0; 0; 0; 0; 0; 0]
    [12; 4; 0; 0; 0; 0; 0; 0; 0; 0].
Definition ref_2x3x4 : TensorRef.t :=
  TensorRef.mk 4096 3 4 [2; 3; 4; 7; 7; 7; 7; 7; 7; 7]
    [48; 16; 4; 9; 9; 9; 9; 9; 9; 9].

(** A reduction over axis 0 of a 2x3 input into a 1x3 output. *)
Definition out_1x3 : TensorRef.t :=
  TensorRef.mk 8192 2 4 [1; 3; 0; 0; 0; 0; 0; 0; 0; 0]
    [0; 4; 0; 0; 0; 0; 0; 0; 0; 0].
(** One operand over one axis of extent 3 with a byte stride of 2^31. *)
Definition oc_wide : OffsetCalculator.t :=
  OffsetCalculator.mk 1 [3; 1; 1; 1; 1; 1; 1; 1; 1; 1]
    [[2147483648]; [0]; [0]; [0]; [0]; [0]; [0]; [0]; [0]; [0]].
(** Two operands over a 3x4 iteration space: one contiguous with 4-byte
    elements, one broadcast along axis 1. *)
Definition oc_3x4 : OffsetCalculator.t :=
  OffsetCalculator.mk 2 [3; 4; 1; 1; 1; 1; 1; 1; 1; 1]
    [[4; 8]; [12; 0]; [0; 0]; [0; 0]; [0; 0]; [0; 0]; [0; 0]; [0; 0];
     [0; 0]; [0; 0]].

Definition null_ref : TensorRef.t :=
  TensorRef.mk 0 0 0 (replicate 10 0) (replicate 10 0).
Definition sum_axis0 : Indexer.t :=
  Indexer.mk 1 1
    (ref_2x3 :: replicate 9 null_ref)
    (out_1x3 :: replicate 6 null_ref)
    [2; 3; 0; 0; 0; 0; 0; 0; 0; 0]
    [3; 1; 0; 0; 0; 0; 0; 0; 0; 0]
    2 true false.

(** Covariance buffers: the all-zero matrix, the identity, a diagonal
    matrix whose smallest diagonal entry is entry 4, and [3 I + 5 J] (all
    off-diagonal entries 5, eigenvalues 18, 3, 3). *)
Definition cov_zero : list float := [0; 0; 0; 0; 0; 0; 0; 0; 0]%float.
Definition cov_identity : list float := [1; 0; 0; 0; 1; 0; 0; 0; 1]%float.
Definition cov_diagonal : list float :=
  [-1; 0; 0; 0; -2; 0; 0; 0; -1]%float.
Definition cov_repeated : list float := [8; 5; 5; 5; 8; 5; 5; 5; 8]%float.

(** Two points, (0, 0, 0) and (2, 4, 6), stored one after the other; the
    neighbour list holds the offsets of their first coordinates. *)
Definition two_points : list float := [0; 0; 0; 2; 4; 6]%float.
Definition two_indices : list Z := [0; 3].

(** A 2x2 depth image with depths 5, 0 / 12, 3, and the order 2, 0, 3, 1
    of its four work items. *)
Definition depth_2x2 : pointcloud.image float :=
  pointcloud.mk_image 2 2 [5; 0; 12; 3]%float.
Definition sched_2x2 : list Z := [2; 0; 3; 1].
(** Scaling, comparison and a vertex map for that image, on [double]. *)
Definition scaled_double (px depth_scale : float) : float :=
  (px / depth_scale)%float.
Definition vertex_pinhole (x y : Z) (d : float) : float * float * float :=
  ((pointcloud.of_int64 x * d)%float, (pointcloud.of_int64 y * d)%float, d).

(** A stand-in for [acos] and [cos] on inputs whose call path never
    reaches them. *)
Definition unused_libm (x : float) : float := nan.

(** ** Specification functions *)

(** The covariance of a list of points as the specification words it:
    entry (r, c), row-major, is the mean of the products of coordinates r
    and c minus the product of their means. *)
Definition mean (xs : list float) : float :=
  (fold_left PrimFloat.add xs 0 / pointcloud.of_int64 (Z.of_nat (length xs)))%float.
Definition coord (r : nat) (pt : list float) : float := default 0%float (pt !! r).
Definition cov_entry (pts : list (list float)) (r c : nat) : float :=
  (mean ((λ pt, coord r pt * coord c pt) <$> pts)
   - mean (coord r <$> pts) * mean (coord c <$> pts))%float.
Definition covariance_row_major (pts : list (list float)) : list float :=
  r ← [0; 1; 2]%nat; c ← [0; 1; 2]%nat; [cov_entry pts r c].

(** A vector of Euclidean length 1. *)
Definition is_unit (v : pointcloud.vec3) : bool :=
  (pointcloud.norm2 v =? 1)%float.


(** The shape (or strides) array after permuting by [dims]: entry [i] is
    the old entry [dims[i]]; entries from [length dims] on are untouched. *)
Definition permuted (dims : list Z) (l : list Z) : list Z :=
  ((λ d, default 0 (l !! Z.to_nat d)) <$> dims) ++ drop (length dims) l.

(** The inverse of a permutation [p] of [0 .. n-1]: position of each [i]. *)
Fixpoint position (i : Z) (p : list Z) : Z :=
  match p with
  | [] => 0
  | d :: p' => if decide (d = i) then 0 else 1 + position i p'
  end.
Definition inverse (p : list Z) : list Z :=
  (λ i, position i p) <$> seqZ 0 (Z.of_nat (length p)).

(** The byte offset of a coordinate vector under byte strides [bs], summed
    in [int64_t] the way [GetWorkloadDataPtr] does. *)
Definition offset_of (cs bs : list Z) (off : Z) : Z :=
  foldl (λ off cb, wrap_i64 (off + wrap_i64 (cb.1 * cb.2))) off (zip cs bs).

(** The sum the offset of operand [a] stands for: over the axes
    [d < dims], [((i div (sizes[0] * ... * sizes[d-1])) mod sizes[d])
    * strides[d][a]], in unbounded integers. *)
Definition extent_prefix (sizes : list Z) (d : nat) : Z :=
  foldr Z.mul 1 (take d sizes).
Definition offset_term (oc : OffsetCalculator.t) (a : nat) (i : Z) (d : nat)
  : Z :=
  ((i / extent_prefix (OffsetCalculator.sizes_ oc) d)
     mod default 0 (OffsetCalculator.sizes_ oc !! d))
  * default 0 (default [] (OffsetCalculator.strides_ oc !! d) !! a).
Fixpoint offset_sum_upto (oc : OffsetCalculator.t) (a : nat) (i : Z) (k : nat)
  : Z :=
  match k with
  | O => 0
  | S k' => offset_sum_upto oc a i k' + offset_term oc a i k'
  end.
Definition offset_sum (oc : OffsetCalculator.t) (a : nat) (i : Z) : Z :=
  offset_sum_upto oc a i (Z.to_nat (OffsetCalculator.dims_ oc)).

(** What the constructor stores for axis [i]: the extent and the row of
    per-operand strides, truncated to [uint32_t]; 1 and zeros from [dims]
    on. *)
Definition stored_size (dims : Z) (sizes : list Z) (i : Z) : Z :=
  wrap_u32 (if decide (i < dims) then default 0 (sizes !! Z.to_nat i) else 1).
Definition stored_stride (dims : Z) (strides : list (list Z)) (i arg : Z) : Z :=
  wrap_u32 (if decide (i < dims)
            then default 0 (default [] (strides !! Z.to_nat arg) !! Z.to_nat i)
            else 0).
Definition stored (NARGS : nat) (dims : Z) (sizes : list Z)
    (strides : list (list Z)) : OffsetCalculator.t :=
  OffsetCalculator.mk dims
    (stored_size dims sizes <$> seqZ 0 MAX_DIMS)
    ((λ i, stored_stride dims strides i <$> seqZ 0 (Z.of_nat NARGS))
       <$> seqZ 0 MAX_DIMS).

(** An [OffsetCalculator<NARGS, uint32_t>]: the sizes of its arrays, and
    [uint32_t] values in them. *)
Definition is_u32 (z : Z) : Prop := 0 ≤ z < 2 ^ 32.
Definition oc_wf (NARGS : nat) (oc : OffsetCalculator.t) : Prop :=
  Z.of_nat (length (OffsetCalculator.sizes_ oc)) = MAX_DIMS
  ∧ Z.of_nat (length (OffsetCalculator.strides_ oc)) = MAX_DIMS
  ∧ Forall is_u32 (OffsetCalculator.sizes_ oc)
  ∧ Forall (λ row, length row = NARGS ∧ Forall is_u32 row)
      (OffsetCalculator.strides_ oc).

(** Two references show the same view: the same pointer, rank and element
    size, and the same extents and byte strides on the first [ndims_]
    axes. *)
Definition same_view (r o : TensorRef.t) : Prop :=
  TensorRef.data_ptr_ r = TensorRef.data_ptr_ o
  ∧ TensorRef.ndims_ r = TensorRef.ndims_ o
  ∧ TensorRef.dtype_byte_size_ r = TensorRef.dtype_byte_size_ o
  ∧ take (Z.to_nat (TensorRef.ndims_ r)) (TensorRef.shape_ r)
    = take (Z.to_nat (TensorRef.ndims_ r)) (TensorRef.shape_ o)
  ∧ take (Z.to_nat (TensorRef.ndims_ r)) (TensorRef.byte_strides_ r)
    = take (Z.to_nat (TensorRef.ndims_ r)) (TensorRef.byte_strides_ o).

(** The permutation that lists axis [p[q[i]]] at position [i]. *)
Definition compose_perm (p q : list Z) : list Z :=
  (λ j, default 0 (p !! Z.to_nat j)) <$> q.

(** A contiguous 2x3x4 tensor of 4-byte elements, and two fillings of an
    uninitialised array of [MAX_DIMS] integers. *)
Definition tensor_2x3x4 : Tensor.t := Tensor.mk 4096 4 [2; 3; 4] [12; 4; 1].
Definition junk_a : list Z := [7; 7; 7; 7; 7; 7; 7; 7; 7; 7].
Definition junk_b : list Z := [9; 8; 7; 6; 5; 4; 3; 2; 1; 0].

(** An iterator over the contiguous 2x3x4 reference, one over its
    transpose (axes 2, 0, 1), and one over a 2x0x4 tensor. *)
Definition iter_2x3x4 : TensorIterator.t := TensorIterator.mk ref_2x3x4 3.
Definition iter_transposed : TensorIterator.t :=
  TensorIterator.mk
    (TensorRef.mk 4096 3 4 [4; 2; 3; 7; 7; 7; 7; 7; 7; 7]
       [4; 48; 16; 9; 9; 9; 9; 9; 9; 9]) 3.
Definition iter_empty : TensorIterator.t :=
  TensorIterator.mk
    (TensorRef.mk 4096 3 4 [2; 0; 4; 7; 7; 7; 7; 7; 7; 7]
       [0; 16; 4; 9; 9; 9; 9; 9; 9; 9]) 3.

(** Row-major strides, in elements, of a shape: entry [k] is the product
    of the extents after [k]. *)
Fixpoint suffix_products (shape : list Z) : list Z :=
  match shape with
  | [] => []
  | _ :: shape' => foldr Z.mul 1 shape' :: suffix_products shape'
  end.

(** The linear index that coordinates [cs] stand for under strides [ms]. *)
Definition dot (cs ms : list Z) : Z := foldr Z.add 0 (zip_with Z.mul cs ms).

(** The extents the stride loop of [SparseIndexer] multiplies: an extent
    of 1 or less counts as 1. *)
Definition counted_extents (tl : SparseTensorList.t) : list Z :=
  Z.max 1 <$> take (Z.to_nat (SparseTensorList.ndims_ tl))
                (SparseTensorList.element_shape_ tl).

(** A list of two 4x0x8 blocks of 4-byte elements, stored interleaved, and
    an indexer over 8x8x8 blocks stored keys first. *)
Definition stl_4x0x8 : SparseTensorList.t :=
  SparseTensorList.mk 4 3 [4; 0; 8] true [4096; 8192; 4128; 12288] 2.
Definition stl_8x8x8 : SparseTensorList.t :=
  SparseTensorList.mk 4 3 [8; 8; 8] false [4096; 4128; 8192; 12288] 2.
Definition si_8x8x8 : SparseIndexer.t :=
  SparseIndexer.mk stl_8x8x8 3 512 4 [64; 8; 1; 7; 7; 7; 7; 7; 7; 7] 4
    (replicate 10 (TensorRef.default junk_a junk_b)).

(** What an image holds at pixel [(x, y)]. *)
Definition pixel_value {A} (im : pointcloud.image A) (xy : Z * Z) : option A :=
  pointcloud.data im !! Z.to_nat (xy.2 * pointcloud.cols im + xy.1).

(** Colours for the 2x2 depth image. *)
Definition colors_2x2 : pointcloud.image (float * float * float) :=
  pointcloud.mk_image 2 2
    [(1, 0, 0); (0, 1, 0); (0, 0, 1); (1, 1, 1)]%float.

(** The same indexer with the contiguous 2x3 reference as its first
    input. *)
Definition si_2x3 : SparseIndexer.t :=
  SparseIndexer.mk stl_8x8x8 3 512 4 [64; 8; 1; 7; 7; 7; 7; 7; 7; 7] 4
    (ref_2x3 :: replicate 9 (TensorRef.default junk_a junk_b)).

(** ** Basic facts *)

Lemma bind_Ok {A B} (r : result A) (k : A → result B) (b : B) :
  bind r k = Ok b → ∃ a, r = Ok a ∧ k a = Ok b.
Proof. destruct r as [a| |]; simpl; [eauto | discriminate..]. Qed.

Lemma index_Ok {A} (arr : list A) (i : Z) (v : A) :
  index arr i = Ok v ↔ 0 ≤ i ∧ arr !! Z.to_nat i = Some v.
Proof.
  unfold index. case_decide.
  - split; [discriminate | lia].
  - destruct (arr !! Z.to_nat i) eqn:E; split; intros H0;
      try discriminate; try (injection H0 as ->); intuition (try lia; congruence).
Qed.

Lemma index_of_nat {A} (arr : list A) (i : nat) (v : A) :
  arr !! i = Some v → index arr (Z.of_nat i) = Ok v.
Proof. intros H. apply index_Ok. rewrite Nat2Z.id. split; [lia | done]. Qed.

Lemma store_Ok {A} (arr : list A) (i : Z) (v : A) :
  0 ≤ i < Z.of_nat (length arr) → store arr i v = Ok (<[Z.to_nat i := v]> arr).
Proof. intros H. unfold store. by rewrite decide_True. Qed.

(** Loop invariants. *)
Lemma for_loop_inv {St} (P : Z → St → Prop) (body : Z → St → result St)
    (count : nat) (lo : Z) (s : St) :
  P lo s →
  (∀ i s, lo ≤ i < lo + Z.of_nat count → P i s →
          ∃ s', body i s = Ok s' ∧ P (i + 1) s') →
  ∃ s', for_loop lo count body s = Ok s' ∧ P (lo + Z.of_nat count) s'.
Proof.
  revert lo s. induction count as [|k IH]; intros lo s H0 Hstep.
  - exists s. simpl. by rewrite Z.add_0_r.
  - destruct (Hstep lo s) as (s1 & E1 & H1); [lia | done |].
    destruct (IH (lo + 1) s1) as (s2 & E2 & H2); [done | |].
    + intros i s' Hi. apply Hstep. lia.
    + exists s2. simpl. rewrite E1. simpl. split; [done |].
      by replace (lo + Z.of_nat (S k)) with (lo + 1 + Z.of_nat k) by lia.
Qed.

Lemma for_range_inv {St} (P : Z → St → Prop) (body : Z → St → result St)
    (n : Z) (s : St) :
  0 ≤ n → P 0 s →
  (∀ i s, 0 ≤ i < n → P i s → ∃ s', body i s = Ok s' ∧ P (i + 1) s') →
  ∃ s', for_range n body s = Ok s' ∧ P n s'.
Proof.
  intros Hn H0 Hstep. unfold for_range.
  destruct (for_loop_inv P body (Z.to_nat n) 0 s) as (s' & E & H); [done | |].
  - intros i s0 Hi. apply Hstep. lia.
  - exists s'. split; [done |]. by rewrite Z2Nat.id in H.
Qed.

Lemma for_each_inv {A St} (P : list A → St → Prop) (body : A → St → result St)
    (xs : list A) (s : St) :
  P [] s →
  (∀ done_ x s, (∃ rest, xs = done_ ++ x :: rest) → P done_ s →
                ∃ s', body x s = Ok s' ∧ P (done_ ++ [x]) s') →
  ∃ s', for_each xs body s = Ok s' ∧ P xs s'.
Proof.
  intros H0 Hstep.
  cut (∀ todo done_ s, xs = done_ ++ todo → P done_ s →
         ∃ s', for_each todo body s = Ok s' ∧ P xs s').
  { intros H. by apply (H xs [] s). }
  clear s H0. induction todo as [|x todo IH]; intros done_ s Hxs HP.
  - exists s. simpl. rewrite app_nil_r in Hxs. by subst.
  - destruct (Hstep done_ x s) as (s1 & E1 & H1); [by eexists | done |].
    destruct (IH (done_ ++ [x]) s1) as (s2 & E2 & H2).
    + by rewrite <- app_assoc.
    + done.
    + exists s2. simpl. rewrite E1. by simpl.
Qed.

(** ** TensorRef::Permute *)

Lemma mark_seen_spec (dims : list Z) (n : nat) :
  (∀ d, d ∈ dims → 0 ≤ d < Z.of_nat n) →
  ∃ seen, TensorRef.mark_seen dims (replicate n false) = Ok seen
          ∧ length seen = n
          ∧ ∀ i, seen !! i = Some true ↔ (i < n)%nat ∧ Z.of_nat i ∈ dims.
Proof.
  intros Hr. unfold TensorRef.mark_seen.
  apply (for_each_inv
           (λ done_ seen, length seen = n
              ∧ ∀ i, seen !! i = Some true ↔ (i < n)%nat ∧ Z.of_nat i ∈ done_)).
  - split; [by rewrite length_replicate |].
    intros i. rewrite lookup_replicate. split.
    + intros [? ?]. discriminate.
    + intros [_ H]. by apply elem_of_nil in H.
  - intros done_ d seen [rest ->] [Hlen Hs].
    assert (0 ≤ d < Z.of_nat n) as Hd.
    { apply Hr. rewrite elem_of_app, elem_of_cons. auto. }
    exists (<[Z.to_nat d := true]> seen). split.
    { apply store_Ok. lia. }
    split; [by rewrite length_insert |].
    intros i. rewrite elem_of_app, list_elem_of_singleton.
    destruct (decide (i = Z.to_nat d)) as [-> | Hne].
    + rewrite list_lookup_insert_eq by lia. split; [|done].
      intros _. split; [lia |]. right. lia.
    + rewrite list_lookup_insert_ne by done. rewrite Hs. split.
      * intros [? ?]. auto.
      * intros [? [? | ?]]; [done | lia].
Qed.

Lemma forallb_seen (seen : list bool) :
  forallb (λ b, b) seen = true ↔ ∀ i, (i < length seen)%nat → seen !! i = Some true.
Proof.
  rewrite forallb_forall. split.
  - intros H i Hi. destruct (lookup_lt_is_Some_2 seen i Hi) as [b Hb].
    rewrite Hb. f_equal. apply H. apply list_elem_of_In.
    by apply list_elem_of_lookup_2 in Hb.
  - intros H b Hb. apply list_elem_of_In, list_elem_of_lookup_1 in Hb as [i Hi].
    pose proof (lookup_lt_Some _ _ _ Hi) as Hlt.
    specialize (H i Hlt). congruence.
Qed.

Section Permute_facts.

Variable WrapDim : Z → Z → result Z.
Hypothesis WrapDim_in_range :
  ∀ d n, 0 ≤ d < n → WrapDim d n = Ok d.

Lemma gather_spec (r : TensorRef.t) (dims : list Z) :
  TensorRef.wf r →
  Z.of_nat (length dims) = TensorRef.ndims_ r →
  (∀ d, d ∈ dims → 0 ≤ d < TensorRef.ndims_ r) →
  TensorRef.gather WrapDim r dims
  = Ok ((λ d, default 0 (TensorRef.shape_ r !! Z.to_nat d)) <$> dims,
        (λ d, default 0 (TensorRef.byte_strides_ r !! Z.to_nat d)) <$> dims).
Proof.
  intros (Hn & Hsh & Hbs) Hlen Hr. unfold TensorRef.gather.
  set (n := TensorRef.ndims_ r) in *.
  set (G1 := (λ d, default 0 (TensorRef.shape_ r !! Z.to_nat d)) <$> dims).
  set (G2 := (λ d, default 0 (TensorRef.byte_strides_ r !! Z.to_nat d)) <$> dims).
  destruct (for_range_inv
    (λ i (st : list Z * list Z),
       st.1 = take (Z.to_nat i) G1 ++ replicate (Z.to_nat (n - i)) 0
       ∧ st.2 = take (Z.to_nat i) G2 ++ replicate (Z.to_nat (n - i)) 0)
    (fun i '(new_shape, new_byte_strides) =>
       let* d := index dims i in
       let* old_dim := WrapDim d n in
       let* sh := index (TensorRef.shape_ r) old_dim in
       let* st := index (TensorRef.byte_strides_ r) old_dim in
       let* new_shape' := store new_shape i sh in
       let* new_byte_strides' := store new_byte_strides i st in
       Ok (new_shape', new_byte_strides'))
    n (replicate (Z.to_nat n) 0, replicate (Z.to_nat n) 0))
    as ([ns nb] & E & H1 & H2).
  - lia.
  - simpl. by rewrite Z.sub_0_r.
  - intros i [ns nb] Hi [H1 H2]. simpl in H1, H2. subst ns nb. simpl.
    destruct (lookup_lt_is_Some_2 dims (Z.to_nat i)) as [d Hd]; [lia |].
    assert (0 ≤ d < n) as Hdr by (apply Hr; by eapply list_elem_of_lookup_2).
    destruct (lookup_lt_is_Some_2 (TensorRef.shape_ r) (Z.to_nat d)) as [sh Hs];
      [unfold MAX_DIMS in *; lia |].
    destruct (lookup_lt_is_Some_2 (TensorRef.byte_strides_ r) (Z.to_nat d))
      as [st Hst]; [unfold MAX_DIMS in *; lia |].
    assert (G1 !! Z.to_nat i = Some sh) as HG1.
    { unfold G1. rewrite list_lookup_fmap, Hd. simpl. by rewrite Hs. }
    assert (G2 !! Z.to_nat i = Some st) as HG2.
    { unfold G2. rewrite list_lookup_fmap, Hd. simpl. by rewrite Hst. }
    assert (∀ (G : list Z) v, length G = length dims → G !! Z.to_nat i = Some v →
      store (take (Z.to_nat i) G ++ replicate (Z.to_nat (n - i)) 0) i v
      = Ok (take (Z.to_nat (i + 1)) G ++ replicate (Z.to_nat (n - (i + 1))) 0))
      as Hstore.
    { intros G v HGl HG. rewrite store_Ok.
      2:{ rewrite length_app, length_take, length_replicate. lia. }
      f_equal.
      replace (Z.to_nat (n - i)) with (S (Z.to_nat (n - (i + 1)))) by lia.
      replace (Z.to_nat (i + 1)) with (S (Z.to_nat i)) by lia.
      rewrite (take_S_r _ _ _ HG). rewrite <- app_assoc. simpl.
      rewrite insert_app_r_alt by (rewrite length_take; lia).
      rewrite length_take.
      replace (Z.to_nat i - Z.to_nat i `min` length G)%nat with 0%nat by lia.
      done. }
    rewrite (proj2 (index_Ok dims i d)) by (split; [lia | done]). simpl.
    rewrite WrapDim_in_range by done. simpl.
    rewrite (proj2 (index_Ok _ d sh)) by (split; [lia | done]). simpl.
    rewrite (proj2 (index_Ok _ d st)) by (split; [lia | done]). simpl.
    rewrite (Hstore G1 sh) by (done || by unfold G1; rewrite length_fmap). simpl.
    rewrite (Hstore G2 st) by (done || by unfold G2; rewrite length_fmap). simpl.
    eauto.
  - rewrite E. simpl in *. subst ns nb.
    rewrite Z.sub_diag. simpl. rewrite !app_nil_r.
    rewrite !take_ge; [done | |]; unfold G1, G2; rewrite length_fmap; lia.
Qed.

Lemma write_back_spec (r : TensorRef.t) (ns nb : list Z) :
  TensorRef.wf r →
  Z.of_nat (length ns) = TensorRef.ndims_ r →
  Z.of_nat (length nb) = TensorRef.ndims_ r →
  TensorRef.write_back r ns nb
  = Ok (ns ++ drop (length ns) (TensorRef.shape_ r),
        nb ++ drop (length nb) (TensorRef.byte_strides_ r)).
Proof.
  intros (Hn & Hsh & Hbs) Hns Hnb. unfold TensorRef.write_back.
  set (n := TensorRef.ndims_ r) in *.
  assert (∀ (new old : list Z) i v,
    0 ≤ i < n → Z.of_nat (length new) = n → Z.of_nat (length old) = MAX_DIMS →
    new !! Z.to_nat i = Some v →
    store (take (Z.to_nat i) new ++ drop (Z.to_nat i) old) i v
    = Ok (take (Z.to_nat (i + 1)) new ++ drop (Z.to_nat (i + 1)) old))
    as Hstore.
  { intros new old i v Hi Hnew Hold Hv. rewrite store_Ok.
    2:{ rewrite length_app, length_take, length_drop. lia. }
    f_equal.
    destruct (lookup_lt_is_Some_2 old (Z.to_nat i)) as [y Hy]; [lia |].
    replace (Z.to_nat (i + 1)) with (S (Z.to_nat i)) by lia.
    rewrite (take_S_r _ _ _ Hv), (drop_S _ _ _ Hy), <- app_assoc.
    rewrite insert_app_r_alt by (rewrite length_take; lia).
    rewrite length_take.
    replace (Z.to_nat i - Z.to_nat i `min` length new)%nat with 0%nat by lia.
    done. }
  destruct (for_range_inv
    (λ i (st : list Z * list Z),
       st.1 = take (Z.to_nat i) ns ++ drop (Z.to_nat i) (TensorRef.shape_ r)
       ∧ st.2 = take (Z.to_nat i) nb
                  ++ drop (Z.to_nat i) (TensorRef.byte_strides_ r))
    (fun i '(shape, byte_strides) =>
       let* sh := index ns i in
       let* shape' := store shape i sh in
       let* st := index nb i in
       let* byte_strides' := store byte_strides i st in
       Ok (shape', byte_strides'))
    n (TensorRef.shape_ r, TensorRef.byte_strides_ r))
    as ([sh bs] & E & H1 & H2).
  - lia.
  - done.
  - intros i [sh bs] Hi [H1 H2]. simpl in H1, H2. subst sh bs. simpl.
    destruct (lookup_lt_is_Some_2 ns (Z.to_nat i)) as [v1 Hv1]; [lia |].
    destruct (lookup_lt_is_Some_2 nb (Z.to_nat i)) as [v2 Hv2]; [lia |].
    rewrite (proj2 (index_Ok ns i v1)) by (split; [lia | done]). simpl.
    rewrite (Hstore ns _ i v1) by done. simpl.
    rewrite (proj2 (index_Ok nb i v2)) by (split; [lia | done]). simpl.
    rewrite (Hstore nb _ i v2) by done. simpl.
    eauto.
  - rewrite E. simpl in H1, H2. subst sh bs.
    replace (Z.to_nat n) with (length ns) at 1 2 by lia.
    replace (Z.to_nat n) with (length nb) by lia.
    by rewrite !firstn_all.
Qed.

(** [Permute] on a list that names every axis once. *)
Lemma Permute_spec (r : TensorRef.t) (dims : list Z) :
  TensorRef.wf r →
  Z.of_nat (length dims) = TensorRef.ndims_ r →
  (∀ d, d ∈ dims → 0 ≤ d < TensorRef.ndims_ r) →
  (∀ i, 0 ≤ i < TensorRef.ndims_ r → i ∈ dims) →
  TensorRef.Permute WrapDim r dims
  = Ok (TensorRef.mk (TensorRef.data_ptr_ r) (TensorRef.ndims_ r)
          (TensorRef.dtype_byte_size_ r)
          (permuted dims (TensorRef.shape_ r))
          (permuted dims (TensorRef.byte_strides_ r))).
Proof.
  intros Hwf Hlen Hr Hall. unfold TensorRef.Permute.
  rewrite decide_False by lia.
  destruct (mark_seen_spec dims (Z.to_nat (TensorRef.ndims_ r)))
    as (seen & -> & Hsl & Hseen).
  { intros d Hd. specialize (Hr d Hd). lia. }
  simpl.
  assert (forallb (λ seen0 : bool, seen0) seen = true) as ->.
  { apply forallb_seen. intros i Hi. apply Hseen. split; [lia |].
    apply Hall. lia. }
  simpl. rewrite gather_spec by done. simpl.
  rewrite write_back_spec by (done || rewrite length_fmap; lia). simpl.
  unfold permuted. by rewrite !length_fmap.
Qed.

End Permute_facts.

(** *** Permuting by a permutation and by its inverse *)

Lemma permuted_lookup_lt (dims l : list Z) (k : nat) (d : Z) :
  dims !! k = Some d →
  permuted dims l !! k = Some (default 0 (l !! Z.to_nat d)).
Proof.
  intros H. unfold permuted.
  rewrite lookup_app_l by (rewrite length_fmap; by eapply lookup_lt_Some).
  by rewrite list_lookup_fmap, H.
Qed.

Lemma permuted_lookup_ge (dims l : list Z) (k : nat) :
  (length dims ≤ k)%nat → permuted dims l !! k = l !! k.
Proof.
  intros H. unfold permuted.
  rewrite lookup_app_r by (by rewrite length_fmap).
  rewrite length_fmap, lookup_drop. f_equal. lia.
Qed.

Lemma length_permuted (dims l : list Z) :
  (length dims ≤ length l)%nat → length (permuted dims l) = length l.
Proof.
  intros H. unfold permuted. rewrite length_app, length_fmap, length_drop. lia.
Qed.

Lemma position_nonneg (i : Z) (p : list Z) : 0 ≤ position i p.
Proof. induction p as [|d p IH]; simpl; [lia |]. case_decide; lia. Qed.

Lemma position_lookup (i : Z) (p : list Z) :
  i ∈ p → p !! Z.to_nat (position i p) = Some i.
Proof.
  induction p as [|d p IH]; intros H.
  - by apply elem_of_nil in H.
  - simpl. case_decide as Hd; [by subst |].
    apply elem_of_cons in H as [-> | H]; [done |].
    pose proof (position_nonneg i p).
    replace (Z.to_nat (1 + position i p)) with (S (Z.to_nat (position i p)))
      by lia.
    simpl. auto.
Qed.

Lemma position_NoDup (p : list Z) (j : nat) (d : Z) :
  NoDup p → p !! j = Some d → position d p = Z.of_nat j.
Proof.
  intros Hnd Hj.
  assert (d ∈ p) as Hin by (by eapply list_elem_of_lookup_2).
  pose proof (position_lookup d p Hin) as Hp.
  pose proof (position_nonneg d p).
  pose proof (NoDup_lookup p _ _ d Hnd Hp Hj). lia.
Qed.

Lemma inverse_lookup (p : list Z) (k : nat) :
  (k < length p)%nat → inverse p !! k = Some (position (Z.of_nat k) p).
Proof.
  intros H. unfold inverse.
  rewrite list_lookup_fmap, lookup_seqZ_lt by lia. done.
Qed.

Lemma length_inverse (p : list Z) : length (inverse p) = length p.
Proof. unfold inverse. rewrite length_fmap, length_seqZ. lia. Qed.

(** What [dims ≡ₚ seqZ 0 n] gives. *)
Lemma perm_facts (p : list Z) (n : Z) :
  p ≡ₚ seqZ 0 n → 0 ≤ n →
  Z.of_nat (length p) = n ∧ NoDup p
  ∧ (∀ d, d ∈ p → 0 ≤ d < n) ∧ (∀ i, 0 ≤ i < n → i ∈ p).
Proof.
  intros Hp Hn. split; [| split; [| split]].
  - rewrite Hp, length_seqZ. lia.
  - rewrite Hp. apply NoDup_seqZ.
  - intros d. rewrite Hp, elem_of_seqZ. lia.
  - intros i Hi. rewrite Hp, elem_of_seqZ. lia.
Qed.

Lemma inverse_facts (p : list Z) (n : Z) :
  p ≡ₚ seqZ 0 n → 0 ≤ n →
  (∀ d, d ∈ inverse p → 0 ≤ d < n) ∧ (∀ i, 0 ≤ i < n → i ∈ inverse p).
Proof.
  intros Hp Hn. destruct (perm_facts p n Hp Hn) as (Hlen & Hnd & Hr & Hall).
  split.
  - intros d Hd. apply list_elem_of_lookup_1 in Hd as [k Hk].
    pose proof (lookup_lt_Some _ _ _ Hk) as Hlt. rewrite length_inverse in Hlt.
    rewrite inverse_lookup in Hk by done. injection Hk as <-.
    pose proof (position_nonneg (Z.of_nat k) p).
    pose proof (position_lookup (Z.of_nat k) p (Hall (Z.of_nat k) ltac:(lia))) as Hl.
    apply lookup_lt_Some in Hl. lia.
  - intros i Hi.
    destruct (lookup_lt_is_Some_2 p (Z.to_nat i)) as [d Hd]; [lia |].
    assert (0 ≤ d < n) by (apply Hr; by eapply list_elem_of_lookup_2).
    apply list_elem_of_lookup. exists (Z.to_nat d).
    rewrite inverse_lookup by lia. f_equal.
    rewrite Z2Nat.id by lia. rewrite (position_NoDup p (Z.to_nat i) d) by done.
    lia.
Qed.

Lemma permuted_inverse (p l : list Z) (n : Z) :
  p ≡ₚ seqZ 0 n → 0 ≤ n ≤ Z.of_nat (length l) →
  permuted (inverse p) (permuted p l) = l.
Proof.
  intros Hp Hn. destruct (perm_facts p n Hp) as (Hlen & Hnd & Hr & Hall); [lia |].
  apply list_eq. intros k.
  destruct (decide (k < length p)%nat) as [Hk | Hk].
  - rewrite (permuted_lookup_lt _ _ k _ (inverse_lookup p k Hk)).
    pose proof (position_nonneg (Z.of_nat k) p).
    pose proof (position_lookup (Z.of_nat k) p (Hall (Z.of_nat k) ltac:(lia))) as Hl.
    rewrite (permuted_lookup_lt _ _ _ _ Hl). simpl. rewrite Nat2Z.id.
    destruct (lookup_lt_is_Some_2 l k) as [v ->]; [lia | done].
  - rewrite permuted_lookup_ge by (rewrite length_inverse; lia).
    apply permuted_lookup_ge. lia.
Qed.

Lemma permuted_identity (l : list Z) (n : Z) :
  0 ≤ n ≤ Z.of_nat (length l) → permuted (seqZ 0 n) l = l.
Proof.
  intros Hn. apply list_eq. intros k.
  destruct (decide (Z.of_nat k < n)) as [Hk | Hk].
  - rewrite (permuted_lookup_lt _ _ k (Z.of_nat k)) by (by rewrite lookup_seqZ_lt).
    rewrite Nat2Z.id.
    destruct (lookup_lt_is_Some_2 l k) as [v ->]; [lia | done].
  - apply permuted_lookup_ge. rewrite length_seqZ. lia.
Qed.

(** C10. For every well-formed TensorRef [r] and every permutation [p] of
    [0 .. ndims-1], [Permute(p)] succeeds and a following
    [Permute(inverse p)] gives back [r] exactly: same shape, same byte
    strides (and same pointer, rank and element size); permuting by the
    identity permutation returns [r] unchanged. *)
Theorem Permute_inverse_restores
    (WrapDim : Z → Z → result Z) (r : TensorRef.t) (p : list Z) :
  (∀ d n, 0 ≤ d < n → WrapDim d n = Ok d) →
  TensorRef.wf r →
  p ≡ₚ seqZ 0 (TensorRef.ndims_ r) →
  (∃ r', TensorRef.Permute WrapDim r p = Ok r'
         ∧ TensorRef.Permute WrapDim r' (inverse p) = Ok r)
  ∧ TensorRef.Permute WrapDim r (seqZ 0 (TensorRef.ndims_ r)) = Ok r.
Proof.
  intros HW Hwf Hp. pose proof Hwf as (Hn & Hsh & Hbs).
  destruct (perm_facts p _ Hp) as (Hlen & Hnd & Hr & Hall); [lia |].
  destruct (inverse_facts p _ Hp) as (Hir & Hiall); [lia |].
  unfold MAX_DIMS in *.
  split.
  - eexists. split; [by apply Permute_spec |].
    set (r' := TensorRef.mk _ _ _ _ _).
    assert (TensorRef.wf r') as Hwf'.
    { unfold TensorRef.wf, r', MAX_DIMS. simpl.
      rewrite !length_permuted by lia. done. }
    rewrite Permute_spec; try done.
    + unfold r'. simpl.
      rewrite !(permuted_inverse p _ _ Hp) by lia. by destruct r.
    + by rewrite length_inverse.
  - rewrite Permute_spec; try done.
    + rewrite !permuted_identity by lia. by destruct r.
    + rewrite length_seqZ. lia.
    + intros d. rewrite elem_of_seqZ. lia.
    + intros i. rewrite elem_of_seqZ. lia.
Qed.

Lemma Permute_inverse_restores_witness :
  (∃ r', TensorRef.Permute WrapDim_wrapping ref_2x3x4 [2; 0; 1] = Ok r'
         ∧ TensorRef.Permute WrapDim_wrapping r' (inverse [2; 0; 1])
           = Ok ref_2x3x4)
  ∧ TensorRef.Permute WrapDim_wrapping ref_2x3x4 (seqZ 0 3) = Ok ref_2x3x4.
Proof.
  apply (Permute_inverse_restores WrapDim_wrapping ref_2x3x4 [2; 0; 1]).
  - intros d n H. unfold WrapDim_wrapping.
    rewrite decide_False by lia. by rewrite decide_False by lia.
  - unfold TensorRef.wf, MAX_DIMS. simpl. lia.
  - simpl. change (seqZ 0 3) with [0; 1; 2].
    by rewrite (Permutation_cons_append [0; 1] 2).
Defined.

(** *** Permute on lists that are not permutations *)

(** A [dims] of the wrong length is refused before anything is read. *)
Lemma Permute_wrong_length
    (WrapDim : Z → Z → result Z) (r : TensorRef.t) (dims : list Z) :
  Z.of_nat (length dims) ≠ TensorRef.ndims_ r →
  TensorRef.Permute WrapDim r dims
  = Raise (LogError "Number of dimensions mismatch {} != {}."
             [Z.of_nat (length dims); TensorRef.ndims_ r]).
Proof. intros H. unfold TensorRef.Permute. by rewrite decide_True. Qed.

(** A [dims] of the right length whose entries all lie in [0, ndims) but
    which misses some axis (so repeats another) is refused as well. *)
Lemma Permute_in_range_not_permutation
    (WrapDim : Z → Z → result Z) (r : TensorRef.t) (dims : list Z) (i : Z) :
  Z.of_nat (length dims) = TensorRef.ndims_ r →
  (∀ d, d ∈ dims → 0 ≤ d < TensorRef.ndims_ r) →
  0 ≤ i < TensorRef.ndims_ r → i ∉ dims →
  TensorRef.Permute WrapDim r dims
  = Raise (LogError "Permute dims must be a permuntation from 0 to {}."
             [Z.of_nat (length dims) - 1]).
Proof.
  intros Hlen Hr Hi Hni. unfold TensorRef.Permute.
  rewrite decide_False by lia.
  destruct (mark_seen_spec dims (Z.to_nat (TensorRef.ndims_ r)))
    as (seen & -> & Hsl & Hseen).
  { intros d Hd. specialize (Hr d Hd). lia. }
  simpl.
  destruct (forallb (λ seen0 : bool, seen0) seen) eqn:E; [| done].
  exfalso. apply Hni.
  pose proof (proj1 (forallb_seen seen) E (Z.to_nat i) ltac:(lia)) as Hs.
  apply Hseen in Hs as [_ Hs]. by rewrite Z2Nat.id in Hs by lia.
Qed.

(** C8. On a rank-2 TensorRef, [Permute({0, 5})] and [Permute({0, -1})]
    have the right length, so the first check passes; the loop that marks
    [seen_dims[dim]] then writes outside the 2-element vector before any
    validation of the entries: the call is undefined, whatever [WrapDim]
    does, and no invalid-argument condition is raised. *)
Theorem Permute_out_of_range_entry_is_undefined
    (WrapDim : Z → Z → result Z) :
  TensorRef.Permute WrapDim ref_2x3 [0; 5] = Undefined
  ∧ TensorRef.Permute WrapDim ref_2x3 [0; -1] = Undefined.
Proof. split; reflexivity. Qed.

(** ** Indexer accessors *)

(** C9 (as stated, refuted). The reduction indexer has one input; asking
    [GetInputPtr] for input 1 returns the null pointer and raises
    nothing. *)
Lemma GetInputPtr_out_of_range_returns_null :
  Indexer.GetInputPtr sum_axis0 1 0 = Ok nullptr
  ∧ is_raise (Indexer.GetInputPtr sum_axis0 1 0) = false
  ∧ ¬ (0 ≤ 1 < Indexer.NumInputs sum_axis0).
Proof. repeat split; try reflexivity. simpl. lia. Qed.

(** C9 (amended). For every Indexer and work item: [GetInputPtr] with an
    input index outside [0, NumInputs()) returns the null pointer; the
    TensorRef accessors [GetInput(i)] and [GetOutput(j)] with an index
    outside their range raise the out-of-range condition. *)
Theorem accessors_out_of_range (ix : Indexer.t) (i j workload_idx : Z) :
  ¬ (0 ≤ i < Indexer.NumInputs ix) →
  ¬ (0 ≤ j < Indexer.NumOutputs ix) →
  Indexer.GetInputPtr ix i workload_idx = Ok nullptr
  ∧ Indexer.GetInput ix i
    = Raise (LogError "0 <= i < {} required, however, i = {}."
               [Indexer.NumInputs ix; i])
  ∧ Indexer.GetOutput ix j
    = Raise (LogError "0 <= i < {} required, however, i = {}."
               [Indexer.NumOutputs ix; j]).
Proof.
  unfold Indexer.NumInputs, Indexer.NumOutputs. intros Hi Hj.
  unfold Indexer.GetInputPtr, Indexer.GetInput, Indexer.GetOutput.
  rewrite !decide_True by lia. done.
Qed.

Lemma accessors_out_of_range_witness :
  Indexer.GetInputPtr sum_axis0 (-1) 4 = Ok nullptr
  ∧ Indexer.GetInput sum_axis0 (-1)
    = Raise (LogError "0 <= i < {} required, however, i = {}." [1; -1])
  ∧ Indexer.GetOutput sum_axis0 1
    = Raise (LogError "0 <= i < {} required, however, i = {}." [1; 1]).
Proof.
  apply (accessors_out_of_range sum_axis0 (-1) 1 4); simpl; lia.
Defined.

(** Inside the range [GetInputPtr] is [GetWorkloadDataPtr] on that input. *)
Lemma GetInputPtr_in_range_example :
  Indexer.GetInputPtr sum_axis0 0 4 = Ok (4096 + 12 + 4)
  ∧ Indexer.GetOutputPtr sum_axis0 4 = Ok (8192 + 4).
Proof. split; reflexivity. Qed.

(** [GetOutputPtr(output_idx, workload_idx)] checks nothing: with one
    output, index 3 reads the unused fourth slot of [outputs_], and index 7
    reads past the array. *)
Lemma GetOutputPtr_at_unchecked :
  Indexer.GetOutputPtr_at sum_axis0 3 4 = Ok 0
  ∧ Indexer.GetOutputPtr_at sum_axis0 7 4 = Undefined.
Proof. split; reflexivity. Qed.

(** ** Reduction dimensions *)

Lemma workload_loops (ix : Indexer.t) (tr : TensorRef.t) (count : nat) :
  ∀ (lo : nat) (cs cs' : list Z) (w w' off : Z),
  (lo + count ≤ length (TensorRef.byte_strides_ tr))%nat →
  for_loop (Z.of_nat lo) count (Indexer.coords_step ix) (cs, w) = Ok (cs', w') →
  ∃ new, cs' = cs ++ new ∧ length new = count
    ∧ for_loop (Z.of_nat lo) count (Indexer.workload_step ix tr) (off, w)
      = Ok (offset_of new (drop lo (TensorRef.byte_strides_ tr)) off, w').
Proof.
  induction count as [|k IH]; intros lo cs cs' w w' off Hlen H.
  - simpl in H. injection H as <- <-. exists []. by rewrite app_nil_r.
  - simpl in H. apply bind_Ok in H as ([cs1 w1] & Hstep & H).
    unfold Indexer.coords_step in Hstep.
    apply bind_Ok in Hstep as (ms & Hms & Hstep).
    apply bind_Ok in Hstep as (q & Hq & Hstep).
    apply bind_Ok in Hstep as (r & Hr & Hstep).
    injection Hstep as <- <-.
    replace (Z.of_nat lo + 1) with (Z.of_nat (S lo)) in H by lia.
    destruct (lookup_lt_is_Some_2 (TensorRef.byte_strides_ tr) lo) as [b Hb];
      [lia |].
    destruct (IH (S lo) (cs ++ [q]) cs' r w'
                (wrap_i64 (off + wrap_i64 (q * b)))) as (new & -> & Hn & E);
      [lia | done |].
    exists (q :: new). split; [by rewrite <- app_assoc |].
    split; [simpl; lia |].
    assert (Indexer.workload_step ix tr (Z.of_nat lo) (off, w)
            = Ok (wrap_i64 (off + wrap_i64 (q * b)), r)) as Hs.
    { unfold Indexer.workload_step.
      rewrite Hms. simpl. rewrite (index_of_nat _ _ _ Hb). simpl.
      by rewrite Hq, Hr. }
    cbn [for_loop]. rewrite Hs. cbn [bind].
    replace (Z.of_nat lo + 1) with (Z.of_nat (S lo)) by lia.
    rewrite E. by rewrite (drop_S _ _ _ Hb).
Qed.

(** [GetWorkloadDataPtr] adds, to the base pointer, the offset of the
    decoded coordinates under the operand's own byte strides. *)
Lemma GetWorkloadDataPtr_coords (ix : Indexer.t) (tr : TensorRef.t)
    (w : Z) (cs : list Z) :
  0 ≤ w → 0 ≤ Indexer.ndims_ ix →
  Indexer.ndims_ ix ≤ Z.of_nat (length (TensorRef.byte_strides_ tr)) →
  Indexer.workload_coords ix w = Ok cs →
  length cs = Z.to_nat (Indexer.ndims_ ix)
  ∧ Indexer.GetWorkloadDataPtr ix tr w
    = Ok (ptr_add (TensorRef.data_ptr_ tr)
            (offset_of cs (TensorRef.byte_strides_ tr) 0)).
Proof.
  intros Hw Hn Hlen H. unfold Indexer.workload_coords, for_range in H.
  apply bind_Ok in H as ([cs' w'] & H & E). injection E as <-.
  destruct (workload_loops ix tr (Z.to_nat (Indexer.ndims_ ix)) 0 [] cs' w w' 0)
    as (new & -> & Hnl & E); [lia | done |].
  split; [done |].
  unfold Indexer.GetWorkloadDataPtr, for_range.
  rewrite decide_False by lia. change (Z.of_nat 0) with 0 in E.
  rewrite E. by rewrite drop_0.
Qed.

Lemma offset_of_ext (cs1 cs2 bs : list Z) (off : Z) :
  (∀ k, cs1 !! k = cs2 !! k) → offset_of cs1 bs off = offset_of cs2 bs off.
Proof. intros H. by rewrite (list_eq _ _ H). Qed.

(** Coordinates that differ only on an axis of stride 0 have one offset. *)
Lemma offset_of_reduced (d : nat) :
  ∀ (cs1 cs2 bs : list Z) (off : Z),
  length cs1 = length cs2 →
  (∀ k, k ≠ d → cs1 !! k = cs2 !! k) →
  bs !! d = Some 0 →
  offset_of cs1 bs off = offset_of cs2 bs off.
Proof.
  induction d as [|d IH]; intros cs1 cs2 bs off Hlen Hagree Hbs.
  - destruct bs as [|b bs]; [done |]. injection Hbs as ->.
    destruct cs1 as [|c1 cs1], cs2 as [|c2 cs2]; try done.
    unfold offset_of. simpl. rewrite !Z.mul_0_r.
    apply offset_of_ext. intros k. apply (Hagree (S k)). lia.
  - destruct bs as [|b bs]; [done |].
    destruct cs1 as [|c1 cs1], cs2 as [|c2 cs2]; try done.
    pose proof (Hagree 0%nat ltac:(lia)) as H0. injection H0 as ->.
    unfold offset_of. simpl. apply IH.
    + simpl in Hlen. lia.
    + intros k Hk. apply (Hagree (S k)). lia.
    + done.
Qed.

Lemma IsReductionDim_true (ix : Indexer.t) (d : Z) :
  Indexer.IsReductionDim ix d = Ok true →
  ∃ out0 ms, Indexer.outputs_ ix !! 0%nat = Some out0 ∧ 0 ≤ d
    ∧ TensorRef.byte_strides_ out0 !! Z.to_nat d = Some 0
    ∧ Indexer.master_shape_ ix !! Z.to_nat d = Some ms ∧ ms > 1.
Proof.
  unfold Indexer.IsReductionDim. intros H.
  apply bind_Ok in H as (out0 & Hout & H).
  apply bind_Ok in H as (bs & Hbs & H).
  apply index_Ok in Hout as [_ Hout]. apply index_Ok in Hbs as [Hd Hbs].
  case_decide as Hz; [| discriminate]. subst bs.
  apply bind_Ok in H as (ms & Hms & H). apply index_Ok in Hms as [_ Hms].
  injection H as H. apply bool_decide_eq_true in H.
  exists out0, ms. done.
Qed.

(** C6. For every Indexer and every reduction dimension [d]
    ([IsReductionDim(d)]: output byte stride 0 and master extent > 1), two
    work items whose decoded coordinates differ at most on axis [d] get
    the same pointer from [GetOutputPtr]. *)
Theorem reduction_dim_same_output_ptr
    (ix : Indexer.t) (d w1 w2 : Z) (cs1 cs2 : list Z) :
  Indexer.wf ix →
  Indexer.IsReductionDim ix d = Ok true →
  0 ≤ w1 → 0 ≤ w2 →
  Indexer.workload_coords ix w1 = Ok cs1 →
  Indexer.workload_coords ix w2 = Ok cs2 →
  (∀ k, k ≠ Z.to_nat d → cs1 !! k = cs2 !! k) →
  ∃ p, Indexer.GetOutputPtr ix w1 = Ok p ∧ Indexer.GetOutputPtr ix w2 = Ok p.
Proof.
  intros (Hn & _ & _ & _ & _ & _ & Hsized) Hred Hw1 Hw2 Hc1 Hc2 Hagree.
  apply IsReductionDim_true in Hred as (out0 & ms & Hout & Hd & Hbs & _ & _).
  assert (TensorRef.sized out0) as [_ Hlen].
  { rewrite Forall_forall in Hsized. apply Hsized.
    by eapply list_elem_of_lookup_2. }
  destruct (GetWorkloadDataPtr_coords ix out0 w1 cs1) as [Hl1 E1];
    [lia | lia | lia | done |].
  destruct (GetWorkloadDataPtr_coords ix out0 w2 cs2) as [Hl2 E2];
    [lia | lia | lia | done |].
  unfold Indexer.GetOutputPtr.
  pose proof (index_of_nat _ 0 _ Hout) as Hidx.
  change (Z.of_nat 0) with 0 in Hidx. rewrite Hidx. cbn [bind].
  rewrite E1, E2.
  eexists. split; [done |]. do 2 f_equal.
  symmetry. apply (offset_of_reduced (Z.to_nat d)); [lia | done | done].
Qed.

Lemma reduction_dim_same_output_ptr_witness :
  ∃ p, Indexer.GetOutputPtr sum_axis0 1 = Ok p
       ∧ Indexer.GetOutputPtr sum_axis0 4 = Ok p.
Proof.
  apply (reduction_dim_same_output_ptr sum_axis0 0 1 4 [0; 1] [1; 1]).
  - unfold Indexer.wf, TensorRef.sized, MAX_DIMS, MAX_INPUTS, MAX_OUTPUTS.
    simpl. repeat split; try lia; repeat constructor.
  - reflexivity.
  - lia.
  - lia.
  - reflexivity.
  - reflexivity.
  - intros [|[|k]] Hk; simpl in *; done.
Defined.

(** ** OffsetCalculator *)

(** The constructor builds the two example calculators. *)
Lemma make_examples :
  OffsetCalculator.make 1 1 [3] [[2147483648]] = Ok oc_wide
  ∧ OffsetCalculator.make 2 2 [3; 4] [[4; 12]; [8; 0]] = Ok oc_3x4.
Proof. split; reflexivity. Qed.

Lemma seqZ_snoc (j : Z) : 0 ≤ j → seqZ 0 (j + 1) = seqZ 0 j ++ [j].
Proof.
  intros H. rewrite seqZ_app by lia. by f_equal.
Qed.

(** The constructor, on [dims] axes that its arguments cover. *)
Lemma make_spec (NARGS : nat) (dims : Z) (sizes : list Z)
    (strides : list (list Z)) :
  dims ≤ MAX_DIMS →
  dims ≤ Z.of_nat (length sizes) →
  (NARGS ≤ length strides)%nat →
  Forall (λ row, dims ≤ Z.of_nat (length row)) strides →
  OffsetCalculator.make NARGS dims sizes strides
  = Ok (stored NARGS dims sizes strides)
  ∧ oc_wf NARGS (stored NARGS dims sizes strides).
Proof.
  intros Hdims Hsizes Hargs Hrows. split.
  - unfold OffsetCalculator.make. rewrite decide_False by lia.
    assert (∀ i, 0 ≤ i < MAX_DIMS →
      OffsetCalculator.fill_dim NARGS dims sizes strides i
      = Ok (stored_size dims sizes i,
            stored_stride dims strides i <$> seqZ 0 (Z.of_nat NARGS))) as Hfill.
    { intros i Hi. unfold OffsetCalculator.fill_dim.
      assert ((if decide (i < dims) then index sizes i else Ok 1)
              = Ok (if decide (i < dims)
                    then default 0 (sizes !! Z.to_nat i) else 1)) as ->.
      { case_decide; [| done].
        destruct (lookup_lt_is_Some_2 sizes (Z.to_nat i)) as [x Hx]; [lia |].
        rewrite Hx. apply index_Ok. split; [lia | done]. }
      cbn [bind].
      destruct (for_loop_inv
        (λ j (row : list Z), row = stored_stride dims strides i <$> seqZ 0 j)
        (fun arg row =>
           let* s := (if decide (i < dims)
                      then let* sa := index strides arg in index sa i
                      else Ok 0) in
           Ok (row ++ [wrap_u32 s]))
        NARGS 0 []) as (row & -> & ->).
      - done.
      - intros j row Hj ->.
        assert ((if decide (i < dims)
                 then let* sa := index strides j in index sa i
                 else Ok 0)
                = Ok (if decide (i < dims)
                      then default 0
                             (default [] (strides !! Z.to_nat j) !! Z.to_nat i)
                      else 0)) as ->.
        { case_decide; [| done].
          destruct (lookup_lt_is_Some_2 strides (Z.to_nat j)) as [sa Hsa];
            [lia |].
          rewrite (proj2 (index_Ok strides j sa)) by (split; [lia | done]).
          cbn [bind]. rewrite Hsa. simpl.
          rewrite Forall_forall in Hrows.
          pose proof (Hrows sa (list_elem_of_lookup_2 _ _ _ Hsa)).
          destruct (lookup_lt_is_Some_2 sa (Z.to_nat i)) as [x Hx]; [lia |].
          rewrite Hx. apply index_Ok. split; [lia | done]. }
        cbn [bind]. eexists. split; [done |].
        rewrite seqZ_snoc by lia. by rewrite fmap_app.
      - done. }
    destruct (for_range_inv
      (λ i (acc : list (Z * list Z)),
         acc = (λ i, (stored_size dims sizes i,
                      stored_stride dims strides i <$> seqZ 0 (Z.of_nat NARGS)))
                 <$> seqZ 0 i)
      (fun i acc =>
         let* sr := OffsetCalculator.fill_dim NARGS dims sizes strides i in
         Ok (acc ++ [sr]))
      MAX_DIMS []) as (filled & -> & ->).
    + unfold MAX_DIMS. lia.
    + done.
    + intros i acc Hi ->. rewrite Hfill by done. cbn [bind].
      eexists. split; [done |]. rewrite seqZ_snoc by lia. by rewrite fmap_app.
    + cbn [bind]. unfold stored. by f_equal.
  - unfold oc_wf, stored.
    cbn [OffsetCalculator.sizes_ OffsetCalculator.strides_].
    rewrite !length_fmap, !length_seqZ. unfold MAX_DIMS.
    split; [lia |]. split; [lia |]. split.
    + apply Forall_fmap, Forall_forall. intros i _. unfold stored_size, wrap_u32.
      apply Z.mod_pos_bound. lia.
    + apply Forall_fmap, Forall_forall. intros i _. simpl. split.
      * rewrite length_fmap, length_seqZ. lia.
      * apply Forall_fmap, Forall_forall. intros a _.
        unfold stored_stride, wrap_u32. apply Z.mod_pos_bound. lia.
Qed.

Lemma extent_prefix_S (sizes : list Z) (d : nat) (x : Z) :
  sizes !! d = Some x →
  extent_prefix sizes (S d) = extent_prefix sizes d * x.
Proof.
  intros H. unfold extent_prefix. rewrite (take_S_r _ _ _ H).
  generalize (take d sizes). intros l.
  induction l as [|y l IH]; simpl; [lia |]. rewrite IH. lia.
Qed.

Lemma extent_prefix_pos (sizes : list Z) (d : nat) :
  (∀ k x, (k < d)%nat → sizes !! k = Some x → 0 < x) →
  0 < extent_prefix sizes d.
Proof.
  revert sizes. induction d as [|d IH]; intros sizes H.
  - unfold extent_prefix. rewrite take_0. simpl. lia.
  - destruct sizes as [|x sizes].
    + unfold extent_prefix. simpl. lia.
    + unfold extent_prefix. simpl.
      assert (0 < x) by (apply (H 0%nat); [lia | done]).
      assert (0 < extent_prefix sizes d).
      { apply IH. intros k y Hk Hy. apply (H (S k)); [lia | done]. }
      unfold extent_prefix in *. lia.
Qed.

(** The inner loop over the operands. *)
Lemma accumulate_spec (NARGS : nat) (m : Z) (row offsets : list Z) :
  length row = NARGS → length offsets = NARGS →
  ∃ offs, OffsetCalculator.accumulate NARGS m row offsets = Ok offs
    ∧ length offs = NARGS
    ∧ ∀ a o s, offsets !! a = Some o → row !! a = Some s →
               offs !! a = Some (wrap_u32 (o + wrap_u32 (m * s))).
Proof.
  intros Hrow Hoffs. unfold OffsetCalculator.accumulate.
  destruct (for_loop_inv
    (λ j (offs : list Z), length offs = NARGS
       ∧ ∀ a, offs !! a
              = if decide (Z.of_nat a < j)
                then (λ o, wrap_u32 (o + wrap_u32 (m * default 0 (row !! a))))
                       <$> offsets !! a
                else offsets !! a)
    (fun arg offs =>
       let* o := index offs arg in
       let* s := index row arg in
       store offs arg (wrap_u32 (o + wrap_u32 (m * s))))
    NARGS 0 offsets) as (offs & E & Hl & H).
  - split; [done |]. intros a. by rewrite decide_False by lia.
  - intros j offs Hj [Hl H].
    destruct (lookup_lt_is_Some_2 offsets (Z.to_nat j)) as [o Ho]; [lia |].
    destruct (lookup_lt_is_Some_2 row (Z.to_nat j)) as [s Hs]; [lia |].
    assert (offs !! Z.to_nat j = Some o) as Ho'.
    { rewrite H. by rewrite decide_False by lia. }
    rewrite (proj2 (index_Ok offs j o)) by (split; [lia | done]). cbn [bind].
    rewrite (proj2 (index_Ok row j s)) by (split; [lia | done]). cbn [bind].
    rewrite store_Ok by lia. eexists. split; [done |].
    split; [by rewrite length_insert |].
    intros a. destruct (decide (a = Z.to_nat j)) as [-> | Hne].
    + rewrite list_lookup_insert_eq by lia.
      rewrite decide_True by lia. by rewrite Ho, Hs.
    + rewrite list_lookup_insert_ne by done. rewrite H.
      destruct (decide (Z.of_nat a < j)).
      * by rewrite decide_True by lia.
      * by rewrite decide_False by lia.
  - exists offs. split; [done |]. split; [done |].
    intros a o s Ho Hs. rewrite H.
    rewrite decide_True by (apply lookup_lt_Some in Ho; lia).
    by rewrite Ho, Hs.
Qed.

Lemma wrap_u32_add (x y : Z) :
  wrap_u32 (wrap_u32 x + wrap_u32 y) = wrap_u32 (x + y).
Proof. unfold wrap_u32. by rewrite <- Z.add_mod by lia. Qed.

Section get_facts.

Variable NARGS : nat.
Variable oc : OffsetCalculator.t.
Hypothesis Hwf : oc_wf NARGS oc.
Hypothesis Hdims : 0 ≤ OffsetCalculator.dims_ oc ≤ MAX_DIMS.
Hypothesis Hsizes :
  ∀ d, Z.of_nat d < OffsetCalculator.dims_ oc →
       OffsetCalculator.sizes_ oc !! d ≠ Some 0.

Lemma size_lookup (d : nat) :
  Z.of_nat d < OffsetCalculator.dims_ oc →
  ∃ x, OffsetCalculator.sizes_ oc !! d = Some x ∧ 0 < x.
Proof.
  intros Hd. destruct Hwf as (Hl & _ & Hu & _). unfold MAX_DIMS in *.
  destruct (lookup_lt_is_Some_2 (OffsetCalculator.sizes_ oc) d) as [x Hx];
    [lia |].
  exists x. split; [done |].
  pose proof (Hsizes d Hd) as Hne.
  rewrite Forall_forall in Hu.
  assert (is_u32 x) as [? ?] by (apply Hu; by eapply list_elem_of_lookup_2).
  assert (x ≠ 0) by congruence. lia.
Qed.

Lemma row_lookup (d : nat) :
  Z.of_nat d < OffsetCalculator.dims_ oc →
  ∃ row, OffsetCalculator.strides_ oc !! d = Some row
         ∧ length row = NARGS ∧ Forall is_u32 row.
Proof.
  intros Hd. destruct Hwf as (_ & Hl & _ & Hr). unfold MAX_DIMS in *.
  destruct (lookup_lt_is_Some_2 (OffsetCalculator.strides_ oc) d) as [row Hx];
    [lia |].
  exists row. split; [done |].
  rewrite Forall_forall in Hr. apply Hr. by eapply list_elem_of_lookup_2.
Qed.

Lemma offset_term_nonneg (a : nat) (i : Z) (d : nat) :
  Z.of_nat d < OffsetCalculator.dims_ oc → 0 ≤ offset_term oc a i d.
Proof.
  intros Hd. unfold offset_term.
  destruct (size_lookup d Hd) as (x & -> & Hx).
  destruct (row_lookup d Hd) as (row & -> & _ & Hrow). simpl.
  apply Z.mul_nonneg_nonneg.
  - apply Z.mod_pos_bound. lia.
  - destruct (row !! a) as [s|] eqn:E; simpl; [| lia].
    rewrite Forall_forall in Hrow.
    assert (is_u32 s) as [? ?] by (apply Hrow; by eapply list_elem_of_lookup_2).
    lia.
Qed.

Lemma offset_sum_upto_nonneg (a : nat) (i : Z) (k : nat) :
  Z.of_nat k ≤ OffsetCalculator.dims_ oc → 0 ≤ offset_sum_upto oc a i k.
Proof.
  induction k as [|k IH]; intros Hk; simpl; [lia |].
  pose proof (offset_term_nonneg a i k ltac:(lia)). specialize (IH ltac:(lia)).
  lia.
Qed.

(** One round of the outer loop, below [dims_]. *)
Lemma get_step_below (k : nat) (i : Z) (offs : list Z) :
  Z.of_nat k < OffsetCalculator.dims_ oc →
  length offs = NARGS →
  (∀ a, (a < NARGS)%nat →
        offs !! a = Some (wrap_u32 (offset_sum_upto oc a i k))) →
  ∃ offs',
    OffsetCalculator.get_step NARGS oc (Z.of_nat k)
      (i / extent_prefix (OffsetCalculator.sizes_ oc) k, offs, false)
    = Ok (i / extent_prefix (OffsetCalculator.sizes_ oc) (S k), offs', false)
    ∧ length offs' = NARGS
    ∧ ∀ a, (a < NARGS)%nat →
           offs' !! a = Some (wrap_u32 (offset_sum_upto oc a i (S k))).
Proof.
  intros Hk Hl Hoffs.
  destruct (size_lookup k Hk) as (x & Hx & Hxpos).
  destruct (row_lookup k Hk) as (row & Hrow & Hrl & _).
  destruct (accumulate_spec NARGS
              ((i / extent_prefix (OffsetCalculator.sizes_ oc) k) mod x)
              row offs Hrl Hl) as (offs' & E & Hl' & Hacc).
  exists offs'. split; [| split; [done |]].
  - unfold OffsetCalculator.get_step. rewrite decide_False by lia.
    rewrite (index_of_nat _ _ _ Hx). cbn [bind].
    unfold mod_u32, div_u32. rewrite !decide_False by lia. cbn [bind].
    rewrite (index_of_nat _ _ _ Hrow). cbn [bind]. rewrite E. cbn [bind].
    do 3 f_equal. rewrite (extent_prefix_S _ _ _ Hx).
    apply Z.div_div; [| lia].
    assert (0 < extent_prefix (OffsetCalculator.sizes_ oc) k); [| lia].
    apply extent_prefix_pos. intros j y Hj Hy.
    destruct (size_lookup j ltac:(lia)) as (y' & Hy' & ?). congruence.
  - intros a Ha.
    destruct (lookup_lt_is_Some_2 row a) as [s Hs]; [lia |].
    rewrite (Hacc a _ s (Hoffs a Ha) Hs). f_equal. simpl.
    unfold offset_term. rewrite Hx, Hrow. simpl. rewrite Hs. simpl.
    apply wrap_u32_add.
Qed.

Lemma get_spec (i : Z) :
  ∃ offs, OffsetCalculator.get NARGS oc i = Ok offs
    ∧ length offs = NARGS
    ∧ ∀ a, (a < NARGS)%nat → offs !! a = Some (wrap_u32 (offset_sum oc a i)).
Proof.
  unfold OffsetCalculator.get. unfold MAX_DIMS in *.
  set (dims := OffsetCalculator.dims_ oc) in *.
  destruct (for_range_inv
    (λ k (st : Z * list Z * bool),
       let m := Z.to_nat (Z.min k dims) in
       st.2 = bool_decide (dims < k)
       ∧ st.1.1 = i / extent_prefix (OffsetCalculator.sizes_ oc) m
       ∧ length st.1.2 = NARGS
       ∧ ∀ a, (a < NARGS)%nat →
              st.1.2 !! a = Some (wrap_u32 (offset_sum_upto oc a i m)))
    (OffsetCalculator.get_step NARGS oc) 10 (i, replicate NARGS 0, false))
    as ([[li offs] broken] & E & _ & _ & Hl & H).
  - lia.
  - cbn beta zeta. replace (Z.min 0 dims) with 0 by lia.
    change (Z.to_nat 0) with 0%nat. simpl.
    rewrite bool_decide_eq_false_2 by lia.
    split; [done |]. split.
    { unfold extent_prefix. rewrite take_0. simpl. by rewrite Z.div_1_r. }
    split; [by rewrite length_replicate |].
    intros a Ha. by rewrite lookup_replicate_2 by done.
  - intros k [[li offs] broken] Hk (Hb & Hli & Hl & H).
    simpl in Hb, Hli, Hl, H.
    destruct (decide (dims < k)) as [Hlt | Hge].
    + (* after the break *)
      rewrite bool_decide_eq_true_2 in Hb by done. subst broken.
      eexists. split; [done |]. simpl.
      rewrite bool_decide_eq_true_2 by lia.
      replace (Z.min (k + 1) dims) with (Z.min k dims) by lia. done.
    + rewrite bool_decide_eq_false_2 in Hb by done. subst broken.
      destruct (decide (k = dims)) as [Heq | Hne].
      * (* the break itself *)
        unfold OffsetCalculator.get_step. fold dims.
        rewrite decide_True by done.
        eexists. split; [done |]. simpl.
        rewrite bool_decide_eq_true_2 by lia.
        replace (Z.min (k + 1) dims) with (Z.min k dims) by lia. done.
      * replace (Z.min k dims) with k in * by lia.
        replace (Z.min (k + 1) dims) with (k + 1) by lia.
        replace (Z.to_nat (k + 1)) with (S (Z.to_nat k)) by lia.
        subst li.
        destruct (get_step_below (Z.to_nat k) i offs) as (offs' & E & Hl' & H');
          [fold dims; lia | done | done |].
        rewrite Z2Nat.id in E by lia. rewrite E.
        eexists. split; [done |]. simpl.
        rewrite bool_decide_eq_false_2 by lia. done.
  - rewrite E. simpl in *. exists offs. split; [done |]. split; [done |].
    intros a Ha. rewrite (H a Ha). unfold offset_sum. fold dims.
    by replace (Z.min 10 dims) with dims by lia.
Qed.

End get_facts.

(** C5 (as stated, refuted). One axis of extent 3, byte stride 2^31, work
    item 2: the sum is [2 * 2^31 = 2^32], and [get] returns 0. *)
Lemma get_wraps_at_32_bits :
  OffsetCalculator.get 1 oc_wide 2 = Ok [0]
  ∧ offset_sum oc_wide 0 2 = 4294967296.
Proof. split; reflexivity. Qed.

(** C5 (amended). For every [OffsetCalculator<NARGS, uint32_t>] with
    [0 <= dims <= MAX_DIMS] and non-zero extents on the axes below [dims],
    and every linear work index [i], [get(i)] returns, for each operand
    [a], the sum over the axes [d < dims] of
    [((i div (sizes[0] * ... * sizes[d-1])) mod sizes[d]) * strides[d][a]]
    reduced modulo 2^32; it is that sum itself whenever the sum is below
    2^32.  The entries at and beyond [dims] play no part. *)
Theorem get_row_major_offsets
    (NARGS : nat) (oc : OffsetCalculator.t) (i : Z) (a : nat) :
  oc_wf NARGS oc →
  0 ≤ OffsetCalculator.dims_ oc ≤ MAX_DIMS →
  (∀ d, Z.of_nat d < OffsetCalculator.dims_ oc →
        OffsetCalculator.sizes_ oc !! d ≠ Some 0) →
  is_u32 i → (a < NARGS)%nat →
  ∃ offs, OffsetCalculator.get NARGS oc i = Ok offs
    ∧ length offs = NARGS
    ∧ offs !! a = Some (offset_sum oc a i mod 2 ^ 32)
    ∧ (offset_sum oc a i < 2 ^ 32 → offs !! a = Some (offset_sum oc a i)).
Proof.
  intros Hwf Hdims Hsizes _ Ha.
  destruct (get_spec NARGS oc Hwf Hdims Hsizes i) as (offs & E & Hl & H).
  exists offs. split; [done |]. split; [done |].
  rewrite (H a Ha). split; [done |].
  intros Hlt. unfold wrap_u32. rewrite Z.mod_small; [done |].
  split; [| done]. apply offset_sum_upto_nonneg with (NARGS := NARGS); try done.
  lia.
Qed.

Lemma get_row_major_offsets_witness :
  ∃ offs, OffsetCalculator.get 2 oc_3x4 7 = Ok offs
    ∧ length offs = 2%nat
    ∧ offs !! 0%nat = Some (offset_sum oc_3x4 0 7 mod 2 ^ 32)
    ∧ (offset_sum oc_3x4 0 7 < 2 ^ 32
       → offs !! 0%nat = Some (offset_sum oc_3x4 0 7)).
Proof.
  apply (get_row_major_offsets 2 oc_3x4 7 0).
  - unfold oc_wf, is_u32, MAX_DIMS. simpl.
    repeat split; try lia; repeat (constructor; try (split; [done |]); try lia).
  - unfold MAX_DIMS. simpl. lia.
  - intros [|[|d]]; simpl; try discriminate. lia.
  - unfold is_u32. lia.
  - lia.
Defined.

(** On that calculator work item 7 is the coordinate (1, 2): 28 bytes into
    the contiguous operand, 8 bytes into the broadcast one. *)
Lemma get_example : OffsetCalculator.get 2 oc_3x4 7 = Ok [28; 8].
Proof. reflexivity. Qed.

(** ** Point-wise kernels *)

Section kernels.

Import pointcloud.
Local Open Scope float_scope.

(** C2. On the two points (0, 0, 0) and (2, 4, 6) the covariance matrix,
    row-major, is [1 2 3; 2 4 6; 3 6 9].  [EstimatePointWiseCovariance]
    writes [1 4 9 2 4 3 9 6 3]: the variances of y and z land in entries 1
    and 2, and [out[1] = out[3]], [out[5] = out[7]] do not hold. *)
Theorem EstimatePointWiseCovariance_layout :
  EstimatePointWiseCovariance two_points two_indices 2
  = Ok [1; 4; 9; 2; 4; 3; 9; 6; 3]
  ∧ covariance_row_major [[0; 0; 0]; [2; 4; 6]]
    = [1; 2; 3; 2; 4; 6; 3; 6; 9]
  ∧ (4 =? 2) = false ∧ (3 =? 6) = false.
Proof. repeat split; vm_compute; reflexivity. Qed.

(** The running value of [max_coeff] is always one of the entries. *)
Lemma max_coeff_of_elem (c0 : float) (rest : list float) :
  max_coeff_of c0 rest ∈ c0 :: rest.
Proof.
  unfold max_coeff_of. revert c0. induction rest as [|c rest IH]; intros c0.
  - simpl. apply list_elem_of_here.
  - simpl. destruct (c <? c0).
    + apply list_elem_of_further, IH.
    + specialize (IH c0). apply elem_of_cons in IH as [-> | IH].
      * apply list_elem_of_here.
      * by do 2 apply list_elem_of_further.
Qed.

(** On the all-zero matrix and on the identity the call returns at line
    355, whatever [acos] and [cos] are. *)
Lemma normals_early_return (acos cos : float → float) :
  EstimatePointWiseNormalsWithFastEigen3x3 acos cos cov_zero = Ok (0, 0, 0)
  ∧ EstimatePointWiseNormalsWithFastEigen3x3 acos cos cov_identity
    = Ok (0, 0, 0).
Proof. split; reflexivity. Qed.

(** C1 (as stated, refuted). On the all-zero covariance matrix the result
    is the zero vector, which is no unit normal. *)
Lemma zero_covariance_gives_zero_vector :
  EstimatePointWiseNormalsWithFastEigen3x3 unused_libm unused_libm cov_zero
  = Ok (0, 0, 0)
  ∧ is_unit (0, 0, 0) = false.
Proof. split; reflexivity. Qed.

(** C1 (amended). For every covariance buffer whose nine entries are all
    zero (of either sign), the function returns the fixed vector
    (0, 0, 0): no NaN, nothing raised, and [acos] and [cos] are not
    consulted. *)
Theorem all_zero_covariance_normal
    (acos cos : float → float) (covariance_ptr : list float) :
  (9 ≤ length covariance_ptr)%nat →
  Forall (λ c, (c =? 0) = true) (take 9 covariance_ptr) →
  EstimatePointWiseNormalsWithFastEigen3x3 acos cos covariance_ptr
  = Ok (0, 0, 0).
Proof.
  intros Hlen Hz.
  do 9 (destruct covariance_ptr as [|? covariance_ptr]; [simpl in Hlen; lia |]).
  cbn [take] in Hz. unfold EstimatePointWiseNormalsWithFastEigen3x3.
  match goal with
  | |- context [max_coeff_of ?c ?rest] =>
      pose proof (max_coeff_of_elem c rest) as Hin;
      set (max_coeff := max_coeff_of c rest) in *
  end.
  rewrite Forall_forall in Hz. by rewrite (Hz max_coeff Hin).
Qed.

Lemma all_zero_covariance_normal_witness :
  EstimatePointWiseNormalsWithFastEigen3x3 unused_libm unused_libm
    [0; -0; 0; 0; 0; -0; 0; 0; 0]
  = Ok (0, 0, 0).
Proof.
  apply (all_zero_covariance_normal unused_libm unused_libm
           [0; -0; 0; 0; 0; -0; 0; 0; 0]).
  - simpl. lia.
  - simpl. repeat constructor.
Defined.

(** A positive multiple of the identity: the running [max_coeff] drops to
    the off-diagonal 0 and the call returns at line 355 as well. *)
Lemma ltb_zero_asym (c : float) : (0 <? c) = true → (c <? 0) = false.
Proof.
  rewrite !ltb_spec. change (Prim2SF 0) with (S754_zero false).
  destruct (Prim2SF c) as [s|s| |s m e]; try destruct s; cbn; congruence.
Qed.

Lemma positive_identity_multiple_normal
    (acos cos : float → float) (c : float) :
  (0 <? c) = true →
  EstimatePointWiseNormalsWithFastEigen3x3 acos cos [c; 0; 0; 0; c; 0; 0; 0; c]
  = Ok (0, 0, 0).
Proof.
  intros H. pose proof (ltb_zero_asym c H) as H'.
  assert (max_coeff_of c [0; 0; 0; c; 0; 0; 0; c] = 0) as E.
  { unfold max_coeff_of.
    set (f := λ max_coeff c0 : float, if c0 <? max_coeff then c0 else max_coeff).
    assert (f c 0 = 0) as E1 by (unfold f; by rewrite H).
    assert (f 0 0 = 0) as E2 by reflexivity.
    assert (f 0 c = 0) as E3 by (unfold f; by rewrite H').
    cbn [fold_left]. by rewrite E1, !E2, E3, !E2, E3. }
  unfold EstimatePointWiseNormalsWithFastEigen3x3. by rewrite E.
Qed.

(** The expansion of the clamping macros, token by token, parses to the
    grouping spelled out at [clamp_half_det] and evaluates to it. *)
Lemma half_det_clamp_parse :
  parse half_det_clamp_tokens
  = Some (ECond (EGt (EVar "half_det") (ENeg (ENum 1)))
            (EVar "half_det")
            (ECond (ELt (ENeg (ENum 1)) (ENum 1))
               (ECond (EGt (EVar "half_det") (ENeg (ENum 1)))
                  (EVar "half_det") (ENeg (ENum 1)))
               (ENum 1))).
Proof. vm_compute. reflexivity. Qed.

Lemma half_det_clamp_eval (h : float) :
  (λ e, eval (λ _, h) e) <$> parse half_det_clamp_tokens
  = Some (clamp_half_det h).
Proof.
  rewrite half_det_clamp_parse. cbn [fmap option_fmap option_map eval].
  f_equal. unfold clamp_half_det.
  change (- (1))%float with (-1)%float.
  destruct (-1 <? h); reflexivity.
Qed.

(** What the code writes mirrors entries 1/4, 2/6 and 5/8. *)
Lemma EstimatePointWiseCovariance_mirrors
    (points_ptr : list float) (indices_ptr : list Z) (indices_size : Z)
    (out : list float) :
  EstimatePointWiseCovariance points_ptr indices_ptr indices_size = Ok out →
  length out = 9%nat
  ∧ out !! 1%nat = out !! 4%nat
  ∧ out !! 2%nat = out !! 6%nat
  ∧ out !! 5%nat = out !! 8%nat.
Proof.
  unfold EstimatePointWiseCovariance. intros H.
  apply bind_Ok in H as (cumulants & _ & H).
  destruct (_ <$> cumulants) as [|c0 [|c1 [|c2 [|c3 [|c4 [|c5 [|c6 [|c7
    [|c8 [|]]]]]]]]]]; try discriminate.
  injection H as <-. done.
Qed.

(** The expanded clamping expression only bounds from below. *)
Lemma clamp_half_det_is_max (h : float) :
  clamp_half_det h = if -1 <? h then h else -1.
Proof. unfold clamp_half_det. by destruct (-1 <? h). Qed.

(** When the call reaches [acos], it is inside [trig_branch], with the
    argument that [trig_prelude] computed. *)
Lemma acos_argument_reached
    (acos cos : float → float) (covariance_ptr : list float) (h : float) :
  acos_argument covariance_ptr = Ok (Some h) →
  ∃ A norm q p,
    EstimatePointWiseNormalsWithFastEigen3x3 acos cos covariance_ptr
    = trig_branch acos cos A norm
    ∧ trig_prelude A norm = Ok (q, p, h).
Proof.
  unfold acos_argument, EstimatePointWiseNormalsWithFastEigen3x3.
  do 9 (destruct covariance_ptr as [|? covariance_ptr]; [discriminate |]).
  destruct (_ =? 0); [discriminate |].
  cbn [fmap list_fmap].
  match goal with |- context [if ?b then _ else _] => destruct b end;
    [| discriminate].
  intros H. apply bind_Ok in H as ([[q p] h'] & E & H). injection H as ->.
  do 4 eexists. split; [reflexivity | exact E].
Qed.

(** C3. On the covariance [3 I + 5 J] the call takes the trigonometric
    branch and hands [acos] the value 1 + 2^-51, which is above 1; clamping
    to [-1, 1] would have given 1. *)
Theorem acos_argument_above_one :
  acos_argument cov_repeated = Ok (Some 0x1.0000000000002p+0)
  ∧ (1 <? 0x1.0000000000002p+0) = true
  ∧ clamp_intended 0x1.0000000000002p+0 = 1.
Proof. repeat split; vm_compute; reflexivity. Qed.

(** The diagonal branch has two outcomes only. *)
Lemma diagonal_branch_cases (c0 c4 c8 : float) :
  diagonal_branch c0 c4 c8 = (1, 0, 0) ∨ diagonal_branch c0 c4 c8 = (0, 0, 1).
Proof. unfold diagonal_branch. destruct (_ && _); auto. Qed.

(** C4. The buffer [diag(-1, -2, -1)] has a non-zero minimum and no
    off-diagonal part, so the call takes the diagonal branch; its smallest
    diagonal entry is entry 4, and the normal returned is (0, 0, 1), not
    (0, 1, 0). *)
Theorem diagonal_fallback_misses_middle_axis (acos cos : float → float) :
  EstimatePointWiseNormalsWithFastEigen3x3 acos cos cov_diagonal
  = Ok (diagonal_branch (-1) (-2) (-1))
  ∧ diagonal_branch (-1) (-2) (-1) = (0, 0, 1)
  ∧ max_coeff_of (-1) [0; 0; 0; -2; 0; 0; 0; -1] = -2
  ∧ acos_argument cov_diagonal = Ok None
  ∧ (-2 <? -1) = true.
Proof. repeat split; vm_compute; reflexivity. Qed.

End kernels.

(** ** Depth unprojection *)

Section Unproject_facts.

Import pointcloud.

Variables scalar_t F : Type.
Variable scaled : scalar_t → F → F.
Variable Fzero : F.
Variable Flt : F → F → bool.
Variable ti_vertex : Z → Z → F → F * F * F.

Variable depth : image scalar_t.
Variable image_colors : option (image (F * F * F)).
Variables depth_scale depth_max : F.
Variable stride : Z.

Hypothesis Hstride : 1 ≤ stride.
Hypothesis Hdepth : image_wf depth.
Hypothesis Hcolors :
  ∀ imcol, image_colors = Some imcol →
           image_wf imcol ∧ rows imcol = rows depth ∧ cols imcol = cols depth.

Let rs : Z := rows depth `quot` stride.
Let cs : Z := cols depth `quot` stride.
Let n : Z := rs * cs.
Let valid (xy : Z * Z) : Prop :=
  in_range scaled Fzero Flt depth depth_scale depth_max xy = true.
Let vertex : Z * Z → option (F * F * F) :=
  vertex_of scaled ti_vertex depth depth_scale.
Let pixel : Z → Z * Z := pixel_of depth stride.

Hypothesis Hn : n ≤ INT_MAX.

Lemma strided_counts : 0 ≤ rs ∧ 0 ≤ cs ∧ rs * stride ≤ rows depth
                       ∧ cs * stride ≤ cols depth.
Proof.
  destruct Hdepth as (Hr & Hc & _). unfold rs, cs.
  rewrite !Z.quot_div_nonneg by lia.
  pose proof (Z.mul_div_le (rows depth) stride ltac:(lia)).
  pose proof (Z.mul_div_le (cols depth) stride ltac:(lia)).
  pose proof (Z.div_pos (rows depth) stride ltac:(lia) ltac:(lia)).
  pose proof (Z.div_pos (cols depth) stride ltac:(lia) ltac:(lia)).
  lia.
Qed.

(** Work item [w] looks at a pixel of the image. *)
Lemma pixel_bounds (w : Z) :
  0 ≤ w < n →
  0 < cs ∧ 0 ≤ w `quot` cs < rs ∧ 0 ≤ w `rem` cs < cs
  ∧ 0 ≤ (pixel w).1 < cols depth ∧ 0 ≤ (pixel w).2 < rows depth.
Proof.
  intros Hw. destruct strided_counts as (Hrs & Hcs & Hrl & Hcl).
  assert (0 < cs) as Hpos by (unfold n in Hw; nia).
  rewrite Z.quot_div_nonneg, Z.rem_mod_nonneg by lia.
  pose proof (Z.mod_pos_bound w cs Hpos) as Hm.
  pose proof (Z.div_pos w cs ltac:(lia) Hpos) as Hq.
  assert (w / cs < rs) as Hq'.
  { apply Z.div_lt_upper_bound; [lia |]. unfold n in Hw. lia. }
  unfold pixel, pixel_of. fold cs. simpl.
  rewrite Z.quot_div_nonneg, Z.rem_mod_nonneg by lia.
  repeat split; try lia; nia.
Qed.

(** The work items, in order, enumerate the strided grid row by row. *)
Lemma workloads_enumerate :
  pixel <$> workloads depth stride = strided_pixels depth stride.
Proof.
  destruct strided_counts as (Hrs & Hcs & _ & _).
  unfold workloads, strided_pixels. fold rs cs.
  assert (∀ k : nat,
    pixel <$> seqZ 0 (Z.of_nat k * cs)
    = seqZ 0 (Z.of_nat k) ≫= λ y, seqZ 0 cs ≫= λ x, [(x * stride, y * stride)])
    as H.
  { induction k as [|k IH].
    - done.
    - replace (Z.of_nat (S k) * cs) with (Z.of_nat k * cs + cs) by lia.
      rewrite seqZ_app by lia. rewrite fmap_app, IH, seqZ_S, bind_app.
      f_equal. simpl. rewrite app_nil_r. rewrite !Z.add_0_l.
      rewrite <- (Z.add_0_r (Z.of_nat k * cs)) at 1.
      rewrite <- fmap_add_seqZ, <- list_fmap_compose.
      assert (∀ l : list Z, Forall (λ x, 0 ≤ x < cs) l →
        pixel ∘ Z.add (Z.of_nat k * cs) <$> l
        = l ≫= λ x, [(x * stride, Z.of_nat k * stride)]) as Hrow.
      { induction 1 as [|x l Hx _ IHl]; [done |].
        rewrite fmap_cons, IHl, bind_cons. cbn [app]. f_equal.
        unfold compose, pixel, pixel_of. fold cs.
        rewrite Z.quot_div_nonneg, Z.rem_mod_nonneg by lia.
        rewrite (Z.add_comm _ x), Z.mod_add, Z.div_add by lia.
        rewrite Z.mod_small, Z.div_small by lia. done. }
      apply Hrow. apply Forall_seqZ. lia. }
  specialize (H (Z.to_nat rs)). by rewrite Z2Nat.id in H by lia.
Qed.

Lemma GetDataPtr_in_bounds {A} (im : image A) (x y : Z) :
  image_wf im → 0 ≤ x < cols im → 0 ≤ y < rows im →
  ∃ v, data im !! Z.to_nat (y * cols im + x) = Some v
       ∧ GetDataPtr im x y = Ok v.
Proof.
  intros (Hr & Hc & Hsize & Hlen) Hx Hy.
  assert (0 ≤ y * cols im ∧ y * cols im + x < rows im * cols im) as [? ?]
    by nia.
  destruct (lookup_lt_is_Some_2 (data im) (Z.to_nat (y * cols im + x)))
    as [v Hv]; [lia |].
  exists v. split; [done |]. unfold GetDataPtr.
  assert (∀ z, 0 ≤ z < 2 ^ 63 → wrap_i64 z = z) as Hwrap.
  { intros z Hz. unfold wrap_i64, wrap_signed.
    rewrite Z.mod_small; [lia |].
    change (2 ^ (64 - 1)) with (2 ^ 63). change (2 ^ 64) with (2 * 2 ^ 63).
    lia. }
  rewrite (Hwrap (y * cols im)) by lia.
  rewrite Hwrap by lia. apply index_Ok. split; [lia | done].
Qed.

(** One work item, run on a state with room for one more point. *)
Lemma kernel_step (w count : Z) (points colors : rows_t F) :
  0 ≤ w < n → 0 ≤ count < n →
  length points = Z.to_nat n →
  (is_Some image_colors → length colors = Z.to_nat n) →
  (¬ valid (pixel w)
   ∧ kernel scaled Fzero Flt ti_vertex depth image_colors depth_scale
       depth_max stride cs w (count, points, colors)
     = Ok (count, points, colors))
  ∨ (valid (pixel w)
     ∧ ∃ colors', length colors' = length colors
       ∧ kernel scaled Fzero Flt ti_vertex depth image_colors depth_scale
           depth_max stride cs w (count, points, colors)
         = Ok (count + 1, <[Z.to_nat count := vertex (pixel w)]> points,
               colors')).
Proof.
  intros Hw Hcount Hpoints Hcol.
  destruct (pixel_bounds w Hw) as (Hcs & Hq & Hr & Hx & Hy).
  destruct strided_counts as (Hrs & _ & Hrl & Hcl).
  destruct Hdepth as (Hrows & Hcols & Hsize & Hlen).
  assert (∀ z, 0 ≤ z < 2 ^ 63 → wrap_i64 z = z) as Hwrap.
  { intros z Hz. unfold wrap_i64, wrap_signed.
    rewrite Z.mod_small; [lia |].
    change (2 ^ (64 - 1)) with (2 ^ 63). change (2 ^ 64) with (2 * 2 ^ 63).
    lia. }
  unfold pixel, pixel_of in Hx, Hy. fold cs in Hx, Hy. simpl in Hx, Hy.
  unfold kernel.
  unfold div_i64, rem_i64. rewrite !decide_False by (unfold INT64_MIN; lia).
  cbn [bind].
  rewrite (Hwrap (w `quot` cs * stride)) by nia.
  rewrite (Hwrap (w `rem` cs * stride)) by nia.
  destruct (GetDataPtr_in_bounds depth (w `rem` cs * stride)
              (w `quot` cs * stride)) as (px & Hpx & ->); [done.. |].
  cbn [bind].
  assert (in_range scaled Fzero Flt depth depth_scale depth_max (pixel w)
          = Flt Fzero (scaled px depth_scale)
            && Flt (scaled px depth_scale) depth_max) as Hin.
  { unfold in_range, pixel, pixel_of. fold cs. simpl. by rewrite Hpx. }
  assert (vertex (pixel w)
          = Some (ti_vertex (w `rem` cs * stride) (w `quot` cs * stride)
                    (scaled px depth_scale))) as Hv.
  { unfold vertex, vertex_of, pixel, pixel_of. fold cs. simpl.
    by rewrite Hpx. }
  unfold valid. rewrite Hin.
  destruct (Flt Fzero (scaled px depth_scale)
            && Flt (scaled px depth_scale) depth_max).
  2:{ left. split; [discriminate | done]. }
  right. split; [done |].
  assert (wrap_i32 (count + 1) = count + 1) as ->.
  { unfold wrap_i32, wrap_signed, INT_MAX in *.
    change (2 ^ (32 - 1)) with 2147483648 in *.
    change (2 ^ 32) with 4294967296. change (2 ^ 31) with 2147483648 in *.
    rewrite Z.mod_small; lia. }
  rewrite store_Ok by lia. cbn [bind]. rewrite Hv.
  destruct image_colors as [imcol|] eqn:Eimcol.
  - destruct (Hcolors imcol eq_refl) as (Hwf & Hrc & Hcc).
    destruct (GetDataPtr_in_bounds imcol (w `rem` cs * stride)
                (w `quot` cs * stride)) as (c & _ & ->);
      [done | lia | lia |].
    cbn [bind]. rewrite store_Ok by (rewrite Hcol by done; lia). cbn [bind].
    eexists. split; [| done]. by rewrite length_insert.
  - eexists. split; done.
Qed.

(** The state after the work items [done_] have run. *)
Lemma launch_spec (sched : list Z) :
  sched ≡ₚ workloads depth stride →
  ∃ colors,
    LaunchGeneralKernel sched
      (kernel scaled Fzero Flt ti_vertex depth image_colors depth_scale
         depth_max stride cs)
      (0, replicate (Z.to_nat n) None,
       if bool_decide (is_Some image_colors)
       then replicate (Z.to_nat n) None else [])
    = Ok (Z.of_nat (length (filter valid (pixel <$> sched))),
          (vertex <$> filter valid (pixel <$> sched))
            ++ replicate (Z.to_nat n - length (filter valid (pixel <$> sched)))
                 None,
          colors).
Proof.
  intros Hperm.
  assert (length sched = Z.to_nat n) as Hslen.
  { rewrite Hperm. unfold workloads. by rewrite length_seqZ. }
  assert (∀ w, w ∈ sched → 0 ≤ w < n) as Hsin.
  { intros w. rewrite Hperm. unfold workloads. rewrite elem_of_seqZ.
    fold rs cs n. lia. }
  unfold LaunchGeneralKernel.
  destruct (for_each_inv
    (λ done_ (st : kstate F),
       let vs := filter valid (pixel <$> done_) in
       st.1.1 = Z.of_nat (length vs)
       ∧ st.1.2 = (vertex <$> vs) ++ replicate (Z.to_nat n - length vs) None
       ∧ (is_Some image_colors → length st.2 = Z.to_nat n))
    (kernel scaled Fzero Flt ti_vertex depth image_colors depth_scale
       depth_max stride cs)
    sched
    (0, replicate (Z.to_nat n) None,
     if bool_decide (is_Some image_colors)
     then replicate (Z.to_nat n) None else []))
    as ([[count points] colors] & E & Hc & Hp & _).
  - simpl. rewrite Nat.sub_0_r. split; [done |]. split; [done |].
    intros Hsome. rewrite bool_decide_eq_true_2 by done.
    by rewrite length_replicate.
  - intros done_ w [[count points] colors] [rest Hsched] (Hc & Hp & Hcol).
    simpl in Hc, Hp, Hcol.
    set (vs := filter valid (pixel <$> done_)) in *.
    assert (length vs ≤ length done_)%nat as Hvl.
    { unfold vs. etrans; [apply length_filter |]. by rewrite length_fmap. }
    assert (length done_ < Z.to_nat n)%nat as Hdl.
    { rewrite <- Hslen, Hsched, length_app. simpl. lia. }
    assert (0 ≤ w < n) as Hw.
    { apply Hsin. rewrite Hsched, elem_of_app, elem_of_cons. auto. }
    destruct (kernel_step w count points colors) as
      [[Hnv ->] | (Hv & colors' & Hcl & ->)].
    + done.
    + lia.
    + subst points. rewrite length_app, length_fmap, length_replicate. lia.
    + done.
    + eexists. split; [done |]. simpl.
      rewrite fmap_app, filter_app. simpl.
      rewrite filter_cons_False by done. rewrite filter_nil, app_nil_r.
      done.
    + eexists. split; [done |]. simpl.
      rewrite fmap_app, filter_app. simpl.
      rewrite filter_cons_True by done. rewrite filter_nil.
      fold vs. rewrite length_app. simpl.
      split; [lia |]. split; [| intros; rewrite Hcl; auto].
      subst points count. rewrite fmap_app, <- app_assoc. simpl.
      rewrite Nat2Z.id.
      unfold rows_t.
      rewrite insert_app_r_alt by (by rewrite length_fmap).
      rewrite length_fmap, Nat.sub_diag.
      replace (Z.to_nat n - length vs)%nat
        with (S (Z.to_nat n - (length vs + 1)))%nat by lia.
      done.
  - exists colors. rewrite E. simpl in Hc, Hp. by subst.
Qed.

End Unproject_facts.

(** C7. For every depth image, [depth_scale], [depth_max] and stride (a
    positive stride; a rectangular image whose strided grid has at most
    [INT_MAX] pixels; a colour image, when given, of the same shape), and
    for every order in which the work items take effect, [UnprojectCPU]
    returns, and the sliced [points] tensor has exactly one row per pixel
    of the strided grid whose depth divided by [depth_scale] lies strictly
    between 0 and [depth_max]: its rows are the vertices of those pixels,
    in some order, and nothing else. *)
Theorem UnprojectCPU_row_count
    (scalar_t F : Type) (scaled : scalar_t → F → F) (Fzero : F)
    (Flt : F → F → bool) (ti_vertex : Z → Z → F → F * F * F)
    (sched : list Z) (depth : pointcloud.image scalar_t)
    (image_colors : option (pointcloud.image (F * F * F)))
    (depth_scale depth_max : F) (stride : Z) :
  1 ≤ stride →
  pointcloud.image_wf depth →
  (∀ imcol, image_colors = Some imcol →
            pointcloud.image_wf imcol
            ∧ pointcloud.rows imcol = pointcloud.rows depth
            ∧ pointcloud.cols imcol = pointcloud.cols depth) →
  (pointcloud.rows depth `quot` stride) * (pointcloud.cols depth `quot` stride)
  ≤ INT_MAX →
  sched ≡ₚ pointcloud.workloads depth stride →
  let valid xy :=
    pointcloud.in_range scaled Fzero Flt depth depth_scale depth_max xy = true in
  ∃ points colors,
    pointcloud.UnprojectCPU scaled Fzero Flt ti_vertex sched depth image_colors
      depth_scale depth_max stride
    = Ok (points, colors)
    ∧ length points
      = length (filter valid (pointcloud.strided_pixels depth stride))
    ∧ points ≡ₚ pointcloud.vertex_of scaled ti_vertex depth depth_scale
                  <$> filter valid (pointcloud.strided_pixels depth stride).
Proof.
  intros Hstride Hdepth Hcolors Hn Hperm valid.
  destruct (strided_counts scalar_t depth stride Hstride Hdepth)
    as (Hrs & Hcs & _ & _).
  destruct (launch_spec scalar_t F scaled Fzero Flt ti_vertex depth image_colors
              depth_scale depth_max stride Hstride Hdepth Hcolors Hn sched Hperm)
    as (colors & E).
  set (n := (pointcloud.rows depth `quot` stride)
            * (pointcloud.cols depth `quot` stride)) in *.
  set (vs := filter valid
               (pointcloud.pixel_of depth stride <$> sched)).
  assert (vs ≡ₚ filter valid (pointcloud.strided_pixels depth stride)) as Hvs.
  { unfold vs. rewrite Hperm.
    by rewrite (workloads_enumerate scalar_t depth stride Hstride Hdepth). }
  exists (pointcloud.vertex_of scaled ti_vertex depth depth_scale <$> vs).
  eexists. split; [| split].
  - unfold pointcloud.UnprojectCPU.
    unfold div_i64. rewrite !decide_False by (unfold INT64_MIN; lia).
    cbn [bind]. fold n.
    assert (wrap_i64 n = n) as ->.
    { unfold wrap_i64, wrap_signed, INT_MAX in *.
      change (2 ^ (64 - 1)) with 9223372036854775808.
      change (2 ^ 64) with 18446744073709551616.
      change (2 ^ 31) with 2147483648 in Hn.
      rewrite Z.mod_small; [lia |]. unfold n. nia. }
    match type of E with
    | ?l = _ => match goal with |- bind ?x _ = _ => change x with l end
    end.
    rewrite E. cbn [bind]. f_equal. f_equal.
    unfold pointcloud.Slice. rewrite Nat2Z.id.
    apply take_app_length'. by rewrite length_fmap.
  - rewrite length_fmap. by rewrite Hvs.
  - by rewrite Hvs.
Qed.

Lemma UnprojectCPU_row_count_witness :
  let valid xy :=
    pointcloud.in_range scaled_double 0%float PrimFloat.ltb depth_2x2
      1%float 10%float xy = true in
  ∃ points colors,
    pointcloud.UnprojectCPU scaled_double 0%float PrimFloat.ltb vertex_pinhole
      sched_2x2 depth_2x2 None 1%float 10%float 1
    = Ok (points, colors)
    ∧ length points
      = length (filter valid (pointcloud.strided_pixels depth_2x2 1))
    ∧ points ≡ₚ pointcloud.vertex_of scaled_double vertex_pinhole depth_2x2
                  1%float
                  <$> filter valid (pointcloud.strided_pixels depth_2x2 1).
Proof.
  apply (UnprojectCPU_row_count float float scaled_double 0%float PrimFloat.ltb
           vertex_pinhole sched_2x2 depth_2x2 None 1%float 10%float 1).
  - lia.
  - unfold pointcloud.image_wf, depth_2x2.
    cbn [pointcloud.rows pointcloud.cols pointcloud.data length]. lia.
  - intros imcol H. discriminate.
  - vm_compute. discriminate.
  - change (pointcloud.workloads depth_2x2 1) with [0; 1; 2; 3].
    unfold sched_2x2. solve_Permutation.
Defined.

(** On that image the pixels at depths 5 and 3 survive: two rows. *)
Lemma UnprojectCPU_example :
  pointcloud.UnprojectCPU scaled_double 0%float PrimFloat.ltb vertex_pinhole
    sched_2x2 depth_2x2 None 1%float 10%float 1
  = Ok ([Some (0, 0, 5); Some (3, 3, 3)]%float, None).
Proof. vm_compute. reflexivity. Qed.

(** * Further properties of Indexer.h *)

(** ** TensorRef: construction and comparison *)

Lemma wrap_i64_small (z : Z) : - 2 ^ 63 ≤ z < 2 ^ 63 → wrap_i64 z = z.
Proof.
  intros H. unfold wrap_i64, wrap_signed.
  change (2 ^ (64 - 1)) with (2 ^ 63). change (2 ^ 64) with (2 * 2 ^ 63).
  rewrite Z.mod_small; lia.
Qed.

(** Overwriting entry [i] of an array whose first [i] entries are already
    those of [new]. *)
Lemma store_prefix (new old : list Z) (i : Z) (v : Z) :
  0 ≤ i < Z.of_nat (length old) →
  new !! Z.to_nat i = Some v →
  store (take (Z.to_nat i) new ++ drop (Z.to_nat i) old) i v
  = Ok (take (Z.to_nat (i + 1)) new ++ drop (Z.to_nat (i + 1)) old).
Proof.
  intros Hi Hv. pose proof (lookup_lt_Some _ _ _ Hv) as Hlt.
  rewrite store_Ok.
  2:{ rewrite length_app, length_take, length_drop. lia. }
  f_equal.
  destruct (lookup_lt_is_Some_2 old (Z.to_nat i)) as [y Hy]; [lia |].
  replace (Z.to_nat (i + 1)) with (S (Z.to_nat i)) by lia.
  rewrite (take_S_r _ _ _ Hv), (drop_S _ _ _ Hy), <- app_assoc.
  rewrite insert_app_r_alt by (rewrite length_take; lia).
  rewrite length_take.
  replace (Z.to_nat i - Z.to_nat i `min` length new)%nat with 0%nat by lia.
  done.
Qed.

(** The copying loop of [TensorRef(t)] for a tensor of at most [MAX_DIMS]
    dimensions. *)
Lemma of_Tensor_Ok (uninit_shape uninit_strides : list Z) (tn : Tensor.t) :
  Z.of_nat (length uninit_shape) = MAX_DIMS →
  Z.of_nat (length uninit_strides) = MAX_DIMS →
  length (Tensor.strides tn) = length (Tensor.shape tn) →
  Tensor.NumDims tn ≤ MAX_DIMS →
  let r :=
    TensorRef.mk (Tensor.data_ptr tn) (Tensor.NumDims tn)
      (Tensor.byte_size tn)
      (Tensor.shape tn ++ drop (length (Tensor.shape tn)) uninit_shape)
      (((λ st, wrap_i64 (st * Tensor.byte_size tn)) <$> Tensor.strides tn)
         ++ drop (length (Tensor.shape tn)) uninit_strides) in
  TensorRef.of_Tensor uninit_shape uninit_strides tn = Ok r
  ∧ TensorRef.wf r.
Proof.
  intros Hus Hut Hlen Hd. unfold TensorRef.of_Tensor.
  rewrite decide_False by lia. cbv zeta.
  unfold Tensor.NumDims, MAX_DIMS in *.
  set (sh := Tensor.shape tn) in *.
  set (bs := (λ st, wrap_i64 (st * Tensor.byte_size tn)) <$> Tensor.strides tn).
  destruct (for_range_inv
    (λ i (st : list Z * list Z),
       st.1 = take (Z.to_nat i) sh ++ drop (Z.to_nat i) uninit_shape
       ∧ st.2 = take (Z.to_nat i) bs ++ drop (Z.to_nat i) uninit_strides)
    (fun i '(shape, byte_strides) =>
       let* s := index sh i in
       let* shape' := store shape i s in
       let* st := index (Tensor.strides tn) i in
       let* byte_strides' :=
         store byte_strides i (wrap_i64 (st * Tensor.byte_size tn)) in
       Ok (shape', byte_strides'))
    (Z.of_nat (length sh)) (uninit_shape, uninit_strides))
    as ([shape byte_strides] & E & H1 & H2).
  - lia.
  - done.
  - intros i [shape byte_strides] Hi [H1 H2]. simpl in H1, H2. subst.
    destruct (lookup_lt_is_Some_2 sh (Z.to_nat i)) as [s Hs]; [lia |].
    destruct (lookup_lt_is_Some_2 (Tensor.strides tn) (Z.to_nat i))
      as [st Hst]; [lia |].
    rewrite (proj2 (index_Ok sh i s)) by (split; [lia | done]). cbn [bind].
    rewrite store_prefix by (done || lia). cbn [bind].
    rewrite (proj2 (index_Ok _ i st)) by (split; [lia | done]). cbn [bind].
    rewrite store_prefix; [| lia |].
    2:{ unfold bs. by rewrite list_lookup_fmap, Hst. }
    cbn [bind]. eauto.
  - rewrite E. simpl in H1, H2. subst shape byte_strides. cbn [bind].
    rewrite Nat2Z.id. rewrite !firstn_all2 by (unfold bs; rewrite ?length_fmap; lia).
    split; [done |].
    unfold TensorRef.wf, MAX_DIMS. simpl.
    rewrite !length_app, !length_drop. unfold bs. rewrite length_fmap. lia.
Qed.

(** X1. [TensorRef(t)] raises when [t] has more than [MAX_DIMS]
    dimensions; otherwise it copies the shape, scales each stride by the
    element size (in [int64_t]) and leaves the entries from [ndims_] on as
    they were. *)
Theorem of_Tensor_spec (uninit_shape uninit_strides : list Z) (tn : Tensor.t) :
  Z.of_nat (length uninit_shape) = MAX_DIMS →
  Z.of_nat (length uninit_strides) = MAX_DIMS →
  length (Tensor.strides tn) = length (Tensor.shape tn) →
  if decide (Tensor.NumDims tn > MAX_DIMS)
  then TensorRef.of_Tensor uninit_shape uninit_strides tn
       = Raise (LogError "Tenor has too many dimensions {} > {}."
                  [Tensor.NumDims tn; MAX_DIMS])
  else
    let r :=
      TensorRef.mk (Tensor.data_ptr tn) (Tensor.NumDims tn)
        (Tensor.byte_size tn)
        (Tensor.shape tn ++ drop (length (Tensor.shape tn)) uninit_shape)
        (((λ st, wrap_i64 (st * Tensor.byte_size tn)) <$> Tensor.strides tn)
           ++ drop (length (Tensor.shape tn)) uninit_strides) in
    TensorRef.of_Tensor uninit_shape uninit_strides tn = Ok r
    ∧ TensorRef.wf r.
Proof.
  intros Hus Hut Hlen. case_decide as Hd.
  - unfold TensorRef.of_Tensor. by rewrite decide_True.
  - apply of_Tensor_Ok; (done || lia).
Qed.

Lemma of_Tensor_spec_witness :
  let r :=
    TensorRef.mk 4096 3 4 [2; 3; 4; 7; 7; 7; 7; 7; 7; 7]
      [48; 16; 4; 6; 5; 4; 3; 2; 1; 0] in
  TensorRef.of_Tensor junk_a junk_b tensor_2x3x4 = Ok r ∧ TensorRef.wf r.
Proof.
  apply (of_Tensor_spec junk_a junk_b tensor_2x3x4); reflexivity.
Defined.

(** The loop of [operator==] on two sized references, started with [rc]. *)
Lemma equal_loop (r o : TensorRef.t) (rc : bool) :
  TensorRef.sized r → TensorRef.sized o →
  TensorRef.ndims_ r ≤ MAX_DIMS →
  ∃ b, for_range (TensorRef.ndims_ r) (TensorRef.equal_step r o) rc = Ok b
    ∧ (b = true ↔
       rc = true
       ∧ take (Z.to_nat (TensorRef.ndims_ r)) (TensorRef.shape_ r)
         = take (Z.to_nat (TensorRef.ndims_ r)) (TensorRef.shape_ o)
       ∧ take (Z.to_nat (TensorRef.ndims_ r)) (TensorRef.byte_strides_ r)
         = take (Z.to_nat (TensorRef.ndims_ r)) (TensorRef.byte_strides_ o)).
Proof.
  intros [Hrs Hrb] [Hos Hob] Hn. unfold MAX_DIMS in *.
  destruct (decide (TensorRef.ndims_ r < 0)) as [Hneg | Hpos].
  { exists rc. unfold for_range.
    replace (Z.to_nat (TensorRef.ndims_ r)) with 0%nat by lia.
    split; [done |]. rewrite !take_0. intuition. }
  apply (for_range_inv
    (λ i (b : bool),
       b = true ↔
       rc = true
       ∧ take (Z.to_nat i) (TensorRef.shape_ r)
         = take (Z.to_nat i) (TensorRef.shape_ o)
       ∧ take (Z.to_nat i) (TensorRef.byte_strides_ r)
         = take (Z.to_nat i) (TensorRef.byte_strides_ o))).
  - lia.
  - simpl. intuition.
  - intros i b Hi Hb.
    destruct (lookup_lt_is_Some_2 (TensorRef.shape_ r) (Z.to_nat i))
      as [a1 Ha1]; [lia |].
    destruct (lookup_lt_is_Some_2 (TensorRef.shape_ o) (Z.to_nat i))
      as [a2 Ha2]; [lia |].
    destruct (lookup_lt_is_Some_2 (TensorRef.byte_strides_ r) (Z.to_nat i))
      as [b1 Hb1]; [lia |].
    destruct (lookup_lt_is_Some_2 (TensorRef.byte_strides_ o) (Z.to_nat i))
      as [b2 Hb2]; [lia |].
    replace (Z.to_nat (i + 1)) with (S (Z.to_nat i)) by lia.
    rewrite (take_S_r _ _ _ Ha1), (take_S_r _ _ _ Ha2),
      (take_S_r _ _ _ Hb1), (take_S_r _ _ _ Hb2).
    unfold TensorRef.equal_step.
    rewrite (proj2 (index_Ok _ i a1)) by (split; [lia | done]).
    rewrite (proj2 (index_Ok _ i a2)) by (split; [lia | done]).
    rewrite (proj2 (index_Ok _ i b1)) by (split; [lia | done]).
    rewrite (proj2 (index_Ok _ i b2)) by (split; [lia | done]).
    destruct b; cbn [bind].
    + destruct (proj1 Hb eq_refl) as (-> & E1 & E2). rewrite E1, E2.
      destruct (decide (a1 = a2)) as [-> | Hne].
      * rewrite bool_decide_eq_true_2 by done.
        eexists. split; [done |]. rewrite bool_decide_eq_true.
        split; [intros ->; done |]. intros (_ & _ & H).
        by apply app_inj_1 in H as [_ [= ->]].
      * rewrite bool_decide_eq_false_2 by done.
        eexists. split; [done |]. split; [done |]. intros (_ & H & _).
        apply app_inj_1 in H as [_ [= ->]]; done.
    + eexists. split; [done |]. split; [done |]. intros (Hrc & H1 & H2).
      apply app_inj_1 in H1 as [H1 _]; [| by rewrite !length_take; lia].
      apply app_inj_1 in H2 as [H2 _]; [| by rewrite !length_take; lia].
      apply Hb. done.
Qed.

Lemma equal_true_iff (r o : TensorRef.t) :
  TensorRef.sized r → TensorRef.sized o →
  TensorRef.ndims_ r ≤ MAX_DIMS →
  TensorRef.equal r o = Ok true ↔ same_view r o.
Proof.
  intros Hr Ho Hn. unfold TensorRef.equal.
  destruct (equal_loop r o
    (true && bool_decide (TensorRef.data_ptr_ r = TensorRef.data_ptr_ o)
     && bool_decide (TensorRef.ndims_ r = TensorRef.ndims_ o)
     && bool_decide
          (TensorRef.dtype_byte_size_ r = TensorRef.dtype_byte_size_ o))
    Hr Ho Hn) as (b & E & Hb).
  cbv zeta. rewrite E.
  assert (Ok b = Ok true ↔ b = true) as -> by (split; congruence).
  rewrite Hb. unfold same_view.
  rewrite !andb_true_iff, !bool_decide_eq_true. intuition.
Qed.

(** X2. On references whose arrays have their declared size, [operator==]
    returns normally, and returns [true] exactly when pointer, rank and
    element size agree and so do the extents and byte strides of the first
    [ndims_] axes: what the arrays hold from [ndims_] on plays no part.
    [operator!=] is its negation. *)
Theorem equal_spec (r o : TensorRef.t) :
  TensorRef.sized r → TensorRef.sized o →
  TensorRef.ndims_ r ≤ MAX_DIMS →
  ∃ b, TensorRef.equal r o = Ok b
       ∧ TensorRef.not_equal r o = Ok (negb b)
       ∧ (b = true ↔ same_view r o).
Proof.
  intros Hr Ho Hn. unfold TensorRef.not_equal, TensorRef.equal.
  destruct (equal_loop r o
    (true && bool_decide (TensorRef.data_ptr_ r = TensorRef.data_ptr_ o)
     && bool_decide (TensorRef.ndims_ r = TensorRef.ndims_ o)
     && bool_decide
          (TensorRef.dtype_byte_size_ r = TensorRef.dtype_byte_size_ o))
    Hr Ho Hn) as (b & E & Hb).
  exists b. cbv zeta. rewrite E. split; [done |]. split; [done |].
  rewrite Hb. unfold same_view.
  rewrite !andb_true_iff, !bool_decide_eq_true. intuition.
Qed.

Lemma equal_spec_witness :
  ∃ b, TensorRef.equal ref_2x3 out_1x3 = Ok b
       ∧ TensorRef.not_equal ref_2x3 out_1x3 = Ok (negb b)
       ∧ (b = true ↔ same_view ref_2x3 out_1x3).
Proof.
  apply (equal_spec ref_2x3 out_1x3).
  - split; reflexivity.
  - split; reflexivity.
  - unfold MAX_DIMS. simpl. lia.
Defined.

Lemma same_view_sym (r o : TensorRef.t) : same_view r o → same_view o r.
Proof. intros (? & Hn & ? & ? & ?). unfold same_view. rewrite <- Hn. done. Qed.

Lemma same_view_trans (r o u : TensorRef.t) :
  same_view r o → same_view o u → same_view r u.
Proof.
  intros (? & Hn & ? & ? & ?) (? & ? & ? & ? & ?). unfold same_view in *.
  rewrite <- Hn in *. repeat split; congruence.
Qed.

(** X3. On well-formed references [operator==] is an equivalence: every
    reference equals itself, and equality is symmetric and transitive. *)
Theorem equal_equivalence (r o u : TensorRef.t) :
  TensorRef.wf r → TensorRef.wf o → TensorRef.wf u →
  TensorRef.equal r r = Ok true
  ∧ (TensorRef.equal r o = Ok true → TensorRef.equal o r = Ok true)
  ∧ (TensorRef.equal r o = Ok true → TensorRef.equal o u = Ok true →
     TensorRef.equal r u = Ok true).
Proof.
  intros (Hrn & Hr) (Hon & Ho) (Hun & Hu).
  rewrite !equal_true_iff by (done || lia). split; [done |]. split.
  - apply same_view_sym.
  - apply same_view_trans.
Qed.

Lemma equal_equivalence_witness :
  TensorRef.equal ref_2x3 ref_2x3 = Ok true
  ∧ (TensorRef.equal ref_2x3 out_1x3 = Ok true →
     TensorRef.equal out_1x3 ref_2x3 = Ok true)
  ∧ (TensorRef.equal ref_2x3 out_1x3 = Ok true →
     TensorRef.equal out_1x3 ref_2x3x4 = Ok true →
     TensorRef.equal ref_2x3 ref_2x3x4 = Ok true).
Proof.
  apply (equal_equivalence ref_2x3 out_1x3 ref_2x3x4);
    unfold TensorRef.wf, MAX_DIMS; simpl; lia.
Defined.

(** X4. Two references built from one tensor compare equal whatever the
    uninitialised parts of their arrays hold. *)
Theorem of_Tensor_equal (u1 u2 u3 u4 : list Z) (tn : Tensor.t) :
  Z.of_nat (length u1) = MAX_DIMS → Z.of_nat (length u2) = MAX_DIMS →
  Z.of_nat (length u3) = MAX_DIMS → Z.of_nat (length u4) = MAX_DIMS →
  length (Tensor.strides tn) = length (Tensor.shape tn) →
  Tensor.NumDims tn ≤ MAX_DIMS →
  ∃ r o, TensorRef.of_Tensor u1 u2 tn = Ok r
         ∧ TensorRef.of_Tensor u3 u4 tn = Ok o
         ∧ TensorRef.equal r o = Ok true.
Proof.
  intros H1 H2 H3 H4 Hlen Hn.
  pose proof (of_Tensor_Ok u1 u2 tn H1 H2 Hlen Hn) as Hr.
  pose proof (of_Tensor_Ok u3 u4 tn H3 H4 Hlen Hn) as Ho.
  cbv zeta in Hr, Ho.
  destruct Hr as [Er (Hrn & Hrs)], Ho as [Eo (Hon & Hos)].
  eexists _, _. split; [exact Er |]. split; [exact Eo |].
  apply equal_true_iff; [done | done | simpl; lia |].
  unfold same_view. simpl.
  unfold Tensor.NumDims. rewrite Nat2Z.id.
  rewrite !take_app_length.
  rewrite <- Hlen.
  rewrite <- (length_fmap (λ st, wrap_i64 (st * Tensor.byte_size tn))
               (Tensor.strides tn)).
  rewrite !take_app_length. done.
Qed.

Lemma of_Tensor_equal_witness :
  ∃ r o, TensorRef.of_Tensor junk_a junk_a tensor_2x3x4 = Ok r
         ∧ TensorRef.of_Tensor junk_b junk_b tensor_2x3x4 = Ok o
         ∧ TensorRef.equal r o = Ok true.
Proof.
  apply (of_Tensor_equal junk_a junk_a junk_b junk_b tensor_2x3x4);
    try reflexivity.
  vm_compute. discriminate.
Defined.

(** ** TensorRef::Permute: composition and comparison *)

Lemma compose_perm_facts (p q : list Z) (n : Z) :
  p ≡ₚ seqZ 0 n → q ≡ₚ seqZ 0 n → 0 ≤ n →
  Z.of_nat (length (compose_perm p q)) = n
  ∧ (∀ d, d ∈ compose_perm p q → 0 ≤ d < n)
  ∧ (∀ i, 0 ≤ i < n → i ∈ compose_perm p q).
Proof.
  intros Hp Hq Hn.
  destruct (perm_facts p n Hp Hn) as (Hpl & _ & Hpr & Hpa).
  destruct (perm_facts q n Hq Hn) as (Hql & _ & Hqr & Hqa).
  unfold compose_perm. split; [by rewrite length_fmap |]. split.
  - intros d Hd. apply list_elem_of_fmap in Hd as (j & -> & Hj).
    specialize (Hqr j Hj).
    destruct (lookup_lt_is_Some_2 p (Z.to_nat j)) as [d Hd]; [lia |].
    cbn beta. rewrite Hd. simpl. apply Hpr. by eapply list_elem_of_lookup_2.
  - intros i Hi. specialize (Hpa i Hi).
    apply list_elem_of_lookup_1 in Hpa as [j Hj].
    pose proof (lookup_lt_Some _ _ _ Hj).
    apply list_elem_of_fmap. exists (Z.of_nat j). split.
    + by rewrite Nat2Z.id, Hj.
    + apply Hqa. lia.
Qed.

Lemma permuted_compose (p q l : list Z) (n : Z) :
  p ≡ₚ seqZ 0 n → q ≡ₚ seqZ 0 n → 0 ≤ n →
  permuted q (permuted p l) = permuted (compose_perm p q) l.
Proof.
  intros Hp Hq Hn.
  destruct (perm_facts p n Hp Hn) as (Hpl & _ & Hpr & Hpa).
  destruct (perm_facts q n Hq Hn) as (Hql & _ & Hqr & Hqa).
  apply list_eq. intros k.
  destruct (decide (k < length q)%nat) as [Hk | Hk].
  - destruct (lookup_lt_is_Some_2 q k Hk) as [j Hj].
    assert (0 ≤ j < n) as Hjr by (apply Hqr; by eapply list_elem_of_lookup_2).
    destruct (lookup_lt_is_Some_2 p (Z.to_nat j)) as [d Hd]; [lia |].
    rewrite (permuted_lookup_lt q _ k j Hj).
    rewrite (permuted_lookup_lt p l _ d Hd). simpl.
    rewrite (permuted_lookup_lt (compose_perm p q) l k d); [done |].
    unfold compose_perm. rewrite list_lookup_fmap, Hj. simpl. by rewrite Hd.
  - rewrite !permuted_lookup_ge; [done | | lia | lia].
    unfold compose_perm. rewrite length_fmap. lia.
Qed.

(** X5. Permuting by [p] and then by [q] is permuting once by the
    composed permutation, whose entry [i] is [p[q[i]]]. *)
Theorem Permute_compose
    (WrapDim : Z → Z → result Z) (r : TensorRef.t) (p q : list Z) :
  (∀ d n, 0 ≤ d < n → WrapDim d n = Ok d) →
  TensorRef.wf r →
  p ≡ₚ seqZ 0 (TensorRef.ndims_ r) →
  q ≡ₚ seqZ 0 (TensorRef.ndims_ r) →
  ∃ r' r'', TensorRef.Permute WrapDim r p = Ok r'
            ∧ TensorRef.Permute WrapDim r' q = Ok r''
            ∧ TensorRef.Permute WrapDim r (compose_perm p q) = Ok r''.
Proof.
  intros HW Hwf Hp Hq. pose proof Hwf as (Hn & Hsh & Hbs).
  destruct (perm_facts p _ Hp) as (Hpl & _ & Hpr & Hpa); [lia |].
  destruct (perm_facts q _ Hq) as (Hql & _ & Hqr & Hqa); [lia |].
  destruct (compose_perm_facts p q _ Hp Hq) as (Hcl & Hcr & Hca); [lia |].
  unfold MAX_DIMS in *.
  eexists _, _. split; [by apply Permute_spec |].
  set (r' := TensorRef.mk _ _ _ _ _).
  assert (TensorRef.wf r') as Hwf'.
  { unfold TensorRef.wf, r', MAX_DIMS. simpl.
    rewrite !length_permuted by lia. done. }
  split; [by apply Permute_spec |].
  rewrite Permute_spec by done. unfold r'. simpl.
  rewrite !(permuted_compose p q _ _ Hp Hq) by lia. done.
Qed.

Lemma Permute_compose_witness :
  ∃ r' r'', TensorRef.Permute WrapDim_wrapping ref_2x3x4 [2; 0; 1] = Ok r'
            ∧ TensorRef.Permute WrapDim_wrapping r' [1; 0; 2] = Ok r''
            ∧ TensorRef.Permute WrapDim_wrapping ref_2x3x4
                (compose_perm [2; 0; 1] [1; 0; 2]) = Ok r''.
Proof.
  apply (Permute_compose WrapDim_wrapping ref_2x3x4 [2; 0; 1] [1; 0; 2]).
  - intros d n H. unfold WrapDim_wrapping.
    rewrite decide_False by lia. by rewrite decide_False by lia.
  - unfold TensorRef.wf, MAX_DIMS. simpl. lia.
  - simpl. change (seqZ 0 3) with [0; 1; 2]. solve_Permutation.
  - simpl. change (seqZ 0 3) with [0; 1; 2]. solve_Permutation.
Defined.

Lemma take_permuted (p l : list Z) :
  take (length p) (permuted p l) = (λ d, default 0 (l !! Z.to_nat d)) <$> p.
Proof. unfold permuted. apply take_app_length'. by rewrite length_fmap. Qed.

(** X6. [Permute] respects [operator==]: equal references stay equal when
    both are permuted by the same permutation. *)
Theorem Permute_respects_equal
    (WrapDim : Z → Z → result Z) (r o : TensorRef.t) (p : list Z) :
  (∀ d n, 0 ≤ d < n → WrapDim d n = Ok d) →
  TensorRef.wf r → TensorRef.wf o →
  p ≡ₚ seqZ 0 (TensorRef.ndims_ r) →
  TensorRef.equal r o = Ok true →
  ∃ r' o', TensorRef.Permute WrapDim r p = Ok r'
           ∧ TensorRef.Permute WrapDim o p = Ok o'
           ∧ TensorRef.equal r' o' = Ok true.
Proof.
  intros HW Hwr Hwo Hp Heq.
  pose proof Hwr as (Hrn & Hrs). pose proof Hwo as (Hon & Hos).
  apply equal_true_iff in Heq as (Hptr & Hnd & Hdt & Hsh & Hbs);
    [| done | done | lia].
  destruct (perm_facts p _ Hp) as (Hpl & _ & Hpr & Hpa); [lia |].
  unfold MAX_DIMS in *. destruct Hrs as [Hrs1 Hrs2], Hos as [Hos1 Hos2].
  eexists _, _. split; [by apply Permute_spec |].
  split; [apply Permute_spec; try done; rewrite <- Hnd; done |].
  apply equal_true_iff.
  - split; unfold MAX_DIMS; simpl; rewrite length_permuted; lia.
  - split; unfold MAX_DIMS; simpl; rewrite length_permuted; lia.
  - unfold MAX_DIMS. simpl. lia.
  - unfold same_view. simpl.
    assert (∀ l l' : list Z,
      take (Z.to_nat (TensorRef.ndims_ r)) l
      = take (Z.to_nat (TensorRef.ndims_ r)) l' →
      take (Z.to_nat (TensorRef.ndims_ r)) (permuted p l)
      = take (Z.to_nat (TensorRef.ndims_ r)) (permuted p l')) as Hperm.
    { intros l l' Hl.
      replace (Z.to_nat (TensorRef.ndims_ r)) with (length p) in * by lia.
      rewrite !take_permuted. apply list_fmap_ext. intros k d Hd.
      assert (0 ≤ d < TensorRef.ndims_ r) as Hdr
        by (apply Hpr; by eapply list_elem_of_lookup_2).
      rewrite <- (lookup_take_lt l (length p)) by lia.
      rewrite <- (lookup_take_lt l' (length p)) by lia.
      by rewrite Hl. }
    repeat split; try done; by apply Hperm.
Qed.

Lemma Permute_respects_equal_witness :
  ∃ r' o', TensorRef.Permute WrapDim_wrapping ref_2x3 [1; 0] = Ok r'
           ∧ TensorRef.Permute WrapDim_wrapping ref_2x3 [1; 0] = Ok o'
           ∧ TensorRef.equal r' o' = Ok true.
Proof.
  apply (Permute_respects_equal WrapDim_wrapping ref_2x3 ref_2x3 [1; 0]).
  - intros d n H. unfold WrapDim_wrapping.
    rewrite decide_False by lia. by rewrite decide_False by lia.
  - unfold TensorRef.wf, MAX_DIMS. simpl. lia.
  - unfold TensorRef.wf, MAX_DIMS. simpl. lia.
  - simpl. change (seqZ 0 2) with [0; 1]. solve_Permutation.
  - reflexivity.
Defined.

(** ** TensorIterator *)

Lemma wrap_i64_mod (z : Z) : wrap_i64 z mod 2 ^ 64 = z mod 2 ^ 64.
Proof.
  unfold wrap_i64, wrap_signed. change (2 ^ (64 - 1)) with (2 ^ 63).
  rewrite Zminus_mod_idemp_l. f_equal. lia.
Qed.

Lemma wrap_i64_congr (a b : Z) :
  a mod 2 ^ 64 = b mod 2 ^ 64 → wrap_i64 a = wrap_i64 b.
Proof.
  intros H. unfold wrap_i64, wrap_signed.
  rewrite <- (Zplus_mod_idemp_l a), <- (Zplus_mod_idemp_l b). by rewrite H.
Qed.

Lemma wrap_i64_mul_l (a b : Z) : wrap_i64 (wrap_i64 a * b) = wrap_i64 (a * b).
Proof.
  apply wrap_i64_congr.
  by rewrite <- Zmult_mod_idemp_l, wrap_i64_mod, Zmult_mod_idemp_l.
Qed.

Lemma NumWorkloads_closed (it : TensorIterator.t) :
  TensorRef.sized (TensorIterator.input_ it) →
  0 ≤ TensorIterator.ndims_ it ≤ MAX_DIMS →
  TensorIterator.NumWorkloads it
  = Ok (wrap_i64 (extent_prefix (TensorRef.shape_ (TensorIterator.input_ it))
                    (Z.to_nat (TensorIterator.ndims_ it)))).
Proof.
  intros [Hs _] Hn. unfold TensorIterator.NumWorkloads, MAX_DIMS in *.
  destruct (for_range_inv
    (λ i acc,
       acc = wrap_i64 (extent_prefix
                         (TensorRef.shape_ (TensorIterator.input_ it))
                         (Z.to_nat i)))
    (fun i num_workloads =>
       let* sh := index (TensorRef.shape_ (TensorIterator.input_ it)) i in
       Ok (wrap_i64 (num_workloads * sh)))
    (TensorIterator.ndims_ it) 1) as (acc & E & ->).
  - lia.
  - done.
  - intros i acc Hi ->.
    destruct (lookup_lt_is_Some_2
                (TensorRef.shape_ (TensorIterator.input_ it)) (Z.to_nat i))
      as [x Hx]; [lia |].
    rewrite (proj2 (index_Ok _ i x)) by (split; [lia | done]). cbn [bind].
    eexists. split; [done |].
    replace (Z.to_nat (i + 1)) with (S (Z.to_nat i)) by lia.
    by rewrite (extent_prefix_S _ _ _ Hx), wrap_i64_mul_l.
  - done.
Qed.

Lemma extent_prefix_zero (sizes : list Z) (d k : nat) :
  (k < d)%nat → sizes !! k = Some 0 → extent_prefix sizes d = 0.
Proof.
  revert sizes k. induction d as [|d IH]; intros sizes k Hk H; [lia |].
  destruct sizes as [|x sizes]; [done |].
  unfold extent_prefix in *. simpl. destruct k as [|k].
  - injection H as ->. lia.
  - simpl in H. rewrite (IH sizes k) by (done || lia). lia.
Qed.

(** X7. [NumWorkloads] returns the product of the first [ndims_] extents
    reduced to [int64_t], which is the product itself whenever that fits;
    in particular intermediate overflow does no harm. *)
Theorem NumWorkloads_product (it : TensorIterator.t) :
  TensorRef.sized (TensorIterator.input_ it) →
  0 ≤ TensorIterator.ndims_ it ≤ MAX_DIMS →
  let total :=
    extent_prefix (TensorRef.shape_ (TensorIterator.input_ it))
      (Z.to_nat (TensorIterator.ndims_ it)) in
  TensorIterator.NumWorkloads it = Ok (wrap_i64 total)
  ∧ (- 2 ^ 63 ≤ total < 2 ^ 63 → TensorIterator.NumWorkloads it = Ok total).
Proof.
  intros Hs Hn total. rewrite NumWorkloads_closed by done. fold total.
  split; [done |]. intros H. by rewrite wrap_i64_small.
Qed.

Lemma NumWorkloads_product_witness :
  TensorIterator.NumWorkloads iter_2x3x4 = Ok (wrap_i64 24)
  ∧ (- 2 ^ 63 ≤ 24 < 2 ^ 63 → TensorIterator.NumWorkloads iter_2x3x4 = Ok 24).
Proof.
  apply (NumWorkloads_product iter_2x3x4).
  - split; reflexivity.
  - unfold MAX_DIMS. simpl. lia.
Defined.

(** X8. An iterator over a tensor with a zero extent has no work items:
    [NumWorkloads] is 0 and [GetPtr] returns the null pointer for every
    index. *)
Theorem GetPtr_zero_extent (it : TensorIterator.t) (k : nat) (w : Z) :
  TensorRef.sized (TensorIterator.input_ it) →
  0 ≤ TensorIterator.ndims_ it ≤ MAX_DIMS →
  Z.of_nat k < TensorIterator.ndims_ it →
  TensorRef.shape_ (TensorIterator.input_ it) !! k = Some 0 →
  TensorIterator.NumWorkloads it = Ok 0
  ∧ TensorIterator.GetPtr it w = Ok nullptr.
Proof.
  intros Hs Hn Hk H0.
  assert (TensorIterator.NumWorkloads it = Ok 0) as E.
  { rewrite NumWorkloads_closed by done.
    rewrite (extent_prefix_zero _ _ k) by (done || lia). done. }
  split; [done |]. unfold TensorIterator.GetPtr. rewrite E. cbn [bind].
  case_decide; [done |]. by rewrite decide_True by lia.
Qed.

Lemma GetPtr_zero_extent_witness :
  TensorIterator.NumWorkloads iter_empty = Ok 0
  ∧ TensorIterator.GetPtr iter_empty 0 = Ok nullptr.
Proof.
  apply (GetPtr_zero_extent iter_empty 1 0).
  - split; reflexivity.
  - unfold MAX_DIMS. simpl. lia.
  - simpl. lia.
  - reflexivity.
Defined.

(** The loop of [GetPtr] peels multiples of the byte strides off the
    scaled index: what it has put into [offset] and what is left add up
    to the scaled index. *)
Lemma GetPtr_loop (it : TensorIterator.t) (e v : Z) :
  TensorRef.sized (TensorIterator.input_ it) →
  0 ≤ TensorIterator.ndims_ it ≤ MAX_DIMS →
  0 < e → (e | v) → 0 ≤ v < 2 ^ 63 →
  (∀ (k : nat) b, Z.of_nat k < TensorIterator.ndims_ it →
     TensorRef.byte_strides_ (TensorIterator.input_ it) !! k = Some b →
     0 < b ∧ (e | b)) →
  ∃ off r,
    for_range (TensorIterator.ndims_ it) (TensorIterator.ptr_step it) (0, v)
    = Ok (off, r)
    ∧ off + r = v ∧ 0 ≤ off ∧ 0 ≤ r
    ∧ ((∃ k : nat, Z.of_nat k < TensorIterator.ndims_ it
          ∧ TensorRef.byte_strides_ (TensorIterator.input_ it) !! k = Some e)
       → r = 0).
Proof.
  intros [_ Hb] Hn He Hdiv Hv Hall. unfold MAX_DIMS in *.
  destruct (for_range_inv
    (λ i (st : Z * Z),
       st.1 + st.2 = v ∧ 0 ≤ st.1 ∧ 0 ≤ st.2 ∧ (e | st.2)
       ∧ ((∃ k : nat, Z.of_nat k < i
            ∧ TensorRef.byte_strides_ (TensorIterator.input_ it) !! k = Some e)
          → st.2 = 0))
    (TensorIterator.ptr_step it) (TensorIterator.ndims_ it) (0, v))
    as ([off r] & E & H1 & H2 & H3 & _ & H5).
  - lia.
  - simpl. repeat split; try (done || lia). intros (k & Hk & _). lia.
  - intros i [off r] Hi (H1 & H2 & H3 & H4 & H5). simpl in H1, H2, H3, H4, H5.
    destruct (lookup_lt_is_Some_2
                (TensorRef.byte_strides_ (TensorIterator.input_ it))
                (Z.to_nat i)) as [b Hbi]; [lia |].
    destruct (Hall (Z.to_nat i) b ltac:(lia) Hbi) as [Hbpos Hbdiv].
    unfold TensorIterator.ptr_step.
    rewrite (proj2 (index_Ok _ i b)) by (split; [lia | done]). cbn [bind].
    unfold div_i64, rem_i64. rewrite !decide_False by lia. cbn [bind].
    rewrite Z.quot_div_nonneg, Z.rem_mod_nonneg by lia.
    pose proof (Z.mod_pos_bound r b Hbpos) as Hm.
    pose proof (Z.div_mod r b ltac:(lia)) as Hdm.
    assert (0 ≤ r / b) by (apply Z.div_pos; lia).
    assert (0 ≤ r `div` b * b ≤ r) by nia.
    rewrite (wrap_i64_small (r `div` b * b)) by lia.
    rewrite wrap_i64_small by lia.
    eexists. split; [done |]. simpl. repeat split; try lia.
    + rewrite Z.mod_eq by lia. apply Z.divide_sub_r; [done |].
      by apply Z.divide_mul_l.
    + intros (k & Hk & Hke).
      destruct (decide (Z.of_nat k < i)) as [Hlt | Hge].
      * rewrite H5 by eauto. by rewrite Z.mod_0_l by lia.
      * assert (k = Z.to_nat i) as -> by lia.
        rewrite Hbi in Hke. injection Hke as ->.
        by apply Z.mod_divide; [lia |].
  - exists off, r. simpl in *. repeat split; try done.
Qed.

(** X9. On byte strides that are positive multiples of the element size,
    one of them the element size itself, [GetPtr(w)] is the address of
    element [w] in memory order, [data_ptr_ + w * dtype_byte_size_], for
    every [w] below [NumWorkloads]: the order of the strides plays no
    part. *)
Theorem GetPtr_linear (it : TensorIterator.t) (w n : Z) (j : nat) :
  TensorRef.sized (TensorIterator.input_ it) →
  0 ≤ TensorIterator.ndims_ it ≤ MAX_DIMS →
  0 < TensorRef.dtype_byte_size_ (TensorIterator.input_ it) →
  (∀ (k : nat) b, Z.of_nat k < TensorIterator.ndims_ it →
     TensorRef.byte_strides_ (TensorIterator.input_ it) !! k = Some b →
     0 < b ∧ (TensorRef.dtype_byte_size_ (TensorIterator.input_ it) | b)) →
  Z.of_nat j < TensorIterator.ndims_ it →
  TensorRef.byte_strides_ (TensorIterator.input_ it) !! j
  = Some (TensorRef.dtype_byte_size_ (TensorIterator.input_ it)) →
  TensorIterator.NumWorkloads it = Ok n →
  0 ≤ w < n →
  w * TensorRef.dtype_byte_size_ (TensorIterator.input_ it) < 2 ^ 63 →
  TensorIterator.GetPtr it w
  = Ok (ptr_add (TensorRef.data_ptr_ (TensorIterator.input_ it))
          (w * TensorRef.dtype_byte_size_ (TensorIterator.input_ it))).
Proof.
  intros Hs Hn He Hall Hj Hje HN Hw Hfit.
  unfold TensorIterator.GetPtr. rewrite decide_False by lia.
  rewrite HN. cbn [bind]. rewrite decide_False by lia. cbv zeta.
  set (e := TensorRef.dtype_byte_size_ (TensorIterator.input_ it)) in *.
  rewrite (wrap_i64_small (w * e)) by nia.
  destruct (GetPtr_loop it e (w * e)) as (off & r & E & H1 & _ & _ & H2);
    try done.
  - by apply Z.divide_mul_r.
  - nia.
  - rewrite E. cbn [bind]. simpl. rewrite H2 in H1 by eauto.
    do 2 f_equal. lia.
Qed.

Lemma GetPtr_linear_witness :
  TensorIterator.GetPtr iter_transposed 17 = Ok (ptr_add 4096 (17 * 4)).
Proof.
  apply (GetPtr_linear iter_transposed 17 24 0).
  - split; reflexivity.
  - unfold MAX_DIMS. simpl. lia.
  - simpl. lia.
  - intros k b Hk Hb. simpl in Hk.
    destruct k as [|[|[|k]]]; [| | | lia]; injection Hb as <-; simpl;
      (split; [lia |]).
    + by exists 1.
    + by exists 12.
    + by exists 4.
  - simpl. lia.
  - reflexivity.
  - reflexivity.
  - lia.
  - simpl. lia.
Defined.

(** ** Indexer: accessors and work-item decoding *)

(** X10. [GetOutput()] returns the first output when there is exactly one;
    with more it raises its own error, and with none the range error of
    [GetOutput(0)]. *)
Theorem GetOutput_single_cases (ix : Indexer.t) :
  Indexer.wf ix →
  match Z.compare (Indexer.num_outputs_ ix) 1 with
  | Eq => ∃ r, Indexer.outputs_ ix !! 0%nat = Some r
               ∧ Indexer.GetOutput_single ix = Ok r
  | Gt => Indexer.GetOutput_single ix
          = Raise (LogError "num_outputs_ == {} > 0, use GetOutput(i)"
                     [Indexer.num_outputs_ ix])
  | Lt => Indexer.GetOutput_single ix
          = Raise (LogError "0 <= i < {} required, however, i = {}."
                     [Indexer.num_outputs_ ix; 0])
  end.
Proof.
  intros (_ & _ & Hout & _). unfold MAX_OUTPUTS in Hout.
  unfold Indexer.GetOutput_single, Indexer.GetOutput.
  destruct (Z.compare_spec (Indexer.num_outputs_ ix) 1) as [E | E | E].
  - rewrite E. rewrite !decide_False by lia.
    destruct (lookup_lt_is_Some_2 (Indexer.outputs_ ix) 0) as [r Hr]; [lia |].
    exists r. split; [done |]. apply index_Ok. split; [lia | done].
  - rewrite decide_False by lia. by rewrite decide_True by lia.
  - by rewrite decide_True by lia.
Qed.

Lemma GetOutput_single_cases_witness :
  ∃ r, Indexer.outputs_ sum_axis0 !! 0%nat = Some r
       ∧ Indexer.GetOutput_single sum_axis0 = Ok r.
Proof.
  apply (GetOutput_single_cases sum_axis0).
  unfold Indexer.wf, MAX_DIMS, MAX_INPUTS, MAX_OUTPUTS. simpl.
  repeat split; try lia; repeat constructor.
Defined.

Lemma div_rem_nonneg (r m : Z) :
  0 ≤ r → 0 < m →
  div_i64 r m = Ok (r `div` m) ∧ rem_i64 r m = Ok (r `mod` m).
Proof.
  intros Hr Hm. unfold div_i64, rem_i64. rewrite !decide_False by lia.
  by rewrite Z.quot_div_nonneg, Z.rem_mod_nonneg by lia.
Qed.

(** X11. [GetWorkload2DIdx] splits a work item by the stride of the
    second-to-last axis: [y * stride + x] is the work item again, and [x]
    lies below the stride. *)
Theorem GetWorkload2DIdx_roundtrip (ix : Indexer.t) (w ms : Z) :
  Indexer.wf ix →
  2 ≤ Indexer.ndims_ ix →
  Indexer.master_strides_ ix !! Z.to_nat (Indexer.ndims_ ix - 2) = Some ms →
  0 < ms → 0 ≤ w →
  ∃ x y, Indexer.GetWorkload2DIdx ix w = Ok (x, y)
         ∧ y * ms + x = w ∧ 0 ≤ x < ms ∧ 0 ≤ y.
Proof.
  intros _ Hn Hms Hpos Hw. unfold Indexer.GetWorkload2DIdx.
  rewrite decide_True by lia.
  rewrite (proj2 (index_Ok _ _ ms)) by (split; [lia | done]). cbn [bind].
  destruct (div_rem_nonneg w ms Hw Hpos) as [-> ->]. cbn [bind].
  eexists _, _. split; [done |].
  pose proof (Z.div_mod w ms ltac:(lia)).
  pose proof (Z.mod_pos_bound w ms Hpos).
  assert (0 ≤ w `div` ms) by (apply Z.div_pos; lia).
  repeat split; lia.
Qed.

Lemma GetWorkload2DIdx_roundtrip_witness :
  ∃ x y, Indexer.GetWorkload2DIdx sum_axis0 5 = Ok (x, y)
         ∧ y * 3 + x = 5 ∧ 0 ≤ x < 3 ∧ 0 ≤ y.
Proof.
  apply (GetWorkload2DIdx_roundtrip sum_axis0 5 3).
  - unfold Indexer.wf, MAX_DIMS, MAX_INPUTS, MAX_OUTPUTS. simpl.
    repeat split; try lia; repeat constructor.
  - simpl. lia.
  - reflexivity.
  - lia.
  - lia.
Defined.

Lemma wrap_i64_add (a b : Z) :
  wrap_i64 (wrap_i64 a + wrap_i64 b) = wrap_i64 (a + b).
Proof.
  apply wrap_i64_congr.
  by rewrite Z.add_mod, !wrap_i64_mod, <- Z.add_mod by lia.
Qed.

Lemma ptr_add_wrap (p x : Z) : ptr_add p (wrap_i64 x) = ptr_add p x.
Proof.
  unfold ptr_add.
  by rewrite <- Zplus_mod_idemp_r, wrap_i64_mod, Zplus_mod_idemp_r.
Qed.

(** The loop of [GetWorkloadDataPtr] on an operand whose byte strides are
    [e] times the master strides. *)
Lemma workload_loop_scaled (ix : Indexer.t) (tr : TensorRef.t) (e w : Z) :
  Indexer.wf ix →
  (∀ (k : nat) m, Z.of_nat k < Indexer.ndims_ ix →
     Indexer.master_strides_ ix !! k = Some m →
     0 < m ∧ TensorRef.byte_strides_ tr !! k = Some (e * m)) →
  0 ≤ w →
  ∃ off r,
    for_range (Indexer.ndims_ ix) (Indexer.workload_step ix tr) (0, w)
    = Ok (off, r)
    ∧ off = wrap_i64 (e * (w - r)) ∧ 0 ≤ r
    ∧ ((∃ k : nat, Z.of_nat k < Indexer.ndims_ ix
          ∧ Indexer.master_strides_ ix !! k = Some 1) → r = 0).
Proof.
  intros (Hn & _ & _ & _ & Hms & _) Hall Hw. unfold MAX_DIMS in *.
  destruct (for_range_inv
    (λ i (st : Z * Z),
       st.1 = wrap_i64 (e * (w - st.2)) ∧ 0 ≤ st.2
       ∧ ((∃ k : nat, Z.of_nat k < i
            ∧ Indexer.master_strides_ ix !! k = Some 1) → st.2 = 0))
    (Indexer.workload_step ix tr) (Indexer.ndims_ ix) (0, w))
    as ([off r] & E & H1 & H2 & H3).
  - lia.
  - simpl. split; [by rewrite Z.sub_diag, Z.mul_0_r |]. split; [done |].
    intros (k & Hk & _). lia.
  - intros i [off r] Hi (H1 & H2 & H3). simpl in H1, H2, H3.
    destruct (lookup_lt_is_Some_2 (Indexer.master_strides_ ix) (Z.to_nat i))
      as [m Hm]; [lia |].
    destruct (Hall (Z.to_nat i) m ltac:(lia) Hm) as [Hpos Hbs].
    unfold Indexer.workload_step.
    rewrite (proj2 (index_Ok _ i m)) by (split; [lia | done]). cbn [bind].
    rewrite (proj2 (index_Ok _ i (e * m))) by (split; [lia | done]).
    cbn [bind].
    destruct (div_rem_nonneg r m H2 Hpos) as [-> ->]. cbn [bind].
    eexists. split; [done |]. simpl.
    pose proof (Z.mod_pos_bound r m Hpos).
    split; [| split; [lia |]].
    + rewrite H1, wrap_i64_add. f_equal.
      pose proof (Z.div_mod r m ltac:(lia)). nia.
    + intros (k & Hk & Hk1).
      destruct (decide (Z.of_nat k < i)) as [Hlt | Hge].
      * rewrite H3 by eauto. by rewrite Z.mod_0_l by lia.
      * assert (k = Z.to_nat i) as -> by lia.
        rewrite Hm in Hk1. injection Hk1 as ->. apply Z.mod_1_r.
  - exists off, r. simpl in *. done.
Qed.

(** X12. For an input laid out like the iteration space (its byte strides
    are [e] times the master strides, one of which is 1), [GetInputPtr]
    is linear in the work item: [data_ptr_ + e * w]. *)
Theorem GetInputPtr_contiguous
    (ix : Indexer.t) (tr : TensorRef.t) (input_idx e w : Z) (j : nat) :
  Indexer.wf ix →
  0 ≤ input_idx < Indexer.num_inputs_ ix →
  Indexer.inputs_ ix !! Z.to_nat input_idx = Some tr →
  (∀ (k : nat) m, Z.of_nat k < Indexer.ndims_ ix →
     Indexer.master_strides_ ix !! k = Some m →
     0 < m ∧ TensorRef.byte_strides_ tr !! k = Some (e * m)) →
  Z.of_nat j < Indexer.ndims_ ix →
  Indexer.master_strides_ ix !! j = Some 1 →
  0 ≤ w →
  Indexer.GetInputPtr ix input_idx w
  = Ok (ptr_add (TensorRef.data_ptr_ tr) (e * w)).
Proof.
  intros Hwf Hi Htr Hall Hj Hj1 Hw. unfold Indexer.GetInputPtr.
  rewrite decide_False by lia.
  rewrite (proj2 (index_Ok _ _ tr)) by (split; [lia | done]). cbn [bind].
  unfold Indexer.GetWorkloadDataPtr. rewrite decide_False by lia.
  destruct (workload_loop_scaled ix tr e w Hwf Hall Hw)
    as (off & r & -> & -> & _ & Hr).
  cbn [bind]. simpl. rewrite Hr by eauto.
  rewrite ptr_add_wrap. do 3 f_equal. lia.
Qed.

Lemma GetInputPtr_contiguous_witness :
  Indexer.GetInputPtr sum_axis0 0 5 = Ok (ptr_add 4096 (4 * 5)).
Proof.
  apply (GetInputPtr_contiguous sum_axis0 ref_2x3 0 4 5 1).
  - unfold Indexer.wf, MAX_DIMS, MAX_INPUTS, MAX_OUTPUTS. simpl.
    repeat split; try lia; repeat constructor.
  - simpl. lia.
  - reflexivity.
  - intros k m Hk Hm. simpl in Hk.
    destruct k as [|[|k]]; [| | lia]; injection Hm as <-; simpl;
      (split; [lia | done]).
  - simpl. lia.
  - reflexivity.
  - lia.
Defined.

Lemma suffix_products_lookup (shape : list Z) (k : nat) (s : Z) :
  shape !! k = Some s →
  suffix_products shape !! k = Some (foldr Z.mul 1 (drop (S k) shape)).
Proof.
  revert k. induction shape as [|x shape IH]; intros k H; [done |].
  destruct k as [|k]; simpl; [by rewrite drop_0 | by apply IH].
Qed.

Lemma dot_snoc (cs ms : list Z) (q m : Z) :
  ms !! length cs = Some m → dot (cs ++ [q]) ms = dot cs ms + q * m.
Proof.
  revert ms. induction cs as [|c cs IH]; intros ms H.
  - destruct ms as [|m' ms]; [done |]. injection H as ->.
    unfold dot. simpl. destruct ms; simpl; lia.
  - destruct ms as [|m' ms]; [done |]. simpl in H.
    unfold dot in *. simpl. rewrite IH by done. lia.
Qed.

(** X13. When the master strides are the row-major strides of the master
    shape and all extents are positive, every work item below the number
    of elements decodes to coordinates that lie inside the shape and that
    stand for the work item again; [GetWorkloadDataPtr] returns the
    operand's pointer moved by those coordinates times its byte strides. *)
Theorem workload_coords_in_shape (ix : Indexer.t) (w : Z) :
  Indexer.wf ix →
  let n := Z.to_nat (Indexer.ndims_ ix) in
  let shape := take n (Indexer.master_shape_ ix) in
  take n (Indexer.master_strides_ ix) = suffix_products shape →
  Forall (λ s, 0 < s) shape →
  0 ≤ w < foldr Z.mul 1 shape →
  ∃ cs, Indexer.workload_coords ix w = Ok cs
        ∧ length cs = n
        ∧ dot cs (Indexer.master_strides_ ix) = w
        ∧ (∀ (k : nat) c s, cs !! k = Some c → shape !! k = Some s → 0 ≤ c < s)
        ∧ ∀ tr, Indexer.ndims_ ix
                ≤ Z.of_nat (length (TensorRef.byte_strides_ tr)) →
            Indexer.GetWorkloadDataPtr ix tr w
            = Ok (ptr_add (TensorRef.data_ptr_ tr)
                    (offset_of cs (TensorRef.byte_strides_ tr) 0)).
Proof.
  intros (Hn & _ & _ & Hsh & Hms & _) n shape Hstr Hpos Hw.
  unfold MAX_DIMS in *.
  cut (∃ cs, Indexer.workload_coords ix w = Ok cs
        ∧ length cs = n
        ∧ dot cs (Indexer.master_strides_ ix) = w
        ∧ (∀ (k : nat) c s,
             cs !! k = Some c → shape !! k = Some s → 0 ≤ c < s)).
  { intros (cs & E & Hl & Hd & Hr). exists cs.
    split; [done |]. split; [done |]. split; [done |]. split; [done |].
    intros tr Htr.
    by destruct (GetWorkloadDataPtr_coords ix tr w cs ltac:(lia) ltac:(lia)
                   Htr E) as [_ ->]. }
  unfold Indexer.workload_coords.
  assert (length shape = n) as Hlen
    by (unfold shape; rewrite length_take; lia).
  destruct (for_range_inv
    (λ i (st : list Z * Z),
       length st.1 = Z.to_nat i
       ∧ dot st.1 (Indexer.master_strides_ ix) + st.2 = w
       ∧ 0 ≤ st.2 < foldr Z.mul 1 (drop (Z.to_nat i) shape)
       ∧ ∀ (k : nat) c s,
           st.1 !! k = Some c → shape !! k = Some s → 0 ≤ c < s)
    (Indexer.coords_step ix) (Indexer.ndims_ ix) ([], w))
    as ([cs r] & E & H1 & H2 & H3 & H4).
  - lia.
  - simpl. rewrite drop_0. repeat split; try (done || lia).
  - intros i [cs r] Hi (H1 & H2 & H3 & H4). simpl in H1, H2, H3, H4.
    destruct (lookup_lt_is_Some_2 shape (Z.to_nat i)) as [s Hs]; [lia |].
    pose proof (suffix_products_lookup _ _ _ Hs) as Hm.
    rewrite <- Hstr, lookup_take_lt in Hm by lia.
    rewrite (drop_S _ _ _ Hs) in H3. simpl in H3.
    set (m := foldr Z.mul 1 (drop (S (Z.to_nat i)) shape)) in *.
    assert (0 < s) as Hspos.
    { eapply (Forall_lookup_1 _ _ _ _ Hpos Hs). }
    assert (0 < m) as Hmpos by nia.
    unfold Indexer.coords_step.
    rewrite (proj2 (index_Ok _ i m)) by (split; [lia | done]). cbn [bind].
    destruct (div_rem_nonneg r m ltac:(lia) Hmpos) as [-> ->]. cbn [bind].
    eexists. split; [done |]. simpl.
    pose proof (Z.mod_pos_bound r m Hmpos).
    pose proof (Z.div_mod r m ltac:(lia)).
    assert (0 ≤ r `div` m) by (apply Z.div_pos; lia).
    assert (r `div` m < s) by (apply Z.div_lt_upper_bound; lia).
    replace (Z.to_nat (i + 1)) with (S (Z.to_nat i)) by lia.
    split; [rewrite length_app; simpl; lia |].
    split; [rewrite (dot_snoc _ _ _ m) by (by rewrite H1); lia |].
    split; [fold m; lia |].
    intros k c s' Hc Hs'.
    destruct (decide (k < length cs)%nat) as [Hlt | Hge].
    + rewrite lookup_app_l in Hc by done. eauto.
    + rewrite lookup_app_r in Hc by lia.
      destruct (k - length cs)%nat as [|?] eqn:Ek; [| done].
      injection Hc as <-. assert (k = Z.to_nat i) as -> by lia.
      rewrite Hs in Hs'. injection Hs' as <-. lia.
  - rewrite E. cbn [bind]. simpl in *. exists cs.
    rewrite drop_ge in H3 by lia. simpl in H3.
    split; [done |]. split; [done |]. split; [lia | done].
Qed.

Lemma workload_coords_in_shape_witness :
  ∃ cs, Indexer.workload_coords sum_axis0 5 = Ok cs
        ∧ length cs = 2%nat
        ∧ dot cs (Indexer.master_strides_ sum_axis0) = 5
        ∧ (∀ (k : nat) c s,
             cs !! k = Some c → [2; 3] !! k = Some s → 0 ≤ c < s)
        ∧ ∀ tr, 2 ≤ Z.of_nat (length (TensorRef.byte_strides_ tr)) →
            Indexer.GetWorkloadDataPtr sum_axis0 tr 5
            = Ok (ptr_add (TensorRef.data_ptr_ tr)
                    (offset_of cs (TensorRef.byte_strides_ tr) 0)).
Proof.
  apply (workload_coords_in_shape sum_axis0 5).
  - unfold Indexer.wf, MAX_DIMS, MAX_INPUTS, MAX_OUTPUTS. simpl.
    repeat split; try lia; repeat constructor.
  - reflexivity.
  - simpl. repeat constructor.
  - simpl. lia.
Defined.

(** ** OffsetCalculator on a contiguous operand *)

Lemma offset_sum_contiguous (NARGS : nat) (oc : OffsetCalculator.t)
    (a : nat) (e i : Z) (k : nat) :
  oc_wf NARGS oc →
  0 ≤ OffsetCalculator.dims_ oc ≤ MAX_DIMS →
  (∀ d, Z.of_nat d < OffsetCalculator.dims_ oc →
        OffsetCalculator.sizes_ oc !! d ≠ Some 0) →
  (∀ (d : nat) row, Z.of_nat d < OffsetCalculator.dims_ oc →
     OffsetCalculator.strides_ oc !! d = Some row →
     row !! a = Some (e * extent_prefix (OffsetCalculator.sizes_ oc) d)) →
  Z.of_nat k ≤ OffsetCalculator.dims_ oc →
  0 < extent_prefix (OffsetCalculator.sizes_ oc) k
  ∧ offset_sum_upto oc a i k
    = e * (i `mod` extent_prefix (OffsetCalculator.sizes_ oc) k).
Proof.
  intros Hwf Hdims Hsizes Hstr. induction k as [|k IH]; intros Hk.
  - unfold extent_prefix. rewrite take_0. simpl.
    split; [lia |]. rewrite Z.mod_1_r. lia.
  - destruct IH as [Hpos IH]; [lia |].
    destruct (size_lookup NARGS oc Hwf Hdims Hsizes k) as (x & Hx & Hxpos);
      [lia |].
    destruct (row_lookup NARGS oc Hwf Hdims k) as (row & Hrow & _); [lia |].
    rewrite (extent_prefix_S _ _ _ Hx). split; [nia |].
    simpl. rewrite IH. unfold offset_term.
    rewrite Hx, Hrow. simpl. rewrite (Hstr k row) by (done || lia). simpl.
    rewrite (Z.rem_mul_r i) by lia. lia.
Qed.

(** X14. For an operand stored contiguously with axis 0 fastest (its
    stride on axis [d] is [e] times the product of the extents before
    [d]), [get(i)] is [e * (i mod total)] reduced modulo 2^32, where
    [total] is the product of the extents: [e * i] itself for an index
    inside the iteration space with [e * i] below 2^32. *)
Theorem get_contiguous
    (NARGS : nat) (oc : OffsetCalculator.t) (a : nat) (e i : Z) :
  oc_wf NARGS oc →
  0 ≤ OffsetCalculator.dims_ oc ≤ MAX_DIMS →
  (∀ d, Z.of_nat d < OffsetCalculator.dims_ oc →
        OffsetCalculator.sizes_ oc !! d ≠ Some 0) →
  (a < NARGS)%nat →
  (∀ (d : nat) row, Z.of_nat d < OffsetCalculator.dims_ oc →
     OffsetCalculator.strides_ oc !! d = Some row →
     row !! a = Some (e * extent_prefix (OffsetCalculator.sizes_ oc) d)) →
  is_u32 i →
  let total :=
    extent_prefix (OffsetCalculator.sizes_ oc)
      (Z.to_nat (OffsetCalculator.dims_ oc)) in
  ∃ offs, OffsetCalculator.get NARGS oc i = Ok offs
    ∧ offs !! a = Some (wrap_u32 (e * (i `mod` total)))
    ∧ (i < total → 0 ≤ e * i < 2 ^ 32 → offs !! a = Some (e * i)).
Proof.
  intros Hwf Hdims Hsizes Ha Hstr [Hi _] total.
  destruct (get_spec NARGS oc Hwf Hdims Hsizes i) as (offs & E & _ & H).
  destruct (offset_sum_contiguous NARGS oc a e i
              (Z.to_nat (OffsetCalculator.dims_ oc)) Hwf Hdims Hsizes Hstr)
    as [Hpos Hsum]; [lia |].
  exists offs. split; [done |]. rewrite (H a Ha). unfold offset_sum.
  rewrite Hsum. fold total. split; [done |].
  intros Hlt He. rewrite Z.mod_small by lia.
  unfold wrap_u32. by rewrite Z.mod_small.
Qed.

Lemma get_contiguous_witness :
  ∃ offs, OffsetCalculator.get 2 oc_3x4 7 = Ok offs
    ∧ offs !! 0%nat = Some (wrap_u32 (4 * (7 `mod` 12)))
    ∧ (7 < 12 → 0 ≤ 4 * 7 < 2 ^ 32 → offs !! 0%nat = Some (4 * 7)).
Proof.
  apply (get_contiguous 2 oc_3x4 0 4 7).
  - unfold oc_wf, is_u32, MAX_DIMS. simpl.
    repeat split; try lia; repeat (constructor; try (split; [done |]); try lia).
  - unfold MAX_DIMS. simpl. lia.
  - intros d Hd. simpl in Hd. destruct d as [|[|d]]; [done | done | lia].
  - lia.
  - intros d row Hd Hrow. simpl in Hd.
    destruct d as [|[|d]]; [| | lia]; injection Hrow as <-; reflexivity.
  - unfold is_u32. lia.
Defined.

(** ** SparseIndexer *)

Lemma foldr_mul_snoc (l : list Z) (c : Z) :
  foldr Z.mul 1 (l ++ [c]) = foldr Z.mul 1 l * c.
Proof. induction l as [|x l IH]; simpl; [lia |]. rewrite IH. lia. Qed.

Lemma suffix_products_snoc (l : list Z) (c : Z) :
  suffix_products (l ++ [c]) = ((λ m, m * c) <$> suffix_products l) ++ [1].
Proof.
  induction l as [|x l IH]; [done |].
  simpl. by rewrite foldr_mul_snoc, IH.
Qed.

Lemma length_suffix_products (l : list Z) :
  length (suffix_products l) = length l.
Proof. induction l as [|x l IH]; simpl; [done | by rewrite IH]. Qed.

(** The stride loop over the axes [k - 1] down to 0, entered with
    [stride] holding [X] reduced to [int64_t]. *)
Lemma compute_strides_loop (tl : SparseTensorList.t) (k : nat) :
  ∀ (strides : list Z) (X : Z),
  (k ≤ length strides)%nat →
  (k ≤ length (SparseTensorList.element_shape_ tl))%nat →
  let cs := Z.max 1 <$> take k (SparseTensorList.element_shape_ tl) in
  for_each (reverse (seqZ 0 (Z.of_nat k))) (SparseIndexer.strides_step tl)
    (strides, wrap_i64 X)
  = Ok (((λ m, wrap_i64 (X * m)) <$> suffix_products cs) ++ drop k strides,
        wrap_i64 (X * foldr Z.mul 1 cs)).
Proof.
  induction k as [|k IH]; intros strides X Hs He cs.
  - simpl. by rewrite Z.mul_1_r, drop_0.
  - replace (Z.of_nat (S k)) with (Z.of_nat k + 1) by lia.
    rewrite seqZ_snoc, reverse_app by lia. simpl.
    destruct (lookup_lt_is_Some_2 (SparseTensorList.element_shape_ tl) k)
      as [e Hek]; [lia |].
    destruct (lookup_lt_is_Some_2 strides k) as [y Hy]; [lia |].
    rewrite store_Ok by lia. cbn [bind].
    rewrite (index_of_nat _ _ _ Hek). cbn [bind].
    assert ((if decide (e > 1) then wrap_i64 (wrap_i64 X * e) else wrap_i64 X)
            = wrap_i64 (X * Z.max 1 e)) as ->.
    { case_decide.
      - rewrite wrap_i64_mul_l. f_equal. lia.
      - f_equal. lia. }
    rewrite IH by (rewrite ?length_insert; lia). cbv zeta.
    subst cs. rewrite (take_S_r _ _ _ Hek), fmap_app. simpl.
    rewrite suffix_products_snoc, foldr_mul_snoc, fmap_app, <- app_assoc.
    rewrite Nat2Z.id.
    rewrite drop_insert_ge by lia. rewrite Nat.sub_diag.
    rewrite (drop_S _ _ _ Hy). simpl. rewrite Z.mul_1_r.
    apply (f_equal Ok), (f_equal2 pair); [| f_equal; lia].
    apply (f_equal (λ l, l ++ _)).
    rewrite <- list_fmap_compose. apply list_fmap_ext.
    intros j m _. simpl. f_equal. lia.
Qed.

Lemma suffix_products_bounds (l : list Z) :
  Forall (λ c, 1 ≤ c) l →
  1 ≤ foldr Z.mul 1 l
  ∧ Forall (λ m, 1 ≤ m ≤ foldr Z.mul 1 l) (suffix_products l).
Proof.
  induction 1 as [|x l Hx Hl [IH1 IH2]]; simpl.
  - split; [lia | constructor].
  - split; [nia |]. constructor; [nia |].
    eapply Forall_impl; [exact IH2 |]. simpl. intros m ?. nia.
Qed.

Lemma compute_strides_closed (uninit : list Z) (tl : SparseTensorList.t) :
  0 ≤ SparseTensorList.ndims_ tl ≤ Z.of_nat (length uninit) →
  SparseTensorList.ndims_ tl
  ≤ Z.of_nat (length (SparseTensorList.element_shape_ tl)) →
  SparseIndexer.compute_strides uninit tl
  = Ok ((wrap_i64 <$> suffix_products (counted_extents tl))
          ++ drop (Z.to_nat (SparseTensorList.ndims_ tl)) uninit,
        wrap_i64 (foldr Z.mul 1 (counted_extents tl))).
Proof.
  intros Hn He. unfold SparseIndexer.compute_strides.
  change (uninit, 1) with (uninit, wrap_i64 1).
  rewrite <- (Z2Nat.id (SparseTensorList.ndims_ tl)) at 1 by lia.
  rewrite compute_strides_loop by lia. cbv zeta. fold (counted_extents tl).
  apply (f_equal Ok), (f_equal2 pair); [| f_equal; lia].
  apply (f_equal (λ l, l ++ _)).
  apply list_fmap_ext. intros j m _. f_equal. lia.
Qed.

(** X15. The stride loop of the [SparseIndexer] constructor stores the
    row-major strides of the element shape with every extent of 1 or less
    counted as 1, leaves the entries from [ndims_] on as they were, and
    ends with their product as [tl_elem_size_]; all in [int64_t], exact
    when that product fits. *)
Theorem compute_strides_spec (uninit : list Z) (tl : SparseTensorList.t) :
  0 ≤ SparseTensorList.ndims_ tl ≤ Z.of_nat (length uninit) →
  SparseTensorList.ndims_ tl
  ≤ Z.of_nat (length (SparseTensorList.element_shape_ tl)) →
  let n := Z.to_nat (SparseTensorList.ndims_ tl) in
  let total := foldr Z.mul 1 (counted_extents tl) in
  SparseIndexer.compute_strides uninit tl
  = Ok ((wrap_i64 <$> suffix_products (counted_extents tl)) ++ drop n uninit,
        wrap_i64 total)
  ∧ (total < 2 ^ 63 →
     SparseIndexer.compute_strides uninit tl
     = Ok (suffix_products (counted_extents tl) ++ drop n uninit, total)).
Proof.
  intros Hn He n total. rewrite compute_strides_closed by done.
  fold n total. split; [done |]. intros Hfit.
  destruct (suffix_products_bounds (counted_extents tl)) as [H1 H2].
  { unfold counted_extents. apply Forall_fmap, Forall_true. simpl. lia. }
  fold total in H1, H2. rewrite (wrap_i64_small total) by lia.
  apply (f_equal Ok), (f_equal2 pair); [| done].
  apply (f_equal (λ l, l ++ _)).
  rewrite <- (list_fmap_id (suffix_products _)) at 2.
  apply list_fmap_ext. intros j m Hm. simpl.
  apply wrap_i64_small.
  pose proof (Forall_lookup_1 _ _ _ _ H2 Hm) as Hb. simpl in Hb. lia.
Qed.

Lemma compute_strides_spec_witness :
  SparseIndexer.compute_strides junk_a stl_4x0x8
  = Ok ((wrap_i64 <$> [8; 8; 1]) ++ [7; 7; 7; 7; 7; 7; 7], wrap_i64 32)
  ∧ (32 < 2 ^ 63 →
     SparseIndexer.compute_strides junk_a stl_4x0x8
     = Ok ([8; 8; 1] ++ [7; 7; 7; 7; 7; 7; 7], 32)).
Proof.
  apply (compute_strides_spec junk_a stl_4x0x8); simpl; lia.
Defined.

(** X16. [GetWorkloadValue3DIdx] splits an offset into a block by the
    strides of the last three axes: when the stride of the third-to-last
    axis is [k] times that of the second-to-last, [z * s3 + y * s2 + x] is
    the offset again with [x] below [s2] and [y] below [k]. *)
Theorem GetWorkloadValue3DIdx_roundtrip
    (si : SparseIndexer.t) (v s3 s2 k : Z) :
  3 ≤ SparseIndexer.ndims_ si →
  SparseIndexer.tl_strides_ si !! Z.to_nat (SparseIndexer.ndims_ si - 3)
  = Some s3 →
  SparseIndexer.tl_strides_ si !! Z.to_nat (SparseIndexer.ndims_ si - 2)
  = Some s2 →
  0 < s2 → 0 < k → s3 = k * s2 → 0 ≤ v →
  ∃ x y z, SparseIndexer.GetWorkloadValue3DIdx si v = Ok (x, y, z)
           ∧ z * s3 + y * s2 + x = v
           ∧ 0 ≤ x < s2 ∧ 0 ≤ y < k ∧ 0 ≤ z.
Proof.
  intros Hn H3 H2 Hs2 Hk -> Hv. unfold SparseIndexer.GetWorkloadValue3DIdx.
  assert (0 < k * s2) as Hs3 by nia.
  rewrite (proj2 (index_Ok _ _ (k * s2))) by (split; [lia | done]).
  cbn [bind].
  destruct (div_rem_nonneg v (k * s2) Hv Hs3) as [-> ->]. cbn [bind].
  rewrite (proj2 (index_Ok _ _ s2)) by (split; [lia | done]). cbn [bind].
  pose proof (Z.mod_pos_bound v (k * s2) Hs3) as Hm3.
  destruct (div_rem_nonneg (v `mod` (k * s2)) s2 ltac:(lia) Hs2) as [-> _].
  cbn [bind].
  destruct (div_rem_nonneg v s2 Hv Hs2) as [_ ->]. cbn [bind].
  eexists _, _, _. split; [done |].
  pose proof (Z.div_mod v (k * s2) ltac:(lia)).
  pose proof (Z.div_mod (v `mod` (k * s2)) s2 ltac:(lia)).
  pose proof (Z.mod_pos_bound v s2 Hs2).
  assert (v `mod` s2 = (v `mod` (k * s2)) `mod` s2) as Hmm.
  { symmetry. apply Z.mod_mod_divide. by exists k. }
  assert (0 ≤ v `div` (k * s2)) by (apply Z.div_pos; lia).
  assert (0 ≤ (v `mod` (k * s2)) `div` s2) by (apply Z.div_pos; lia).
  assert ((v `mod` (k * s2)) `div` s2 < k)
    by (apply Z.div_lt_upper_bound; lia).
  repeat split; lia.
Qed.

Lemma GetWorkloadValue3DIdx_roundtrip_witness :
  ∃ x y z, SparseIndexer.GetWorkloadValue3DIdx si_8x8x8 333 = Ok (x, y, z)
           ∧ z * 64 + y * 8 + x = 333
           ∧ 0 ≤ x < 8 ∧ 0 ≤ y < 8 ∧ 0 ≤ z.
Proof.
  apply (GetWorkloadValue3DIdx_roundtrip si_8x8x8 333 64 8 8);
    try reflexivity; simpl; lia.
Defined.

(** X17. Every work item below [NumWorkloads] decodes to a key index below
    [size_] and an offset below [tl_elem_size_] that stand for the work
    item again; on a pointer table of [2 * size_] entries the key and the
    value pointer are then read inside the table, from different slots,
    and the value address is the slot's pointer plus the offset times the
    element size.  The table's length is taken to fit [int64_t]. *)
Theorem sparse_workload_slots (si : SparseIndexer.t) (w : Z) :
  let tl := SparseIndexer.sparse_tl_ si in
  let size := SparseTensorList.size_ tl in
  let elem := SparseIndexer.tl_elem_size_ si in
  0 < elem → 0 ≤ size → size * elem < 2 ^ 63 →
  Z.of_nat (length (SparseTensorList.ptrs_ tl)) = 2 * size → 2 * size < 2 ^ 63 →
  0 ≤ w < SparseIndexer.NumWorkloads si →
  ∃ key off kslot vslot kp base,
    SparseIndexer.GetSparseWorkloadIdx si w = Ok (key, off)
    ∧ key * elem + off = w ∧ 0 ≤ key < size ∧ 0 ≤ off < elem
    ∧ kslot ≠ vslot
    ∧ SparseTensorList.ptrs_ tl !! kslot = Some kp
    ∧ SparseTensorList.ptrs_ tl !! vslot = Some base
    ∧ SparseIndexer.GetWorkloadKeyPtr si key = Ok kp
    ∧ SparseIndexer.GetWorkloadValuePtr si key off
      = Ok (ptr_add base (off * SparseIndexer.tl_byte_size_ si)).
Proof.
  intros tl size elem Helem Hsize Hfit Hlen Hlen' [Hw0 Hw].
  unfold SparseIndexer.NumWorkloads in Hw. fold tl size elem in Hw.
  rewrite wrap_i64_small in Hw by nia.
  unfold SparseIndexer.GetSparseWorkloadIdx. fold elem.
  destruct (div_rem_nonneg w elem Hw0 Helem) as [-> ->]. cbn [bind].
  pose proof (Z.div_mod w elem ltac:(lia)).
  pose proof (Z.mod_pos_bound w elem Helem).
  assert (0 ≤ w `div` elem) by (apply Z.div_pos; lia).
  assert (w `div` elem < size) by (apply Z.div_lt_upper_bound; lia).
  set (key := w `div` elem) in *. set (off := w `mod` elem) in *.
  unfold SparseIndexer.GetWorkloadKeyPtr, SparseIndexer.GetWorkloadValuePtr.
  fold tl size.
  destruct (SparseTensorList.interleaved_ tl).
  - destruct (lookup_lt_is_Some_2 (SparseTensorList.ptrs_ tl)
                (Z.to_nat (key * 2 + 0))) as [kp Hkp]; [lia |].
    destruct (lookup_lt_is_Some_2 (SparseTensorList.ptrs_ tl)
                (Z.to_nat (key * 2 + 1))) as [base Hbase]; [lia |].
    exists key, off, (Z.to_nat (key * 2 + 0)), (Z.to_nat (key * 2 + 1)),
      kp, base.
    rewrite !(wrap_i64_small (key * 2)) by lia.
    rewrite !(wrap_i64_small (key * 2 + _)) by lia.
    rewrite (proj2 (index_Ok _ _ kp)) by (split; [lia | done]).
    rewrite (proj2 (index_Ok _ _ base)) by (split; [lia | done]).
    cbn [bind]. rewrite ptr_add_wrap.
    repeat split; try (done || lia).
  - destruct (lookup_lt_is_Some_2 (SparseTensorList.ptrs_ tl)
                (Z.to_nat key)) as [kp Hkp]; [lia |].
    destruct (lookup_lt_is_Some_2 (SparseTensorList.ptrs_ tl)
                (Z.to_nat (size + key))) as [base Hbase]; [lia |].
    exists key, off, (Z.to_nat key), (Z.to_nat (size + key)), kp, base.
    rewrite (wrap_i64_small (size + key)) by lia.
    rewrite (proj2 (index_Ok _ _ kp)) by (split; [lia | done]).
    rewrite (proj2 (index_Ok _ _ base)) by (split; [lia | done]).
    cbn [bind]. rewrite ptr_add_wrap.
    repeat split; try (done || lia).
Qed.

Lemma sparse_workload_slots_witness :
  ∃ key off kslot vslot kp base,
    SparseIndexer.GetSparseWorkloadIdx si_8x8x8 700 = Ok (key, off)
    ∧ key * 512 + off = 700 ∧ 0 ≤ key < 2 ∧ 0 ≤ off < 512
    ∧ kslot ≠ vslot
    ∧ SparseTensorList.ptrs_ stl_8x8x8 !! kslot = Some kp
    ∧ SparseTensorList.ptrs_ stl_8x8x8 !! vslot = Some base
    ∧ SparseIndexer.GetWorkloadKeyPtr si_8x8x8 key = Ok kp
    ∧ SparseIndexer.GetWorkloadValuePtr si_8x8x8 key off
      = Ok (ptr_add base (off * 4)).
Proof.
  apply (sparse_workload_slots si_8x8x8 700).
  - simpl. lia.
  - simpl. lia.
  - simpl. lia.
  - reflexivity.
  - simpl. lia.
  - vm_compute. split; [discriminate | reflexivity].
Defined.



(** * Further properties of PointCloudImpl.h *)

(** ** EstimatePointWiseCovariance: the reads *)

Lemma index_not_Raise {A} (arr : list A) (i : Z) (e : error) :
  index arr i ≠ Raise e.
Proof. unfold index. case_decide; [done |]. by destruct (arr !! Z.to_nat i). Qed.

Lemma cumulants_step_not_Raise (points_ptr : list float) (indices_ptr : list Z)
    (i : Z) (cumulants : list float) (e : error) :
  pointcloud.cumulants_step points_ptr indices_ptr i cumulants ≠ Raise e.
Proof.
  unfold pointcloud.cumulants_step.
  destruct (index indices_ptr i) as [idx| |] eqn:E0; cbn [bind];
    [| by apply index_not_Raise in E0 | done].
  destruct (index points_ptr idx) as [p0| |] eqn:E1; cbn [bind];
    [| by apply index_not_Raise in E1 | done].
  destruct (index points_ptr (idx + 1)) as [p1| |] eqn:E2; cbn [bind];
    [| by apply index_not_Raise in E2 | done].
  destruct (index points_ptr (idx + 2)) as [p2| |] eqn:E3; cbn [bind];
    [| by apply index_not_Raise in E3 | done].
  by destruct cumulants as [|c0 [|c1 [|c2 [|c3 [|c4 [|c5 [|c6 [|c7
    [|c8 [|]]]]]]]]]].
Qed.

(** A loop whose body never raises and is undefined at round [i] is
    undefined. *)
Lemma for_loop_undefined {St} (body : Z → St → result St) (i : Z) (count : nat) :
  ∀ (lo : Z) (s : St),
  lo ≤ i < lo + Z.of_nat count →
  (∀ s, body i s = Undefined) →
  (∀ j s e, body j s ≠ Raise e) →
  for_loop lo count body s = Undefined.
Proof.
  induction count as [|k IH]; intros lo s Hi Hu Hr; [lia |].
  simpl. destruct (decide (lo = i)) as [-> | Hne].
  - by rewrite Hu.
  - destruct (body lo s) as [s'| e |] eqn:E; cbn [bind].
    + apply IH; [lia | done | done].
    + by apply Hr in E.
    + done.
Qed.

(** X19. [EstimatePointWiseCovariance] returns nine values whenever each of
    the first [indices_size] indices addresses three coordinates inside
    [points_ptr]; as soon as one of them does not, it reads outside the
    buffer.  It raises nothing in either case. *)
Theorem EstimatePointWiseCovariance_reads
    (points_ptr : list float) (indices_ptr : list Z) (indices_size : Z) :
  0 ≤ indices_size ≤ Z.of_nat (length indices_ptr) →
  ((∀ (i : nat) idx, Z.of_nat i < indices_size →
      indices_ptr !! i = Some idx →
      0 ≤ idx ∧ idx + 2 < Z.of_nat (length points_ptr)) →
   ∃ cov, pointcloud.EstimatePointWiseCovariance points_ptr indices_ptr
            indices_size = Ok cov
          ∧ length cov = 9%nat)
  ∧ (∀ (i : nat) idx, Z.of_nat i < indices_size →
       indices_ptr !! i = Some idx →
       ¬ (0 ≤ idx ∧ idx + 2 < Z.of_nat (length points_ptr)) →
       pointcloud.EstimatePointWiseCovariance points_ptr indices_ptr
         indices_size = Undefined).
Proof.
  intros Hn. split.
  - intros Hall. unfold pointcloud.EstimatePointWiseCovariance.
    destruct (for_range_inv
      (λ _ (cumulants : list float), length cumulants = 9%nat)
      (pointcloud.cumulants_step points_ptr indices_ptr)
      indices_size (replicate 9 0%float)) as (cumulants & E & Hl).
    + lia.
    + done.
    + intros i cumulants Hi Hl.
      destruct (lookup_lt_is_Some_2 indices_ptr (Z.to_nat i)) as [idx Hidx];
        [lia |].
      destruct (Hall (Z.to_nat i) idx ltac:(lia) Hidx) as [H0 H2].
      destruct (lookup_lt_is_Some_2 points_ptr (Z.to_nat idx)) as [p0 Hp0];
        [lia |].
      destruct (lookup_lt_is_Some_2 points_ptr (Z.to_nat (idx + 1)))
        as [p1 Hp1]; [lia |].
      destruct (lookup_lt_is_Some_2 points_ptr (Z.to_nat (idx + 2)))
        as [p2 Hp2]; [lia |].
      unfold pointcloud.cumulants_step.
      rewrite (proj2 (index_Ok _ i idx)) by (split; [lia | done]).
      cbn [bind].
      rewrite (proj2 (index_Ok _ idx p0)) by (split; [lia | done]).
      cbn [bind].
      rewrite (proj2 (index_Ok _ (idx + 1) p1)) by (split; [lia | done]).
      cbn [bind].
      rewrite (proj2 (index_Ok _ (idx + 2) p2)) by (split; [lia | done]).
      cbn [bind].
      destruct cumulants as [|c0 [|c1 [|c2 [|c3 [|c4 [|c5 [|c6 [|c7
        [|c8 [|]]]]]]]]]]; try discriminate.
      eexists. split; done.
    + rewrite E. cbn [bind].
      destruct cumulants as [|c0 [|c1 [|c2 [|c3 [|c4 [|c5 [|c6 [|c7
        [|c8 [|]]]]]]]]]]; try discriminate.
      eexists. split; done.
  - intros i idx Hi Hidx Hbad.
    unfold pointcloud.EstimatePointWiseCovariance, for_range.
    rewrite (for_loop_undefined _ (Z.of_nat i)); [done | lia | |].
    + intros s. unfold pointcloud.cumulants_step.
      rewrite (index_of_nat _ _ _ Hidx). cbn [bind].
      destruct (index points_ptr idx) as [p0| |] eqn:E0; [| | done].
      2:{ by apply index_not_Raise in E0. }
      apply index_Ok in E0 as [H0 E0]. apply lookup_lt_Some in E0.
      cbn [bind].
      destruct (index points_ptr (idx + 1)) as [p1| |] eqn:E1; [| | done].
      2:{ by apply index_not_Raise in E1. }
      cbn [bind].
      destruct (index points_ptr (idx + 2)) as [p2| |] eqn:E2; [| | done].
      2:{ by apply index_not_Raise in E2. }
      apply index_Ok in E2 as [_ E2]. apply lookup_lt_Some in E2.
      exfalso. apply Hbad. lia.
    + intros j s e. apply cumulants_step_not_Raise.
Qed.

Lemma EstimatePointWiseCovariance_reads_witness :
  ((∀ (i : nat) idx, Z.of_nat i < 2 → two_indices !! i = Some idx →
      0 ≤ idx ∧ idx + 2 < Z.of_nat (length two_points)) →
   ∃ cov, pointcloud.EstimatePointWiseCovariance two_points two_indices 2
          = Ok cov
          ∧ length cov = 9%nat)
  ∧ (∀ (i : nat) idx, Z.of_nat i < 2 → two_indices !! i = Some idx →
       ¬ (0 ≤ idx ∧ idx + 2 < Z.of_nat (length two_points)) →
       pointcloud.EstimatePointWiseCovariance two_points two_indices 2
       = Undefined).
Proof.
  apply (EstimatePointWiseCovariance_reads two_points two_indices 2).
  simpl. lia.
Defined.

(** X20. With no neighbours the count is zero and every cumulant is
    divided by it: all nine entries written are NaN, whatever the buffers
    hold. *)
Theorem EstimatePointWiseCovariance_no_neighbours
    (points_ptr : list float) (indices_ptr : list Z) :
  pointcloud.EstimatePointWiseCovariance points_ptr indices_ptr 0
  = Ok (replicate 9 nan).
Proof.
  unfold pointcloud.EstimatePointWiseCovariance, for_range.
  change (Z.to_nat 0) with 0%nat. cbn [for_loop bind].
  vm_compute. reflexivity.
Qed.

(** ** UnprojectCPU with a colour image *)

Section Unproject_colors.

Import pointcloud.

Variables scalar_t F : Type.
Variable scaled : scalar_t → F → F.
Variable Fzero : F.
Variable Flt : F → F → bool.
Variable ti_vertex : Z → Z → F → F * F * F.

Variable depth : image scalar_t.
Variable imcol : image (F * F * F).
Variables depth_scale depth_max : F.
Variable stride : Z.

Hypothesis Hstride : 1 ≤ stride.
Hypothesis Hdepth : image_wf depth.
Hypothesis Himcol : image_wf imcol.
Hypothesis Hrows : rows imcol = rows depth.
Hypothesis Hcols : cols imcol = cols depth.

Let cs : Z := cols depth `quot` stride.
Let n : Z := (rows depth `quot` stride) * cs.
Let valid (xy : Z * Z) : Prop :=
  in_range scaled Fzero Flt depth depth_scale depth_max xy = true.
Let vertex : Z * Z → option (F * F * F) :=
  vertex_of scaled ti_vertex depth depth_scale.
Let pixel : Z → Z * Z := pixel_of depth stride.

Hypothesis Hn : n ≤ INT_MAX.

(** One work item: a pixel in range claims slot [count] in both buffers. *)
Lemma kernel_step_colors (w count : Z) (points colors : rows_t F) :
  0 ≤ w < n → 0 ≤ count < n →
  length points = Z.to_nat n → length colors = Z.to_nat n →
  (¬ valid (pixel w)
   ∧ kernel scaled Fzero Flt ti_vertex depth (Some imcol) depth_scale
       depth_max stride cs w (count, points, colors)
     = Ok (count, points, colors))
  ∨ (valid (pixel w)
     ∧ kernel scaled Fzero Flt ti_vertex depth (Some imcol) depth_scale
         depth_max stride cs w (count, points, colors)
       = Ok (count + 1, <[Z.to_nat count := vertex (pixel w)]> points,
             <[Z.to_nat count := pixel_value imcol (pixel w)]> colors)).
Proof.
  intros Hw Hcount Hpoints Hcol.
  destruct (pixel_bounds scalar_t depth stride Hstride Hdepth w Hw)
    as (Hcs & Hq & Hr & Hx & Hy).
  unfold pixel_of in Hx, Hy. fold cs in Hx, Hy, Hcs, Hq, Hr.
  simpl in Hx, Hy.
  destruct Hdepth as (Hdr & Hdc & Hsize & Hlen).
  unfold kernel. unfold div_i64, rem_i64.
  rewrite !decide_False by (unfold INT64_MIN; lia). cbn [bind].
  rewrite (wrap_i64_small (w `quot` cs * stride)) by nia.
  rewrite (wrap_i64_small (w `rem` cs * stride)) by nia.
  destruct (GetDataPtr_in_bounds scalar_t depth stride depth
              (w `rem` cs * stride) (w `quot` cs * stride))
    as (px & Hpx & ->); [done.. |].
  cbn [bind].
  assert (in_range scaled Fzero Flt depth depth_scale depth_max (pixel w)
          = Flt Fzero (scaled px depth_scale)
            && Flt (scaled px depth_scale) depth_max) as Hin.
  { unfold in_range, pixel, pixel_of. fold cs. simpl. by rewrite Hpx. }
  assert (vertex (pixel w)
          = Some (ti_vertex (w `rem` cs * stride) (w `quot` cs * stride)
                    (scaled px depth_scale))) as Hv.
  { unfold vertex, vertex_of, pixel, pixel_of. fold cs. simpl.
    by rewrite Hpx. }
  unfold valid. rewrite Hin.
  destruct (Flt Fzero (scaled px depth_scale)
            && Flt (scaled px depth_scale) depth_max).
  2:{ left. split; [discriminate | done]. }
  right. split; [done |].
  assert (wrap_i32 (count + 1) = count + 1) as ->.
  { unfold wrap_i32, wrap_signed, INT_MAX in *.
    change (2 ^ (32 - 1)) with 2147483648 in *.
    change (2 ^ 32) with 4294967296. change (2 ^ 31) with 2147483648 in *.
    rewrite Z.mod_small; lia. }
  rewrite store_Ok by lia. cbn [bind]. rewrite Hv.
  destruct (GetDataPtr_in_bounds scalar_t depth stride imcol
              (w `rem` cs * stride) (w `quot` cs * stride))
    as (c & Hc & ->); [done | lia | lia |].
  cbn [bind]. rewrite store_Ok by lia. cbn [bind].
  unfold pixel_value, pixel, pixel_of. fold cs. simpl. by rewrite Hc.
Qed.

(** The state after the work items [sched] have run: both buffers hold,
    slot by slot, the vertex and the colour of the same pixel. *)
Lemma launch_colors (sched : list Z) :
  sched ≡ₚ workloads depth stride →
  let vs := filter valid (pixel <$> sched) in
  LaunchGeneralKernel sched
    (kernel scaled Fzero Flt ti_vertex depth (Some imcol) depth_scale
       depth_max stride cs)
    (0, replicate (Z.to_nat n) None, replicate (Z.to_nat n) None)
  = Ok (Z.of_nat (length vs),
        (vertex <$> vs) ++ replicate (Z.to_nat n - length vs) None,
        (pixel_value imcol <$> vs) ++ replicate (Z.to_nat n - length vs) None).
Proof.
  intros Hperm.
  assert (length sched = Z.to_nat n) as Hslen.
  { rewrite Hperm. unfold workloads. by rewrite length_seqZ. }
  assert (∀ w, w ∈ sched → 0 ≤ w < n) as Hsin.
  { intros w. rewrite Hperm. unfold workloads. rewrite elem_of_seqZ.
    fold cs n. lia. }
  unfold LaunchGeneralKernel.
  destruct (for_each_inv
    (λ done_ (st : kstate F),
       let vs := filter valid (pixel <$> done_) in
       st.1.1 = Z.of_nat (length vs)
       ∧ st.1.2 = (vertex <$> vs) ++ replicate (Z.to_nat n - length vs) None
       ∧ st.2 = (pixel_value imcol <$> vs)
                  ++ replicate (Z.to_nat n - length vs) None)
    (kernel scaled Fzero Flt ti_vertex depth (Some imcol) depth_scale
       depth_max stride cs)
    sched
    (0, replicate (Z.to_nat n) None, replicate (Z.to_nat n) None))
    as ([[count points] colors] & E & Hc & Hp & Hcol).
  - simpl. by rewrite Nat.sub_0_r.
  - intros done_ w [[count points] colors] [rest Hsched] (Hc & Hp & Hcol).
    simpl in Hc, Hp, Hcol.
    set (vs := filter valid (pixel <$> done_)) in *.
    assert (length vs ≤ length done_)%nat as Hvl.
    { unfold vs. etrans; [apply length_filter |]. by rewrite length_fmap. }
    assert (length done_ < Z.to_nat n)%nat as Hdl.
    { rewrite <- Hslen, Hsched, length_app. simpl. lia. }
    assert (0 ≤ w < n) as Hw.
    { apply Hsin. rewrite Hsched, elem_of_app, elem_of_cons. auto. }
    destruct (kernel_step_colors w count points colors) as
      [[Hnv ->] | (Hv & ->)].
    + done.
    + lia.
    + subst points. rewrite length_app, length_fmap, length_replicate. lia.
    + subst colors. rewrite length_app, length_fmap, length_replicate. lia.
    + eexists. split; [done |]. simpl.
      rewrite fmap_app, filter_app. simpl.
      rewrite filter_cons_False by done. rewrite filter_nil, app_nil_r.
      done.
    + eexists. split; [done |]. simpl.
      rewrite fmap_app, filter_app. simpl.
      rewrite filter_cons_True by done. rewrite filter_nil.
      fold vs. rewrite length_app. simpl.
      split; [lia |].
      subst points colors count. rewrite !fmap_app, <- !app_assoc. simpl.
      rewrite Nat2Z.id.
      unfold rows_t.
      rewrite !insert_app_r_alt by (by rewrite length_fmap).
      rewrite !length_fmap, Nat.sub_diag.
      replace (Z.to_nat n - length vs)%nat
        with (S (Z.to_nat n - (length vs + 1)))%nat by lia.
      done.
  - rewrite E. simpl in Hc, Hp, Hcol. by subst.
Qed.

End Unproject_colors.

(** X21. With a colour image of the depth image's shape, [UnprojectCPU]
    keeps colours aligned with points in every order of the work items:
    there is one list of the pixels in range, each exactly once, such that
    row [k] of [points] is the vertex and row [k] of [colors] the colour
    of its [k]-th pixel. *)
Theorem UnprojectCPU_colors_aligned
    (scalar_t F : Type) (scaled : scalar_t → F → F) (Fzero : F)
    (Flt : F → F → bool) (ti_vertex : Z → Z → F → F * F * F)
    (sched : list Z) (depth : pointcloud.image scalar_t)
    (imcol : pointcloud.image (F * F * F))
    (depth_scale depth_max : F) (stride : Z) :
  1 ≤ stride →
  pointcloud.image_wf depth →
  pointcloud.image_wf imcol →
  pointcloud.rows imcol = pointcloud.rows depth →
  pointcloud.cols imcol = pointcloud.cols depth →
  (pointcloud.rows depth `quot` stride) * (pointcloud.cols depth `quot` stride)
  ≤ INT_MAX →
  sched ≡ₚ pointcloud.workloads depth stride →
  let valid xy :=
    pointcloud.in_range scaled Fzero Flt depth depth_scale depth_max xy = true in
  ∃ pixels,
    pixels ≡ₚ filter valid (pointcloud.strided_pixels depth stride)
    ∧ pointcloud.UnprojectCPU scaled Fzero Flt ti_vertex sched depth
        (Some imcol) depth_scale depth_max stride
      = Ok (pointcloud.vertex_of scaled ti_vertex depth depth_scale <$> pixels,
            Some (pixel_value imcol <$> pixels)).
Proof.
  intros Hstride Hdepth Himcol Hrows Hcols Hn Hperm valid.
  destruct (strided_counts scalar_t depth stride Hstride Hdepth)
    as (Hrs & Hcs & _ & _).
  pose proof (launch_colors scalar_t F scaled Fzero Flt ti_vertex depth imcol
                depth_scale depth_max stride Hstride Hdepth Himcol Hrows Hcols
                Hn sched Hperm) as E.
  cbv zeta in E.
  set (n := (pointcloud.rows depth `quot` stride)
            * (pointcloud.cols depth `quot` stride)) in *.
  set (vs := filter valid (pointcloud.pixel_of depth stride <$> sched)) in *.
  exists vs. split.
  - unfold vs. rewrite Hperm.
    by rewrite (workloads_enumerate scalar_t depth stride Hstride Hdepth).
  - unfold pointcloud.UnprojectCPU.
    unfold div_i64. rewrite !decide_False by (unfold INT64_MIN; lia).
    cbn [bind]. fold n.
    rewrite (wrap_i64_small n) by (unfold INT_MAX in Hn; unfold n in *; nia).
    rewrite bool_decide_eq_true_2 by done.
    match type of E with
    | ?l = _ => match goal with |- bind ?x _ = _ => change x with l end
    end.
    rewrite E. cbn [bind].
    unfold pointcloud.Slice. rewrite Nat2Z.id.
    rewrite !take_app_length'; [done | by rewrite length_fmap..].
Qed.

Lemma UnprojectCPU_colors_aligned_witness :
  let valid xy :=
    pointcloud.in_range scaled_double 0%float PrimFloat.ltb depth_2x2
      1%float 10%float xy = true in
  ∃ pixels,
    pixels ≡ₚ filter valid (pointcloud.strided_pixels depth_2x2 1)
    ∧ pointcloud.UnprojectCPU scaled_double 0%float PrimFloat.ltb
        vertex_pinhole sched_2x2 depth_2x2 (Some colors_2x2) 1%float 10%float 1
      = Ok (pointcloud.vertex_of scaled_double vertex_pinhole depth_2x2 1%float
              <$> pixels,
            Some (pixel_value colors_2x2 <$> pixels)).
Proof.
  apply (UnprojectCPU_colors_aligned float float scaled_double 0%float
           PrimFloat.ltb vertex_pinhole sched_2x2 depth_2x2 colors_2x2
           1%float 10%float 1).
  - lia.
  - unfold pointcloud.image_wf, depth_2x2.
    cbn [pointcloud.rows pointcloud.cols pointcloud.data length]. lia.
  - unfold pointcloud.image_wf, colors_2x2.
    cbn [pointcloud.rows pointcloud.cols pointcloud.data length]. lia.
  - reflexivity.
  - reflexivity.
  - vm_compute. discriminate.
  - change (pointcloud.workloads depth_2x2 1) with [0; 1; 2; 3].
    unfold sched_2x2. solve_Permutation.
Defined.

(** * Constructors composed with their accessors *)

(** X22. The [OffsetCalculator] constructor raises when [dims] exceeds
    [MAX_DIMS]; otherwise it stores the extents and strides of the axes
    below [dims] truncated to [uint32_t], and extent 1 and stride 0 on
    the axes from [dims] on, which makes a calculator [get] accepts. *)
Theorem OffsetCalculator_make_cases (NARGS : nat) (dims : Z) (sizes : list Z)
    (strides : list (list Z)) :
  dims ≤ Z.of_nat (length sizes) →
  (NARGS ≤ length strides)%nat →
  Forall (λ row, dims ≤ Z.of_nat (length row)) strides →
  if decide (dims > MAX_DIMS)
  then OffsetCalculator.make NARGS dims sizes strides
       = Raise (LogError "tensor has too many (>{}) dims_" [MAX_DIMS])
  else OffsetCalculator.make NARGS dims sizes strides
       = Ok (stored NARGS dims sizes strides)
       ∧ oc_wf NARGS (stored NARGS dims sizes strides)
       ∧ ∀ d, 0 ≤ d → dims ≤ d < MAX_DIMS →
           OffsetCalculator.sizes_ (stored NARGS dims sizes strides)
             !! Z.to_nat d = Some 1
           ∧ OffsetCalculator.strides_ (stored NARGS dims sizes strides)
               !! Z.to_nat d = Some (replicate NARGS 0).
Proof.
  intros Hsizes Hargs Hrows. case_decide as Hd.
  - unfold OffsetCalculator.make. by rewrite decide_True.
  - destruct (make_spec NARGS dims sizes strides) as [E Hwf];
      [lia | done | done | done |].
    split; [done |]. split; [done |]. intros d Hd0 Hdr. unfold stored.
    unfold MAX_DIMS in *.
    cbn [OffsetCalculator.sizes_ OffsetCalculator.strides_].
    rewrite !list_lookup_fmap.
    rewrite (lookup_seqZ_lt 0 10 (Z.to_nat d)) by lia. simpl.
    unfold stored_size. rewrite decide_False by lia. split; [done |].
    f_equal. apply list_eq. intros k.
    rewrite list_lookup_fmap.
    destruct (decide (k < NARGS)%nat) as [Hk | Hk].
    + rewrite lookup_replicate_2 by done.
      rewrite (lookup_seqZ_lt 0 _ k) by lia. simpl.
      unfold stored_stride. by rewrite decide_False by lia.
    + rewrite (proj1 (lookup_replicate_None NARGS 0 k)) by lia.
      by rewrite lookup_seqZ_ge by lia.
Qed.

Lemma OffsetCalculator_make_cases_witness :
  OffsetCalculator.make 2 2 [3; 4] [[4; 12]; [8; 0]]
  = Ok (stored 2 2 [3; 4] [[4; 12]; [8; 0]])
  ∧ oc_wf 2 (stored 2 2 [3; 4] [[4; 12]; [8; 0]])
  ∧ ∀ d, 0 ≤ d → 2 ≤ d < MAX_DIMS →
      OffsetCalculator.sizes_ (stored 2 2 [3; 4] [[4; 12]; [8; 0]])
        !! Z.to_nat d = Some 1
      ∧ OffsetCalculator.strides_ (stored 2 2 [3; 4] [[4; 12]; [8; 0]])
          !! Z.to_nat d = Some (replicate 2 0).
Proof.
  apply (OffsetCalculator_make_cases 2 2 [3; 4] [[4; 12]; [8; 0]]).
  - simpl. lia.
  - simpl. lia.
  - repeat constructor; simpl; lia.
Defined.

(** X23. An iterator built over a contiguous tensor with positive extents
    visits its elements in order: [NumWorkloads] is the number of
    elements and [GetPtr(w)] is [data_ptr + w * byte_size] for every [w]
    below it. *)
Theorem TensorIterator_contiguous (u1 u2 : list Z) (tn : Tensor.t) (w : Z) :
  Z.of_nat (length u1) = MAX_DIMS → Z.of_nat (length u2) = MAX_DIMS →
  Tensor.NumDims tn ≤ MAX_DIMS →
  Tensor.strides tn = suffix_products (Tensor.shape tn) →
  Forall (λ s, 0 < s) (Tensor.shape tn) →
  0 < Tensor.byte_size tn →
  let numel := foldr Z.mul 1 (Tensor.shape tn) in
  numel * Tensor.byte_size tn < 2 ^ 63 →
  0 ≤ w < numel →
  ∃ it, TensorIterator.make u1 u2 tn = Ok it
    ∧ TensorIterator.NumWorkloads it = Ok numel
    ∧ TensorIterator.GetPtr it w
      = Ok (ptr_add (Tensor.data_ptr tn) (w * Tensor.byte_size tn)).
Proof.
  intros H1 H2 Hn Hstr Hpos He numel Hfit Hw.
  assert (length (Tensor.strides tn) = length (Tensor.shape tn)) as Hlen
    by (by rewrite Hstr, length_suffix_products).
  destruct (of_Tensor_Ok u1 u2 tn H1 H2 Hlen Hn) as [Er (Hrn & Hrs)].
  cbv zeta in Er, Hrn, Hrs.
  set (e := Tensor.byte_size tn) in *.
  set (shape := Tensor.shape tn) in *.
  set (r := TensorRef.mk _ _ _ _ _) in *.
  destruct (suffix_products_bounds shape) as [Hnum Hsp].
  { eapply Forall_impl; [exact Hpos |]. simpl. lia. }
  fold numel in Hnum, Hsp.
  exists (TensorIterator.mk r (Tensor.NumDims tn)).
  unfold TensorIterator.make. rewrite Er. cbn [bind].
  split; [done |].
  assert (0 ≤ Tensor.NumDims tn) as Hn0 by (unfold Tensor.NumDims; lia).
  assert (TensorIterator.NumWorkloads (TensorIterator.mk r (Tensor.NumDims tn))
          = Ok numel) as EN.
  { rewrite NumWorkloads_closed by (simpl; done || lia).
    simpl. unfold Tensor.NumDims. fold shape. rewrite Nat2Z.id.
    unfold extent_prefix. rewrite take_app_length. fold numel.
    rewrite wrap_i64_small by nia. done. }
  split; [done |].
  unfold TensorIterator.GetPtr. rewrite EN. cbn [bind].
  rewrite !decide_False by lia. cbv zeta. simpl.
  rewrite (wrap_i64_small (w * e)) by nia.
  assert (∀ (k : nat) st, Tensor.strides tn !! k = Some st →
            TensorRef.byte_strides_ r !! k = Some (st * e)
            ∧ 1 ≤ st ≤ numel) as Hbs.
  { intros k st Hst. pose proof (lookup_lt_Some _ _ _ Hst) as Hk.
    assert (1 ≤ st ≤ numel) as Hb.
    { rewrite Hstr in Hst. apply (Forall_lookup_1 _ _ _ _ Hsp Hst). }
    split; [| done]. unfold r. simpl.
    rewrite lookup_app_l by (by rewrite length_fmap).
    rewrite list_lookup_fmap, Hst. simpl.
    by rewrite wrap_i64_small by nia. }
  destruct (GetPtr_loop (TensorIterator.mk r (Tensor.NumDims tn)) e (w * e))
    as (off & rest & E & Hsum & Hoff & Hrest & Hzero).
  - done.
  - simpl. lia.
  - done.
  - by apply Z.divide_mul_r.
  - nia.
  - cbn [TensorIterator.input_ TensorIterator.ndims_]. intros k b Hk Hb.
    destruct (lookup_lt_is_Some_2 (Tensor.strides tn) k) as [st Hst].
    { unfold Tensor.NumDims in Hk. fold shape in Hk. lia. }
    destruct (Hbs k st Hst) as [Hb' Hst'].
    rewrite Hb' in Hb. injection Hb as <-.
    split; [nia |]. by apply Z.divide_mul_r.
  - simpl in E. rewrite E. cbn [bind]. simpl. do 2 f_equal.
    destruct (decide (length shape = 0)%nat) as [H0 | Hne].
    + apply length_zero_iff_nil in H0. unfold numel in Hw. rewrite H0 in Hw.
      simpl in Hw. lia.
    + rewrite Hzero in Hsum; [lia |].
      exists (length shape - 1)%nat.
      cbn [TensorIterator.input_ TensorIterator.ndims_].
      unfold Tensor.NumDims. fold shape. split; [lia |].
      destruct (lookup_lt_is_Some_2 shape (length shape - 1)) as [s Hs];
        [lia |].
      pose proof (suffix_products_lookup _ _ _ Hs) as Hl.
      rewrite drop_ge in Hl by lia. simpl in Hl. rewrite <- Hstr in Hl.
      destruct (Hbs _ _ Hl) as [Hb _]. rewrite Hb. f_equal. lia.
Qed.

Lemma TensorIterator_contiguous_witness :
  ∃ it, TensorIterator.make junk_a junk_b tensor_2x3x4 = Ok it
    ∧ TensorIterator.NumWorkloads it = Ok 24
    ∧ TensorIterator.GetPtr it 17 = Ok (ptr_add 4096 (17 * 4)).
Proof.
  apply (TensorIterator_contiguous junk_a junk_b tensor_2x3x4 17).
  - reflexivity.
  - reflexivity.
  - vm_compute. discriminate.
  - reflexivity.
  - simpl. repeat constructor.
  - simpl. lia.
  - simpl. lia.
  - simpl. lia.
Defined.

(** ** SparseIndexer::GetInputPtrFrom2D *)

(** X24. On an input whose last two axes form a contiguous [rows x cols]
    image of [e]-byte elements lying inside the address space,
    [GetInputPtrFrom2D(u, v)] returns the address
    [data_ptr_ + (v * cols + u) * e], inside the image's buffer, for a
    pixel of the image, and the null pointer for every other [(u, v)]. *)
Theorem GetInputPtrFrom2D_spec
    (si : SparseIndexer.t) (tr : TensorRef.t) (tensor_idx u v rows cols e : Z) :
  0 ≤ tensor_idx →
  SparseIndexer.inputs_ si !! Z.to_nat tensor_idx = Some tr →
  2 ≤ TensorRef.ndims_ tr →
  TensorRef.shape_ tr !! Z.to_nat (TensorRef.ndims_ tr - 2) = Some rows →
  TensorRef.shape_ tr !! Z.to_nat (TensorRef.ndims_ tr - 1) = Some cols →
  TensorRef.byte_strides_ tr !! Z.to_nat (TensorRef.ndims_ tr - 2)
  = Some (cols * e) →
  TensorRef.byte_strides_ tr !! Z.to_nat (TensorRef.ndims_ tr - 1) = Some e →
  0 < e → 0 ≤ rows → 0 ≤ cols → rows * cols * e < 2 ^ 63 →
  0 ≤ TensorRef.data_ptr_ tr →
  TensorRef.data_ptr_ tr + rows * cols * e ≤ 2 ^ 64 →
  if decide (0 ≤ u < cols ∧ 0 ≤ v < rows)
  then
    let p := TensorRef.data_ptr_ tr + (v * cols + u) * e in
    SparseIndexer.GetInputPtrFrom2D si tensor_idx u v = Ok p
    ∧ TensorRef.data_ptr_ tr ≤ p
    ∧ p + e ≤ TensorRef.data_ptr_ tr + rows * cols * e
  else SparseIndexer.GetInputPtrFrom2D si tensor_idx u v = Ok nullptr.
Proof.
  intros Hi Htr Hn Hrows Hcols Hbs2 Hbs1 He Hr Hc Hfit Hp0 Hp1.
  unfold SparseIndexer.GetInputPtrFrom2D.
  rewrite (proj2 (index_Ok _ _ tr)) by (split; [lia | done]). cbn [bind].
  cbv zeta.
  destruct (decide (u < 0)) as [Hu | Hu].
  { by rewrite decide_False by lia. }
  destruct (decide (v < 0)) as [Hv | Hv].
  { by rewrite decide_False by lia. }
  rewrite (proj2 (index_Ok _ _ rows)) by (split; [lia | done]). cbn [bind].
  destruct (decide (v >= rows)) as [Hv' | Hv'].
  { by rewrite decide_False by lia. }
  rewrite (proj2 (index_Ok _ _ cols)) by (split; [lia | done]). cbn [bind].
  destruct (decide (u >= cols)) as [Hu' | Hu'].
  { by rewrite decide_False by lia. }
  rewrite decide_True by lia. cbv zeta.
  rewrite (proj2 (index_Ok _ _ (cols * e))) by (split; [lia | done]).
  cbn [bind].
  rewrite (proj2 (index_Ok _ _ e)) by (split; [lia | done]). cbn [bind].
  assert (0 ≤ cols * e) as Hce by nia.
  assert (0 ≤ v * (cols * e)) as H1 by nia.
  assert (0 ≤ u * e) as H2 by nia.
  assert (v * (cols * e) ≤ (rows - 1) * (cols * e)) as H4
    by (apply Z.mul_le_mono_nonneg_r; lia).
  assert ((u + 1) * e ≤ cols * e) as H5
    by (apply Z.mul_le_mono_nonneg_r; lia).
  assert (v * (cols * e) + u * e + e ≤ rows * cols * e) as H3 by lia.
  rewrite (wrap_i64_small (v * (cols * e))) by lia.
  rewrite (wrap_i64_small (u * e)) by lia.
  rewrite wrap_i64_small by lia.
  unfold ptr_add. rewrite Z.mod_small by lia.
  split; [f_equal; lia |]. split; nia.
Qed.

Lemma GetInputPtrFrom2D_spec_witness :
  let p := 4096 + (1 * 3 + 2) * 4 in
  SparseIndexer.GetInputPtrFrom2D si_2x3 0 2 1 = Ok p
  ∧ 4096 ≤ p ∧ p + 4 ≤ 4096 + 2 * 3 * 4.
Proof.
  apply (GetInputPtrFrom2D_spec si_2x3 ref_2x3 0 2 1 2 3 4);
    try reflexivity; try lia; vm_compute; discriminate.
Defined.
